(** * JLPT question extraction: a shallow embedding of the extraction scripts

    The development follows the three Python scripts of the repository:

    - [JLPT-pdf-csv.py]: the listening block segmenter and the grammar /
      vocabulary line scanner (module [Csv]);
    - [JLPT-pdf-csv-grammar.py]: the scan of stage 1 (module [Stage1]), the
      finalization of a question and the manual refinement pass (module
      [Grammar]), and the tables the main programs write and read (module
      [CsvFile]);
    - [JLPT-pdf-csv-llm.py]: the text handling around the remote service,
      that is the fence of the response and the watermark filter (module
      [Llm]); the service itself is not modelled.

    Python [str] values are sequences of Unicode code points and are modelled
    as [list N]; Python [float] coordinates are IEEE binary64 numbers and are
    modelled by the primitive floats of Rocq; Python [int] is [Z], and the
    conversion [int] of a string of digits fails above the default limit
    of 4300 digits of CPython 3.11 and later.  What the PDF library hands to
    the scripts (blocks, lines, spans, drawings) and what the CSV reader
    hands to the refinement pass (field names, rows) are the inputs of the
    model. *)

From Stdlib Require Import NArith ZArith List Bool Lia Floats.
From Stdlib Require Import Strings.Ascii Strings.String.
From Stdlib Require DecimalString.
From Stdlib Require Import Sorting.Sorted.
From stdpp Require Import gmap list.
Import ListNotations.

Local Open Scope N_scope.
Local Open Scope list_scope.

(* ===================================================================== *)
(** ** Python strings *)
(* ===================================================================== *)

Module PyStr.

(** A Python string: the sequence of its code points. *)
Abbreviation pystr := (list N).

(** Literals are written as UTF-8 string literals and decoded to code
    points.  [utf8_go cur s] carries the code point under construction. *)
Fixpoint utf8_go (cur : option N) (s : string) : pystr :=
  match s with
  | EmptyString => match cur with Some c => [c] | None => [] end
  | String a r =>
      let b := N_of_ascii a in
      if (0x80 <=? b) && (b <? 0xC0)
      then utf8_go (option_map (fun c => c * 64 + (b - 0x80)) cur) r
      else
        let lead := if b <? 0x80 then b
                    else if b <? 0xE0 then b - 0xC0
                    else if b <? 0xF0 then b - 0xE0
                    else b - 0xF0 in
        match cur with
        | Some c => c :: utf8_go (Some lead) r
        | None => utf8_go (Some lead) r
        end
  end.

Definition u (s : string) : pystr := utf8_go None s.
Arguments u : simpl never.

(** [str.isspace] on one character (CPython's [Py_UNICODE_ISSPACE]); the
    same set is the class [\s] of [re] on [str] patterns. *)
Definition is_space (c : N) : bool :=
  ((0x09 <=? c) && (c <=? 0x0D)) || ((0x1C <=? c) && (c <=? 0x20))
  || (c =? 0x85) || (c =? 0xA0) || (c =? 0x1680)
  || ((0x2000 <=? c) && (c <=? 0x200A))
  || (c =? 0x2028) || (c =? 0x2029) || (c =? 0x202F) || (c =? 0x205F)
  || (c =? 0x3000).

(** First code points of the ten-digit runs of the Unicode category Nd
    (the class [\d] of [re] on [str] patterns, and the digits [int]
    accepts), as in the Unicode 15 database. *)
Definition digit_runs : list N :=
  [ 0x0030; 0x0660; 0x06F0; 0x07C0; 0x0966; 0x09E6; 0x0A66; 0x0AE6; 0x0B66;
    0x0BE6; 0x0C66; 0x0CE6; 0x0D66; 0x0DE6; 0x0E50; 0x0ED0; 0x0F20; 0x1040;
    0x1090; 0x17E0; 0x1810; 0x1946; 0x19D0; 0x1A80; 0x1A90; 0x1B50; 0x1BB0;
    0x1C40; 0x1C50; 0xA620; 0xA8D0; 0xA900; 0xA9D0; 0xA9F0; 0xAA50; 0xABF0;
    0xFF10; 0x104A0; 0x10D30; 0x11066; 0x110F0; 0x11136; 0x111D0; 0x112F0;
    0x11450; 0x114D0; 0x11650; 0x116C0; 0x11730; 0x118E0; 0x11950; 0x11C50;
    0x11D50; 0x11DA0; 0x11F50; 0x16A60; 0x16AC0; 0x16B50;
    0x1D7CE; 0x1D7D8; 0x1D7E2; 0x1D7EC; 0x1D7F6;
    0x1E140; 0x1E2F0; 0x1E4F0; 0x1E950; 0x1FBF0 ].

Definition in_run (c start : N) : bool := (start <=? c) && (c <? start + 10).

Definition is_digit (c : N) : bool := existsb (in_run c) digit_runs.

(** The decimal value of a digit character. *)
Definition digit_value (c : N) : Z :=
  match List.find (in_run c) digit_runs with
  | Some start => Z.of_N (c - start)
  | None => 0%Z
  end.

(** The default limit of CPython (3.11 and later) on the number of digits
    of a string that [int] converts: [sys.get_int_max_str_digits()]. *)
Definition INT_MAX_STR_DIGITS : nat := 4300.

(** [int(s)] for a string of decimal digits; [None] stands for the
    [ValueError] that [int] raises when the string has more digits than
    the limit. *)
Definition py_int (s : pystr) : option Z :=
  if (INT_MAX_STR_DIGITS <? length s)%nat then None
  else Some (fold_left (fun acc c => (10 * acc + digit_value c)%Z) s 0%Z).

(** [s.lstrip()], [s.rstrip()] and [s.strip()]. *)
Fixpoint lstrip (s : pystr) : pystr :=
  match s with
  | c :: s' => if is_space c then lstrip s' else s
  | [] => []
  end.

Definition rstrip (s : pystr) : pystr := rev (lstrip (rev s)).

Definition strip (s : pystr) : pystr := lstrip (rstrip s).

(** [s.startswith(p)]. *)
Fixpoint startswith (p s : pystr) : bool :=
  match p, s with
  | [], _ => true
  | a :: p', b :: s' => (a =? b) && startswith p' s'
  | _ :: _, [] => false
  end.

(** [sub in s]. *)
Fixpoint contains (sub s : pystr) : bool :=
  startswith sub s ||
  match s with
  | [] => false
  | _ :: s' => contains sub s'
  end.

(** [s.replace(old, new, 1)]: only the first occurrence is replaced. *)
Fixpoint replace1 (old new s : pystr) : pystr :=
  if startswith old s then new ++ skipn (length old) s
  else match s with
       | [] => []
       | c :: s' => c :: replace1 old new s'
       end.

(** [s.split(sep)] for a one-character separator. *)
Fixpoint split (sep : N) (s : pystr) : list pystr :=
  match s with
  | [] => [[]]
  | c :: s' =>
      if c =? sep then [] :: split sep s'
      else match split sep s' with
           | p :: ps => (c :: p) :: ps
           | [] => [[c]]
           end
  end.

(** [s.split(sep, 1)]: at most one cut, at the first separator. *)
Fixpoint split1 (sep : N) (s : pystr) : list pystr :=
  match s with
  | [] => [[]]
  | c :: s' =>
      if c =? sep then [[]; s']
      else match split1 sep s' with
           | p :: ps => (c :: p) :: ps
           | [] => [[c]]
           end
  end.

(** [sep.join(parts)]. *)
Fixpoint join (sep : pystr) (parts : list pystr) : pystr :=
  match parts with
  | [] => []
  | [p] => p
  | p :: ps => p ++ sep ++ join sep ps
  end.

(** [any(wt in text for wt in watermark_texts)]. *)
Definition any_in (wts : list pystr) (text : pystr) : bool :=
  existsb (fun wt => contains wt text) wts.

(** Truthiness of a string: [if s:]. *)
Definition truthy (s : pystr) : bool :=
  match s with [] => false | _ :: _ => true end.

Definition NL : N := 10.

End PyStr.
Import PyStr.

(* ===================================================================== *)
(** ** The regular expressions of the scripts *)
(* ===================================================================== *)

Module Re.

(** The patterns of the scripts are sequences of: the anchor [^], a literal
    character, a greedy [*] or [+] over a one-character class, and the
    parentheses of a capture group (never nested, never repeated). *)
Inductive atom :=
| Bol
| Lit (c : N)
| Star (p : N -> bool)
| Plus (p : N -> bool)
| Open
| Close.

(** The result of a match: the group boundaries in the order the
    parentheses were crossed, and the position where the match ends. *)
Definition mresult := (list nat * nat)%type.

(** Greedy repetition with backtracking: take one more character of the
    class when the rest of the pattern [k] still matches after it. *)
Fixpoint star (p : N -> bool) (k : pystr -> nat -> list nat -> option mresult)
         (s : pystr) (pos : nat) (caps : list nat) : option mresult :=
  match s with
  | c :: s' =>
      if p c then
        match star p k s' (S pos) caps with
        | Some r => Some r
        | None => k s pos caps
        end
      else k s pos caps
  | [] => k s pos caps
  end.

(** [m pat s pos caps]: match [pat] against [s], the suffix of the subject
    that starts at position [pos]. *)
Fixpoint m (pat : list atom) (s : pystr) (pos : nat) (caps : list nat)
  {struct pat} : option mresult :=
  match pat with
  | [] => Some (caps, pos)
  | Bol :: pat' => if Nat.eqb pos 0 then m pat' s pos caps else None
  | Lit c :: pat' =>
      match s with
      | x :: s' => if x =? c then m pat' s' (S pos) caps else None
      | [] => None
      end
  | Star p :: pat' => star p (m pat') s pos caps
  | Plus p :: pat' =>
      match s with
      | x :: s' => if p x then star p (m pat') s' (S pos) caps else None
      | [] => None
      end
  | Open :: pat' => m pat' s pos (caps ++ [pos])
  | Close :: pat' => m pat' s pos (caps ++ [pos])
  end.

(** [re.match(pat, s)]. *)
Definition re_match (pat : list atom) (s : pystr) : option mresult :=
  m pat s 0%nat [].

(** [re.search(pat, s)]: the leftmost start position that matches. *)
Fixpoint search_from (pat : list atom) (s : pystr) (pos : nat) : option mresult :=
  match m pat s pos [] with
  | Some r => Some r
  | None =>
      match s with
      | [] => None
      | _ :: s' => search_from pat s' (S pos)
      end
  end.

Definition re_search (pat : list atom) (s : pystr) : option mresult :=
  search_from pat s 0%nat.

(** [match.group(k)] for [k >= 1] on the subject [s]. *)
Definition group (s : pystr) (r : mresult) (k : nat) : pystr :=
  let b := nth (2 * k - 2) (fst r) 0%nat in
  let e := nth (2 * k - 1) (fst r) 0%nat in
  firstn (e - b) (skipn b s).

(** [re.sub(pat, '', s)]: every non-overlapping match, found from left to
    right, is deleted.  [skip] counts the characters of the current match
    still to be dropped; an empty match deletes nothing. *)
Fixpoint sub_go (pat : list atom) (s : pystr) (pos skip : nat) {struct s} : pystr :=
  match s with
  | [] => []
  | c :: s' =>
      match skip with
      | S k => sub_go pat s' (S pos) k
      | O =>
          match m pat s pos [] with
          | Some (_, e) =>
              if Nat.ltb pos e then sub_go pat s' (S pos) (e - pos - 1)
              else c :: sub_go pat s' (S pos) 0
          | None => c :: sub_go pat s' (S pos) 0
          end
      end
  end.

Definition re_sub_empty (pat : list atom) (s : pystr) : pystr :=
  sub_go pat s 0 0.

(** The class [.]: any character but the newline. *)
Definition dot (c : N) : bool := negb (c =? NL).

(** Listening: anchor, digits, the character 番. *)
Definition question_start_re : list atom := [Bol; Plus is_digit; Lit 0x756A].
(** The mondai header: 問題 and a group of digits. *)
Definition mondai_re : list atom := [Lit 0x554F; Lit 0x984C; Open; Plus is_digit; Close].
(** A new numbered sentence: anchor, a group of digits, a full stop. *)
Definition new_question_re : list atom := [Bol; Open; Plus is_digit; Close; Lit 46].
(** The same without the group. *)
Definition numbered_re : list atom := [Bol; Plus is_digit; Lit 46].
(** The ordinal prefix: anchor, digits, a full stop, any white space. *)
Definition ordinal_re : list atom := [Bol; Plus is_digit; Lit 46; Star is_space].
(** Kanji/kana: a group of digits, a full stop, a group of any characters,
    an opening bracket 「, a group of any characters, a closing bracket 」. *)
Definition kanji_re : list atom :=
  [Open; Plus is_digit; Close; Lit 46; Open; Star dot; Close; Lit 0x300C;
   Open; Star dot; Close; Lit 0x300D].

End Re.
Import Re.

(* ===================================================================== *)
(** ** Page geometry: underlines and marked spans *)
(* ===================================================================== *)

Module Geometry.

Local Open Scope float_scope.

(** [fitz.Point] and [fitz.Rect]: plain coordinate holders ([Rect] is not
    normalised on construction). *)
Record Point := mkPoint { px : float; py : float }.
Record Rect := mkRect { x0 : float; y0 : float; x1 : float; y1 : float }.

(** [fitz.Rect(p1, p2)]. *)
Definition Rect_of_points (p1 p2 : Point) : Rect :=
  mkRect (px p1) (py p1) (px p2) (py p2).

(** Python's [max(0, v)]: [v] when [v > 0], else [0]. *)
Definition max0 (v : float) : float := if 0 <? v then v else 0.

(** The properties [Rect.width] and [Rect.height] of PyMuPDF. *)
Definition width (r : Rect) : float := max0 (x1 r - x0 r).
Definition height (r : Rect) : float := max0 (y1 r - y0 r).

(** One item of a drawing path, tagged by [item[0]]: a line, a rectangle,
    a quad or a curve. *)
Inductive Item :=
| ItemL (p1 p2 : Point)
| ItemRe (rect : Rect)
| ItemQu (ul ur ll lr : Point)
| ItemC (p1 p2 p3 p4 : Point).

(** A drawing path: its [items]. *)
Definition Path := list Item.

(** A text span: [text], [bbox] and the font [flags]. *)
Record Span := mkSpan { text : pystr; bbox : Rect; flags : Z }.

(** The contribution of one item to the underline list. *)
Definition item_underline (item : Item) : list Rect :=
  match item with
  | ItemL p1 p2 =>
      if abs (py p1 - py p2) <=? 2 then [Rect_of_points p1 p2] else []
  | ItemRe rect =>
      if (height rect <=? 2) && (0 <? width rect) then [rect] else []
  | _ => []
  end.

(** [get_underlines(page)], on the page's drawings. *)
Definition get_underlines (drawings : list Path) : list Rect :=
  flat_map (fun path => flat_map item_underline path) drawings.

(** The test of the loop body of [is_span_marked] for one underline. *)
Definition underline_hits (span_mid_x span_baseline_y : float) (r : Rect) : bool :=
  ((x0 r <=? span_mid_x) && (span_mid_x <=? x1 r))
  && ((0 <=? y0 r - span_baseline_y) && (y0 r - span_baseline_y <? 4)).

(** [is_span_marked(span, underlines)]. *)
Definition is_span_marked (span : Span) (underlines : list Rect) : bool :=
  let span_rect := bbox span in
  if negb (Z.eqb (Z.land (flags span) 16) 0) then true
  else
    let span_mid_x := (x0 span_rect + x1 span_rect) / 2 in
    let span_baseline_y := y1 span_rect in
    existsb (underline_hits span_mid_x span_baseline_y) underlines.

End Geometry.
Import Geometry.

(* ===================================================================== *)
(** ** Question records *)
(* ===================================================================== *)

(** One emitted record.  A key the script leaves out of the dictionary is
    written by the CSV writer as the empty string, and is the empty string
    here. *)
Record Question := mkQuestion {
  type : pystr;
  number : pystr;
  dialogue : pystr;
  question : pystr;
  choices : pystr;
  answer : pystr;
  source_page : Z
}.

(** The placeholder token. *)
Definition PLACEHOLDER : pystr := u " (______) ".

(** A line of the text dictionary: its [spans]. *)
Definition Line := list Span.

(** The inner loop shared by the extractors: every span's text goes to
    [full_sentence], a marked span's text also to [answer_text]. *)
Fixpoint scan_spans (underlines : list Rect) (spans : Line)
         (full_sentence answer_text : pystr) : pystr * pystr :=
  match spans with
  | [] => (full_sentence, answer_text)
  | span :: rest =>
      let full_sentence := full_sentence ++ text span in
      let answer_text :=
        if is_span_marked span underlines then answer_text ++ text span
        else answer_text in
      scan_spans underlines rest full_sentence answer_text
  end.

(** The outer loop over the accumulated lines of a question: a newline
    closes every line. *)
Fixpoint scan_lines (underlines : list Rect) (lines : list Line)
         (full_sentence answer_text : pystr) : pystr * pystr :=
  match lines with
  | [] => (full_sentence, answer_text)
  | line_spans :: rest =>
      let '(full_sentence, answer_text) :=
        scan_spans underlines line_spans full_sentence answer_text in
      scan_lines underlines rest (full_sentence ++ [NL]) answer_text
  end.

(** [''.join([span['text'] for span in line['spans']])]. *)
Definition joined_text (line : Line) : pystr := concat (map text line).

(** A block of the text dictionary: a text block has [lines], an image
    block has not. *)
Inductive Block :=
| TextBlock (lines : list Line)
| ImageBlock.

(** What the scripts read of a page of the answer-key document. *)
Record Page := mkPage { drawings : list Path; blocks : list Block }.

(** The exceptions the scan can raise. *)
Inductive exn := IndexError | NameError | AttributeError | TypeError | ValueError.

(* ===================================================================== *)
(** ** JLPT-pdf-csv.py *)
(* ===================================================================== *)

Module Csv.

(** *** extract_listening_questions *)

(** The open question: the dictionary with [number] and [source_page]
    ([type] is the constant Listening). *)
Record LData := mkLData { l_number : pystr; l_source_page : Z }.

Record LState := mkLState {
  current_question_data : option LData;
  full_dialogue : pystr;
  l_questions : list Question
}.

(** The flush of an open question: the dialogue / question split. *)
Definition flush_listening (d : LData) (full_dialogue : pystr) : Question :=
  let dialogue_parts := split NL (strip full_dialogue) in
  if (1 <? length dialogue_parts)%nat
  then mkQuestion (u "Listening") (l_number d)
         (join [NL] (removelast dialogue_parts))
         (List.last dialogue_parts []) [] [] (l_source_page d)
  else mkQuestion (u "Listening") (l_number d) []
         (strip full_dialogue) [] [] (l_source_page d).

(** One block [b]; [raw] is [b[4]]. *)
Definition listening_block (watermark_texts : list pystr) (page_num : Z)
           (st : LState) (raw : pystr) : LState :=
  let block_text := strip raw in
  if any_in watermark_texts block_text then st
  else if bool_decide (is_Some (re_match question_start_re block_text)) then
    let questions :=
      match current_question_data st with
      | Some d => l_questions st ++ [flush_listening d (full_dialogue st)]
      | None => l_questions st
      end in
    mkLState
      (Some (mkLData (hd [] (split NL block_text)) (page_num + 1)))
      (List.last (split1 NL block_text) [] ++ [NL])
      questions
  else
    match current_question_data st with
    | Some _ => mkLState (current_question_data st)
                  (full_dialogue st ++ block_text ++ [NL]) (l_questions st)
    | None => st
    end.

(** The loop over the pages, [page_num] counting from zero. *)
Fixpoint listening_pages (watermark_texts : list pystr) (page_num : Z)
         (doc : list (list pystr)) (st : LState) : LState :=
  match doc with
  | [] => st
  | blocks :: rest =>
      listening_pages watermark_texts (page_num + 1) rest
        (fold_left (listening_block watermark_texts page_num) blocks st)
  end.

(** [extract_listening_questions(pdf_path, watermark_texts)] on the
    document's pages, each the list of its blocks' texts. *)
Definition extract_listening_questions (doc : list (list pystr))
           (watermark_texts : list pystr) : list Question :=
  let st := listening_pages watermark_texts 0 doc (mkLState None [] []) in
  match current_question_data st with
  | Some d => l_questions st ++ [flush_listening d (full_dialogue st)]
  | None => l_questions st
  end.

(** *** extract_grammar_vocab_questions *)

Inductive Section_ := vocab | grammar.

(** The grammar accumulator [current_grammar_q_data]. *)
Record GData := mkGData { g_number : pystr; g_spans : list Line; g_page : Z }.

(** The ordinal strip followed by [strip()]. *)
Definition strip_ordinal (s : pystr) : pystr :=
  strip (re_sub_empty ordinal_re s).

(** [process_and_save_grammar_question(data, page_underlines)]: the records
    it appends to [questions]. *)
Definition process_and_save_grammar_question (data : option GData)
           (page_underlines : list Rect) : list Question :=
  match data with
  | None => []
  | Some data =>
      let '(full_sentence, answer_text) :=
        scan_lines page_underlines (g_spans data) [] [] in
      let full_sentence := strip full_sentence in
      let answer_text := strip answer_text in
      let question_text :=
        if truthy answer_text
        then replace1 answer_text PLACEHOLDER full_sentence
        else full_sentence in
      let question_text := strip_ordinal question_text in
      [mkQuestion (u "Grammar/Reading") (g_number data) [] question_text []
         answer_text (g_page data)]
  end.

(** The scan state: the local variables of the function. *)
Record State := mkState {
  section : Section_;
  current_mondai : Z;
  current_grammar_q_data : option GData;
  questions : list Question;
  underlines : option (list Rect)
}.

(** A step either goes on with a new state or raises, leaving the state
    as it was when the exception was raised. *)
Inductive result :=
| Next (st : State)
| Raised (e : exn) (st : State).

Definition bind (r : result) (f : State -> result) : result :=
  match r with
  | Next st => f st
  | Raised e st => Raised e st
  end.

(** A loop whose body may raise. *)
Fixpoint for_each {A : Type} (body : State -> A -> result) (l : list A)
         (st : State) : result :=
  match l with
  | [] => Next st
  | a :: rest => bind (body st a) (for_each body rest)
  end.

(** Flush the accumulator into [questions] and clear it. *)
Definition flush (uls : list Rect) (st : State) : State :=
  mkState (section st) (current_mondai st) None
    (questions st ++ process_and_save_grammar_question (current_grammar_q_data st) uls)
    (underlines st).

(** Vocabulary mondai 3: fill in the blank. *)
Definition fill_in_the_blank (uls : list Rect) (page_num : Z) (line : Line)
           (line_text : pystr) : Question :=
  let '(full_sentence, answer_text) := scan_spans uls line [] [] in
  let answer_text := strip answer_text in
  let question_text :=
    if truthy answer_text
    then replace1 answer_text PLACEHOLDER full_sentence
    else full_sentence in
  let question_text := strip_ordinal question_text in
  mkQuestion (u "Fill-in-the-Blank") (hd [] (split 46 line_text)) []
    question_text [] answer_text (page_num + 1).

(** Vocabulary mondai 1 and 2: kanji / kana. *)
Definition kanji_kana (page_num : Z) (line_text : pystr) : list Question :=
  match re_search kanji_re line_text with
  | Some r =>
      [mkQuestion (u "Vocabulary (Kanji/Kana)") (group line_text r 1) []
         (strip (group line_text r 2)) [] (strip (group line_text r 3))
         (page_num + 1)]
  | None => []
  end.

(** Vocabulary mondai 4: synonym.  [parts[0].split('.', 1)[1]] raises
    when the left side has no full stop. *)
Definition synonym (page_num : Z) (line_text : pystr) : exn + list Question :=
  let parts := split1 61 line_text in
  if (length parts =? 2)%nat then
    let number := strip (hd [] (split 46 (hd [] parts))) in
    match nth_error (split1 46 (hd [] parts)) 1 with
    | None => inl IndexError
    | Some prompt =>
        inr [mkQuestion (u "Synonym") number [] (strip prompt) []
               (strip (nth 1 parts [])) (page_num + 1)]
    end
  else inr [].

(** Vocabulary mondai 5: sentence construction. *)
Definition sentence_construction (page_num : Z) (line_text : pystr) : list Question :=
  let parts := split1 0x21D2 line_text in
  if (length parts =? 2)%nat then
    [mkQuestion (u "Sentence Construction") (strip (hd [] parts)) []
       (strip (hd [] parts)) [] (strip (nth 1 parts [])) (page_num + 1)]
  else [].

Definition emit (st : State) (qs : list Question) : State :=
  mkState (section st) (current_mondai st) (current_grammar_q_data st)
    (questions st ++ qs) (underlines st).

(** The body of the loop over the lines of a block. *)
Definition scan_line (watermark_texts : list pystr) (uls : list Rect)
           (page_num : Z) (st : State) (line : Line) : result :=
  let line_text := strip (joined_text line) in
  if any_in watermark_texts line_text then Next st
  else if contains (u "もじ・ごい") line_text then
    let st := flush uls st in
    Next (mkState vocab (current_mondai st) None (questions st) (underlines st))
  else if contains (u "ぶんぽう・どっかい") line_text then
    Next (mkState grammar (current_mondai st) (current_grammar_q_data st)
            (questions st) (underlines st))
  else
    match re_match mondai_re line_text with
    | Some mondai_match =>
        match py_int (group line_text mondai_match 1) with
        | None => Raised ValueError st
        | Some n =>
            let st := flush uls st in
            Next (mkState (section st) n None (questions st) (underlines st))
        end
    | None =>
        if (current_mondai st =? 0)%Z || negb (truthy line_text) then Next st
        else
          match section st with
          | grammar =>
              match re_match new_question_re line_text with
              | Some is_new_question =>
                  let st := flush uls st in
                  Next (mkState (section st) (current_mondai st)
                          (Some (mkGData (group line_text is_new_question 1)
                                   [line] (page_num + 1)))
                          (questions st) (underlines st))
              | None =>
                  match current_grammar_q_data st with
                  | Some d =>
                      Next (mkState (section st) (current_mondai st)
                              (Some (mkGData (g_number d) (g_spans d ++ [line]) (g_page d)))
                              (questions st) (underlines st))
                  | None => Next st
                  end
              end
          | vocab =>
              if (current_mondai st =? 3)%Z
                 && bool_decide (is_Some (re_match numbered_re line_text))
              then Next (emit st [fill_in_the_blank uls page_num line line_text])
              else if ((current_mondai st =? 1)%Z || (current_mondai st =? 2)%Z)
                      && contains [0x300C] line_text
              then Next (emit st (kanji_kana page_num line_text))
              else if (current_mondai st =? 4)%Z && contains [61] line_text
              then match synonym page_num line_text with
                   | inl e => Raised e st
                   | inr qs => Next (emit st qs)
                   end
              else if (current_mondai st =? 5)%Z && contains [0x21D2] line_text
              then Next (emit st (sentence_construction page_num line_text))
              else Next st
          end
    end.

(** The body of the loop over the blocks of a page. *)
Definition scan_block (watermark_texts : list pystr) (uls : list Rect)
           (page_num : Z) (st : State) (block : Block) : result :=
  match block with
  | ImageBlock => Next st
  | TextBlock lines => for_each (scan_line watermark_texts uls page_num) lines st
  end.

(** The loop over the pages: the underlines are recomputed per page and
    stay bound to the last page's after the loop. *)
Fixpoint scan_pages (watermark_texts : list pystr) (page_num : Z)
         (doc : list Page) (st : State) : result :=
  match doc with
  | [] => Next st
  | page :: rest =>
      let uls := get_underlines (drawings page) in
      let st := mkState (section st) (current_mondai st)
                  (current_grammar_q_data st) (questions st) (Some uls) in
      bind (for_each (scan_block watermark_texts uls page_num) (blocks page) st)
           (scan_pages watermark_texts (page_num + 1) rest)
  end.

(** The body of the [try]: the scan and the final flush.  On a document
    without pages [underlines] is unbound at the final flush. *)
Definition scan_document (doc : list Page) (watermark_texts : list pystr) : result :=
  bind (scan_pages watermark_texts 0 doc (mkState vocab 0 None [] None))
       (fun st =>
          match underlines st with
          | Some uls => Next (flush uls st)
          | None => Raised NameError st
          end).

(** [extract_grammar_vocab_questions(pdf_path, watermark_texts)]: the
    [except] clause reports the exception and the function returns the
    records appended so far. *)
Definition extract_grammar_vocab_questions (doc : list Page)
           (watermark_texts : list pystr) : list Question :=
  match scan_document doc watermark_texts with
  | Next st => questions st
  | Raised _ st => questions st
  end.

End Csv.

(* ===================================================================== *)
(** ** JLPT-pdf-csv-grammar.py *)
(* ===================================================================== *)

Module Grammar.

(** *** Stage 1: process_and_save_question *)

(** The accumulator [current_question_data]. *)
Record QData := mkQData {
  q_type : pystr; q_number : pystr; q_spans : list Line; q_page : Z
}.

(** [process_and_save_question(data, page_underlines)]: the records it
    appends to [questions].  The question keeps the answer in place; the
    placeholder is substituted by stage 2. *)
Definition process_and_save_question (data : option QData)
           (page_underlines : list Rect) : list Question :=
  match data with
  | None => []
  | Some data =>
      let '(full_sentence, answer_text) :=
        scan_lines page_underlines (q_spans data) [] [] in
      let full_sentence := strip full_sentence in
      let answer_text := strip answer_text in
      let question_text := strip (re_sub_empty ordinal_re full_sentence) in
      [mkQuestion (q_type data) (q_number data) [] question_text []
         answer_text (q_page data)]
  end.

(** *** Stage 2: refine_with_manual_answers *)

(** A row as [csv.DictReader] yields it: under every column name a string,
    or [None] (the reader's [restval]) where the line was too short; the
    cells in excess of the header, if any, under the key [None] (the
    reader's [restkey]). *)
Record Row := mkRow {
  cols : gmap (list N) (option pystr);
  rest : option (list pystr)
}.

Definition QUESTION : pystr := u "question".
Definition ANSWER : pystr := u "answer".

(** [row.get(key, '')]. *)
Definition get (row : Row) (key : pystr) : option pystr :=
  match cols row !! key with
  | Some v => v
  | None => Some []
  end.

(** The body of the loop up to the write: the row, with its question
    reformatted where the answer is found in it. *)
Definition refine_row (row : Row) : exn + Row :=
  let question := get row QUESTION in
  match get row ANSWER with
  | None => inl AttributeError
  | Some answer =>
      let answer := strip answer in
      if truthy answer then
        match question with
        | None => inl TypeError
        | Some question =>
            if contains answer question
            then inr (mkRow (<[QUESTION := Some (replace1 answer PLACEHOLDER question)]> (cols row))
                        (rest row))
            else inr row
        end
      else inr row
  end.

(** [writer.writerow(row)]: a key outside the field names is refused; the
    cells are written in the order of the field names, [None] and a
    missing key as the empty string. *)
Definition cell (row : Row) (key : pystr) : pystr :=
  match cols row !! key with
  | Some (Some s) => s
  | _ => []
  end.

Definition writerow (fieldnames : list pystr) (row : Row) : exn + list pystr :=
  if bool_decide (rest row = None)
     && bool_decide (map_Forall (fun k _ => k ∈ fieldnames) (cols row))
  then inr (map (cell row) fieldnames)
  else inl ValueError.

(** The loop over the rows: the lines written, and the exception that
    ended the loop if one was raised. *)
Fixpoint refine_rows (fieldnames : list pystr) (rows : list Row)
  : list (list pystr) * option exn :=
  match rows with
  | [] => ([], None)
  | row :: rows' =>
      match refine_row row with
      | inl e => ([], Some e)
      | inr row' =>
          match writerow fieldnames row' with
          | inl e => ([], Some e)
          | inr line =>
              let '(lines, e) := refine_rows fieldnames rows' in
              (line :: lines, e)
          end
      end
  end.

(** [refine_with_manual_answers]: from the field names and the rows of the
    manual file to the lines of the final file, the header first. *)
Definition refine_with_manual_answers (fieldnames : list pystr)
           (rows : list Row) : list (list pystr) * option exn :=
  let '(lines, e) := refine_rows fieldnames rows in
  (fieldnames :: lines, e).

End Grammar.


(* ===================================================================== *)
(** ** Small documents for the examples *)
(* ===================================================================== *)

(** A span of plain text and a span of bold text, with a fixed box. *)
Definition plain_span (t : string) : Span := mkSpan (u t) (mkRect 0 0 10 10) 0.
Definition bold_span (t : string) : Span := mkSpan (u t) (mkRect 0 0 10 10) 16.

(** A line made of one plain span. *)
Definition plain_line (t : string) : Line := [plain_span t].

(** A one-page document without drawings, one text block. *)
Definition one_block (lines : list Line) : list Page :=
  [mkPage [] [TextBlock lines]].

(* ===================================================================== *)
(** ** The vocabulary of the statements *)
(* ===================================================================== *)

Section Vocabulary.

Import Csv.
Import Grammar.
Local Open Scope float_scope.

(** The spec's reading of the detector: a primitive qualifies when it is a
    near-horizontal line or a thin bar, and then gives one rectangle. *)
Definition qualifies (item : Item) : bool :=
  match item with
  | ItemL p1 p2 => abs (py p1 - py p2) <=? 2
  | ItemRe rect => (height rect <=? 2) && (0 <? width rect)
  | _ => false
  end.

(** The rectangle a qualifying primitive gives. *)
Definition rect_of_item (item : Item) : Rect :=
  match item with
  | ItemL p1 p2 => Rect_of_points p1 p2
  | ItemRe rect => rect
  | _ => mkRect 0 0 0 0
  end.

(** The midpoint and the baseline the classifier computes. *)
Definition span_mid_x (span : Span) : float :=
  (x0 (bbox span) + x1 (bbox span)) / 2.
Definition span_baseline_y (span : Span) : float := y1 (bbox span).

(** The claim's reading of an underline rectangle: its horizontal extent
    runs from the smaller to the larger of its two x coordinates, and its
    top edge is the smaller of its two y coordinates (y grows downwards on
    a page). *)
Definition fmin (a b : float) : float := if a <=? b then a else b.
Definition fmax (a b : float) : float := if a <=? b then b else a.
Definition left_edge (r : Rect) : float := fmin (x0 r) (x1 r).
Definition right_edge (r : Rect) : float := fmax (x0 r) (x1 r).
Definition top_edge (r : Rect) : float := fmin (y0 r) (y1 r).

(** The claim's test of one underline: the extent contains the midpoint
    and the top edge is from 0 (included) to 4 (excluded) below the
    baseline. *)
Definition extent_hits (mid_x baseline_y : float) (r : Rect) : bool :=
  ((left_edge r <=? mid_x) && (mid_x <=? right_edge r))
  && ((0 <=? top_edge r - baseline_y) && (top_edge r - baseline_y <? 4)).

(** A rectangle whose first corner is its top-left one. *)
Definition normalised (r : Rect) : Prop :=
  (x0 r <=? x1 r) = true /\ (y0 r <=? y1 r) = true.

(** [pre] is where the first occurrence of [old] in [s] starts. *)
Definition first_occurrence (old s pre post : pystr) : Prop :=
  s = pre ++ old ++ post /\
  forall pre' post', s = pre' ++ old ++ post' -> (length pre <= length pre')%nat.

(** A string of white space only. *)
Definition all_space (s : pystr) : Prop := Forall (fun c => is_space c = true) s.

(** A string that ends with a character that is not white space. *)
Definition ends_solid (s : pystr) : Prop :=
  exists r c, s = r ++ [c] /\ is_space c = false.

(** A string with a character that is not white space. *)
Definition has_solid (s : pystr) : Prop := exists c, In c s /\ is_space c = false.

(** The length of the longest prefix of [s] made of characters of the
    class. *)
Fixpoint run_length (cls : N -> bool) (s : pystr) : nat :=
  match s with
  | c :: s' => if cls c then S (run_length cls s') else 0
  | [] => 0
  end.

(** The invariant of the grammar / vocabulary scan: [P] holds of every
    record emitted so far, [D] of the number of the open accumulator. *)
Definition scan_inv_of (P : Question -> Prop) (D : pystr -> Prop) (st : State) : Prop :=
  Forall P (questions st)
  /\ forall d, current_grammar_q_data st = Some d -> D (g_number d).

Definition result_inv_of (P : Question -> Prop) (D : pystr -> Prop) (r : result) : Prop :=
  match r with
  | Next st => scan_inv_of P D st
  | Raised _ st => scan_inv_of P D st
  end.

(** The three fields the listening records never leave empty. *)
Definition listening_fields (q : Question) : Prop :=
  type q <> [] /\ number q <> [] /\ question q <> [].

(** The invariant of the listening scan: an open question has a number
    and its accumulated text is not blank. *)
Definition listening_inv (st : LState) : Prop :=
  Forall listening_fields (l_questions st)
  /\ forall d, current_question_data st = Some d ->
               l_number d <> [] /\ has_solid (full_dialogue st).

(** The fields the grammar / vocabulary records never leave empty. *)
Definition vocab_fields (q : Question) : Prop :=
  type q <> []
  /\ (type q <> u "Synonym" -> type q <> u "Sentence Construction" -> number q <> []).

(** The answer the pass looks for, and the question it writes. *)
Definition stripped_answer (row : Row) : pystr := strip (cell row ANSWER).

Definition refined_question (row : Row) : pystr :=
  if truthy (stripped_answer row) && contains (stripped_answer row) (cell row QUESTION)
  then replace1 (stripped_answer row) PLACEHOLDER (cell row QUESTION)
  else cell row QUESTION.

(** A row of a rectangular file: a string under every key, every key a
    field name, nothing in excess. *)
Definition well_formed (fieldnames : list pystr) (row : Row) : Prop :=
  rest row = None
  /\ forall k v, cols row !! k = Some v -> k ∈ fieldnames /\ v <> None.

(** Two rows for the examples: the answer occurs twice in the question;
    the answer is padded with blanks. *)
Definition row_twice : Row :=
  mkRow (<[QUESTION := Some (u "aa")]> (<[ANSWER := Some (u "a")]> ∅)) None.
Definition row_padded : Row :=
  mkRow (<[QUESTION := Some (u "a")]> (<[ANSWER := Some (u " a ")]> ∅)) None.

(** The text of the accumulated lines, a newline after each, and the text
    of their marked spans. *)
Definition full_text (lines : list Line) : pystr :=
  concat (map (fun line => joined_text line ++ [NL]) lines).

Definition marked_text (underlines : list Rect) (lines : list Line) : pystr :=
  concat (map text
            (List.filter (fun span => is_span_marked span underlines) (concat lines))).

(** The accumulator of the example: the sentence in three spans, the
    middle one bold. *)
Definition gakusei_spans : list Line :=
  [[plain_span "1.わたし　は　"; bold_span "がくせい"; plain_span "　です。"]].

End Vocabulary.

(* ===================================================================== *)
(** ** Further vocabulary: the listening scan *)
(* ===================================================================== *)

Section ListeningVocabulary.

Import Csv.

(** A block the watermark list suppresses. *)
Definition block_skipped (wts : list pystr) (raw : pystr) : bool :=
  any_in wts (strip raw).

(** A block that opens a question: not suppressed, and its stripped text
    starts with digits and 番. *)
Definition block_starts (wts : list pystr) (raw : pystr) : bool :=
  negb (any_in wts (strip raw))
  && bool_decide (is_Some (re_match question_start_re (strip raw))).

(** The questions seen so far: the flushed ones and the open one. *)
Definition seen (st : LState) : nat :=
  (length (l_questions st)
   + match current_question_data st with Some _ => 1 | None => 0 end)%nat.

(** What every listening record looks like, on a document of [n] pages. *)
Definition listening_shape (n : Z) (q : Question) : Prop :=
  type q = u "Listening" /\ choices q = [] /\ answer q = []
  /\ ~ In NL (question q)
  /\ (1 <= source_page q <= n)%Z.

(** The invariant behind [listening_shape]. *)
Definition listening_shape_inv (n : Z) (st : LState) : Prop :=
  Forall (listening_shape n) (l_questions st)
  /\ forall d, current_question_data st = Some d ->
               (1 <= l_source_page d <= n)%Z.

End ListeningVocabulary.

(* ===================================================================== *)
(** ** Further vocabulary: the grammar / vocabulary scan *)
(* ===================================================================== *)

Section ScanVocabulary.

Import Csv.

(** The lines of a block, and the lines of a document in reading order. *)
Definition block_lines (block : Block) : list Line :=
  match block with
  | TextBlock lines => lines
  | ImageBlock => []
  end.

Definition doc_lines (doc : list Page) : list Line :=
  concat (map (fun page => concat (map block_lines (blocks page))) doc).

(** The stripped text of a line, as the scan reads it. *)
Definition stripped_text (line : Line) : pystr := strip (joined_text line).

(** A line the watermark list suppresses. *)
Definition line_skipped (wts : list pystr) (line : Line) : bool :=
  any_in wts (stripped_text line).

(** The document without its suppressed lines. *)
Definition drop_skipped_block (wts : list pystr) (block : Block) : Block :=
  match block with
  | TextBlock lines =>
      TextBlock (List.filter (fun line => negb (line_skipped wts line)) lines)
  | ImageBlock => ImageBlock
  end.

Definition drop_skipped (wts : list pystr) (doc : list Page) : list Page :=
  map (fun page => mkPage (drawings page) (map (drop_skipped_block wts) (blocks page)))
      doc.

(** A line that is no mondai header. *)
Definition no_header (line : Line) : Prop :=
  re_match mondai_re (stripped_text line) = None.

(** A line on which the synonym branch cannot fail: if it has an equals
    sign, the text before the first one has a full stop. *)
Definition stop_before_equals (line : Line) : Prop :=
  forall left right,
    stripped_text line = left ++ 61 :: right -> ~ In 61 left -> In 46 left.

(** A line that continues the open grammar question: not suppressed, no
    section marker, no mondai header, not empty, not a numbered line. *)
Definition continuation (wts : list pystr) (line : Line) : Prop :=
  any_in wts (stripped_text line) = false
  /\ contains (u "もじ・ごい") (stripped_text line) = false
  /\ contains (u "ぶんぽう・どっかい") (stripped_text line) = false
  /\ re_match mondai_re (stripped_text line) = None
  /\ stripped_text line <> []
  /\ re_match new_question_re (stripped_text line) = None.

(** A string of one or more digits. *)
Definition digit_string (s : pystr) : Prop :=
  s <> [] /\ Forall (fun c => is_digit c = true) s.

(** What every grammar / vocabulary record looks like. *)
Definition vocab_shape (q : Question) : Prop :=
  dialogue q = [] /\ choices q = []
  /\ ((type q = u "Grammar/Reading" /\ digit_string (number q))
      \/ (type q = u "Fill-in-the-Blank" /\ digit_string (number q))
      \/ (type q = u "Vocabulary (Kanji/Kana)" /\ digit_string (number q))
      \/ type q = u "Synonym"
      \/ type q = u "Sentence Construction").

(** A line whose mondai number, if it is a mondai header, [int] converts:
    the digits are not more than the limit. *)
Definition short_header (line : Line) : Prop :=
  forall r, re_match mondai_re (stripped_text line) = Some r ->
            (length (group (stripped_text line) r 1) <= INT_MAX_STR_DIGITS)%nat.

(** What makes the body of the loop raise [e] on a line: the synonym
    branch on a line with an equals sign and no full stop before it, or
    the conversion of a mondai number that is too long. *)
Definition raises_on (line : Line) (e : exn) : Prop :=
  (e = IndexError /\ ~ stop_before_equals line)
  \/ (e = ValueError /\ ~ short_header line).

(** The results of a scan that goes on with the underlines bound. *)
Definition underlines_bound (r : result) : Prop :=
  match r with
  | Next st => is_Some (underlines st)
  | Raised _ _ => True
  end.

(** Nothing emitted, nothing open. *)
Definition nothing_yet (st : State) : Prop :=
  questions st = [] /\ current_grammar_q_data st = None.

End ScanVocabulary.

(* ===================================================================== *)
(** ** JLPT-pdf-csv-grammar.py: the scan of stage 1 *)
(* ===================================================================== *)

Module Stage1.

(** The scan state of [extract_grammar_vocab_questions] in the two-stage
    script: the local variables of the function. *)
Record State := mkState {
  section : Csv.Section_;
  current_mondai : Z;
  current_question_data : option Grammar.QData;
  questions : list Question;
  underlines : option (list Rect)
}.

(** The result of a step of the scan: the next state, or the exception
    raised and the state at that point. *)
Inductive result :=
| Next (st : State)
| Raised (e : exn) (st : State).

Definition bind (r : result) (f : State -> result) : result :=
  match r with
  | Next st => f st
  | Raised e st => Raised e st
  end.

(** A loop whose body may raise. *)
Fixpoint for_each {A : Type} (body : State -> A -> result) (l : list A)
         (st : State) : result :=
  match l with
  | [] => Next st
  | a :: rest => bind (body st a) (for_each body rest)
  end.

(** Flush the accumulator into [questions] and clear it. *)
Definition flush (uls : list Rect) (st : State) : State :=
  mkState (section st) (current_mondai st) None
    (questions st ++ Grammar.process_and_save_question (current_question_data st) uls)
    (underlines st).

(** The type of a question opened in the given section. *)
Definition q_type_of (sec : Csv.Section_) : pystr :=
  match sec with
  | Csv.grammar => u "Grammar/Reading"
  | Csv.vocab => u "Fill-in-the-Blank"
  end.

(** The body of the loop over the lines of a block.  The conversion of
    the mondai number is the one call in it that can raise. *)
Definition scan_line (watermark_texts : list pystr) (uls : list Rect)
           (page_num : Z) (st : State) (line : Line) : result :=
  let line_text := strip (joined_text line) in
  if any_in watermark_texts line_text then Next st
  else if contains (u "もじ・ごい") line_text then
    let st := flush uls st in
    Next (mkState Csv.vocab (current_mondai st) None (questions st) (underlines st))
  else if contains (u "ぶんぽう・どっかい") line_text then
    Next (mkState Csv.grammar (current_mondai st) (current_question_data st)
            (questions st) (underlines st))
  else
    match re_match mondai_re line_text with
    | Some mondai_match =>
        match py_int (group line_text mondai_match 1) with
        | None => Raised ValueError st
        | Some n =>
            let st := flush uls st in
            Next (mkState (section st) n None (questions st) (underlines st))
        end
    | None =>
        if (current_mondai st =? 0)%Z || negb (truthy line_text) then Next st
        else
          let q_type := q_type_of (section st) in
          match re_match new_question_re line_text with
          | Some is_new_question =>
              let st := flush uls st in
              Next (mkState (section st) (current_mondai st)
                      (Some (Grammar.mkQData q_type (group line_text is_new_question 1)
                               [line] (page_num + 1)))
                      (questions st) (underlines st))
          | None =>
              match current_question_data st with
              | Some d =>
                  Next (mkState (section st) (current_mondai st)
                          (Some (Grammar.mkQData (Grammar.q_type d) (Grammar.q_number d)
                                   (Grammar.q_spans d ++ [line]) (Grammar.q_page d)))
                          (questions st) (underlines st))
              | None => Next st
              end
          end
    end.

(** The body of the loop over the blocks of a page. *)
Definition scan_block (watermark_texts : list pystr) (uls : list Rect)
           (page_num : Z) (st : State) (block : Block) : result :=
  match block with
  | ImageBlock => Next st
  | TextBlock lines => for_each (scan_line watermark_texts uls page_num) lines st
  end.

(** The loop over the pages. *)
Fixpoint scan_pages (watermark_texts : list pystr) (page_num : Z)
         (doc : list Page) (st : State) : result :=
  match doc with
  | [] => Next st
  | page :: rest =>
      let uls := get_underlines (drawings page) in
      let st := mkState (section st) (current_mondai st)
                  (current_question_data st) (questions st) (Some uls) in
      bind (for_each (scan_block watermark_texts uls page_num) (blocks page) st)
           (scan_pages watermark_texts (page_num + 1) rest)
  end.

(** The body of the [try]: the scan and the final flush.  On a document
    without pages [underlines] is unbound at the final flush. *)
Definition scan_document (doc : list Page) (watermark_texts : list pystr) : result :=
  bind (scan_pages watermark_texts 0 doc (mkState Csv.vocab 0 None [] None))
       (fun st =>
          match underlines st with
          | Some uls => Next (flush uls st)
          | None => Raised NameError st
          end).

(** [extract_grammar_vocab_questions(pdf_path, watermark_texts)] of the
    two-stage script: the [except] clause reports the exception and the
    function returns the records appended so far. *)
Definition extract_grammar_vocab_questions (doc : list Page)
           (watermark_texts : list pystr) : list Question :=
  match scan_document doc watermark_texts with
  | Next st => questions st
  | Raised _ st => questions st
  end.

End Stage1.

(* ===================================================================== *)
(** ** The tables read and written *)
(* ===================================================================== *)

Module CsvFile.

Import Grammar.

(** A table as the CSV reader and writer see it: its lines, each the list
    of its cells; a blank line has no cell. *)

(** The field names of the database, in the order both scripts write them. *)
Definition FIELDNAMES : list pystr :=
  [u "type"; u "number"; u "dialogue"; u "question"; u "choices"; u "answer";
   u "source_page"].

(** [str(z)] for an integer. *)
Definition py_str_int (z : Z) : pystr :=
  u (DecimalString.NilZero.string_of_int (Z.to_int z)).

(** The cells [writerows] writes for a record: a key the record does not
    have is written as the empty string, the page number in decimal. *)
Definition question_cells (q : Question) : list pystr :=
  [type q; number q; dialogue q; question q; choices q; answer q;
   py_str_int (source_page q)].

(** The end of both main programs: nothing is written when no question
    was extracted, else the header and one line per record. *)
Definition write_database (all_questions : list Question) : option (list (list pystr)) :=
  match all_questions with
  | [] => None
  | _ :: _ => Some (FIELDNAMES :: map question_cells all_questions)
  end.

(** The main program of JLPT-pdf-csv.py, from the two documents. *)
Definition main_csv (listening_doc : list (list pystr)) (grammar_doc : list Page)
           (watermark_texts : list pystr) : option (list (list pystr)) :=
  write_database
    (Csv.extract_listening_questions listening_doc watermark_texts
     ++ Csv.extract_grammar_vocab_questions grammar_doc watermark_texts).

(** A row of [csv.DictReader]: [dict(zip(fieldnames, row))], then the cells
    in excess under the rest key, or [None] under the field names that got
    no cell. *)
Definition dict_reader (fieldnames : list pystr) (row : list pystr) : Row :=
  let d := fold_left (fun d kv => <[fst kv := Some (snd kv)]> d)
             (combine fieldnames row) (∅ : gmap (list N) (option pystr)) in
  let lf := length fieldnames in
  let lr := length row in
  if (lf <? lr)%nat then mkRow d (Some (skipn lf row))
  else if (lr <? lf)%nat
       then mkRow (fold_left (fun d key => <[key := None]> d) (skipn lr fieldnames) d) None
       else mkRow d None.

(** A line with at least one cell; the reader skips the others. *)
Definition nonblank (row : list pystr) : bool :=
  match row with [] => false | _ :: _ => true end.

(** [refine_with_manual_answers] from the lines of the manual file to the
    lines of the final file.  The first line gives the field names; without
    one, writing the header raises and the final file stays empty. *)
Definition refine_file (lines : list (list pystr)) : list (list pystr) * option exn :=
  match lines with
  | [] => ([], Some TypeError)
  | fieldnames :: body =>
      refine_with_manual_answers fieldnames
        (map (dict_reader fieldnames) (List.filter nonblank body))
  end.

(** The cell of a line under a field name, if the line reaches it. *)
Fixpoint field (fieldnames row : list pystr) (key : pystr) : option pystr :=
  match fieldnames, row with
  | k :: ks, c :: cs => if decide (k = key) then Some c else field ks cs key
  | _, _ => None
  end.

(** A line with the cell under a field name replaced. *)
Fixpoint replace_field (fieldnames row : list pystr) (key v : pystr) : list pystr :=
  match fieldnames, row with
  | k :: ks, c :: cs => (if decide (k = key) then v else c) :: replace_field ks cs key v
  | _, _ => []
  end.

(** The refinement at the level of cells: the question with the first
    occurrence of the stripped answer replaced, when there is one. *)
Definition refine_cells (fieldnames row : list pystr) : list pystr :=
  let q := default [] (field fieldnames row QUESTION) in
  let a := strip (default [] (field fieldnames row ANSWER)) in
  if truthy a && contains a q
  then replace_field fieldnames row QUESTION (replace1 a PLACEHOLDER q)
  else row.

(** The same on a record. *)
Definition refine_question (q : Question) : Question :=
  let a := strip (answer q) in
  mkQuestion (type q) (number q) (dialogue q)
    (if truthy a && contains a (question q)
     then replace1 a PLACEHOLDER (question q) else question q)
    (choices q) (answer q) (source_page q).

End CsvFile.

(* ===================================================================== *)
(** ** JLPT-pdf-csv-llm.py: the text handling around the service *)
(* ===================================================================== *)

Module Llm.

(** The class of the dot under DOTALL: every character. *)
Definition any_char (c : N) : bool := true.

(** The fence pattern: three backquotes, an optional group json, a group
    of any characters, three backquotes.  The optional group is tried
    first, then left out, at the same start position: the two patterns
    below, in that order. *)
Definition fence_json_re : list atom :=
  [Lit 96; Lit 96; Lit 96; Open; Lit 106; Lit 115; Lit 111; Lit 110; Close;
   Open; Star any_char; Close; Lit 96; Lit 96; Lit 96].
Definition fence_plain_re : list atom :=
  [Lit 96; Lit 96; Lit 96; Open; Star any_char; Close; Lit 96; Lit 96; Lit 96].

(** The search for the fence from position [pos] on: the second group of
    the leftmost match. *)
Fixpoint search_fence (subject s : pystr) (pos : nat) : option pystr :=
  match m fence_json_re s pos [] with
  | Some r => Some (group subject r 2)
  | None =>
      match m fence_plain_re s pos [] with
      | Some r => Some (group subject r 1)
      | None =>
          match s with
          | [] => None
          | _ :: s' => search_fence subject s' (S pos)
          end
      end
  end.

(** [clean_llm_response(text)]. *)
Definition clean_llm_response (text : pystr) : pystr :=
  match search_fence text text 0 with
  | Some body => strip body
  | None => strip text
  end.

(** The watermark removal of [extract_questions_with_llm]: the lines of
    the page text without a watermark, joined again. *)
Definition cleaned_text (watermark_texts : list pystr) (page_text : pystr) : pystr :=
  join [NL]
    (List.filter (fun line => negb (any_in watermark_texts line)) (split NL page_text)).

(** The page is skipped when nothing but white space is left. *)
Definition page_skipped (watermark_texts : list pystr) (page_text : pystr) : bool :=
  negb (truthy (strip (cleaned_text watermark_texts page_text))).

End Llm.

(* ===================================================================== *)
(** ** The vocabulary of the statements on tables *)
(* ===================================================================== *)

Section TableVocabulary.

Import Grammar.
Import CsvFile.

(** The exception a line of the manual file ends the refinement pass with,
    if any: a line longer than the header is refused when it is written; a
    shorter one has [None] under the field names it does not reach, which
    fails in [strip] for the answer, and in the membership test for the
    question once the answer is not blank. *)
Definition line_error (fieldnames row : list pystr) : option exn :=
  if (length fieldnames <? length row)%nat then Some ValueError
  else match field fieldnames row ANSWER with
       | None =>
           if bool_decide (ANSWER ∈ fieldnames) then Some AttributeError else None
       | Some a =>
           match field fieldnames row QUESTION with
           | None =>
               if truthy (strip a) && bool_decide (QUESTION ∈ fieldnames)
               then Some TypeError else None
           | Some _ => None
           end
       end.

End TableVocabulary.

(* ===================================================================== *)
(** ** The vocabulary of the statements on source pages *)
(* ===================================================================== *)

Section PageVocabulary.

(** The source pages of a list of records, in order. *)
Definition pages_of (qs : list Question) : list Z := map source_page qs.

(** The invariant of both scans while the page numbered [p] (from 1) is
    read: the records so far are in page order; an open question was
    opened on a page from 1 to [p] and no record so far is from a later
    page than it; without an open question, no record so far is from a
    page after [p]. *)
Definition page_inv_of (p : Z) (open_page : option Z) (qs : list Question) : Prop :=
  StronglySorted Z.le (pages_of qs)
  /\ match open_page with
     | Some x => (1 <= x <= p)%Z /\ Forall (fun y => (1 <= y <= x)%Z) (pages_of qs)
     | None => Forall (fun y => (1 <= y <= p)%Z) (pages_of qs)
     end.

(** The same on the state of the one-stage scan, where a question is only
    open in the grammar section. *)
Definition page_inv (p : Z) (st : Csv.State) : Prop :=
  page_inv_of p (option_map Csv.g_page (Csv.current_grammar_q_data st)) (Csv.questions st)
  /\ (Csv.section st = Csv.vocab -> Csv.current_grammar_q_data st = None).

Definition result_page_inv (p : Z) (r : Csv.result) : Prop :=
  match r with
  | Csv.Next st => page_inv p st
  | Csv.Raised _ st => page_inv p st
  end.

(** And on the state of stage 1. *)
Definition stage1_page_inv (p : Z) (st : Stage1.State) : Prop :=
  page_inv_of p (option_map Grammar.q_page (Stage1.current_question_data st))
    (Stage1.questions st).

(** A property of the state a step of stage 1 ends in, raised or not. *)
Definition stage1_holds (I : Stage1.State -> Prop) (r : Stage1.result) : Prop :=
  match r with
  | Stage1.Next st => I st
  | Stage1.Raised _ st => I st
  end.

End PageVocabulary.

(* ===================================================================== *)
(** ** The underline detector and the marking classifier *)
(* ===================================================================== *)

Section GeometryFacts.

Local Open Scope float_scope.

Lemma item_underline_qualifies item :
  item_underline item = if qualifies item then [rect_of_item item] else [].
Proof. destruct item; reflexivity. Qed.

Lemma flat_map_item_underline (path : Path) :
  flat_map item_underline path = map rect_of_item (List.filter qualifies path).
Proof.
  induction path as [|item path IH]; simpl; [reflexivity|].
  rewrite item_underline_qualifies, IH.
  destruct (qualifies item); reflexivity.
Qed.

Lemma filter_concat {A} (f : A -> bool) (ls : list (list A)) :
  List.filter f (concat ls) = concat (map (List.filter f) ls).
Proof.
  induction ls as [|l ls IH]; simpl; [reflexivity|].
  rewrite List.filter_app, IH. reflexivity.
Qed.

Lemma get_underlines_filter (drawings : list Path) :
  get_underlines drawings
  = map rect_of_item (List.filter qualifies (concat drawings)).
Proof.
  unfold get_underlines. rewrite filter_concat, concat_map, map_map.
  induction drawings as [|path ds IH]; simpl; [reflexivity|].
  rewrite flat_map_item_underline, IH. reflexivity.
Qed.

(** C8. The underline detector returns, in drawing order, exactly one
    rectangle per qualifying primitive: the rectangle through the two end
    points of a line whose end points differ in y by at most 2, and a
    rectangle primitive itself when its height is at most 2 and its width
    is positive.  A rectangle is returned only for such a primitive, and
    a page without primitives gives the empty list. *)
Theorem get_underlines_exact :
  (forall drawings,
      get_underlines drawings
      = map rect_of_item (List.filter qualifies (concat drawings)))
  /\ (forall drawings r,
         In r (get_underlines drawings) <->
         exists path item,
           In path drawings /\ In item path /\
           ((exists p1 p2, item = ItemL p1 p2
                           /\ (abs (py p1 - py p2) <=? 2) = true
                           /\ r = Rect_of_points p1 p2)
            \/ (item = ItemRe r
                /\ (height r <=? 2) = true /\ (0 <? width r) = true)))
  /\ get_underlines [] = []
  /\ (forall n, get_underlines (repeat [] n) = []).
Proof.
  split; [exact get_underlines_filter|].
  split; [|split].
  - intros drawings r. rewrite get_underlines_filter, in_map_iff. split.
    + intros (item & Hr & Hin). apply List.filter_In in Hin as [Hin Hq].
      apply in_concat in Hin as (path & Hp & Hi).
      exists path, item. split; [exact Hp|]. split; [exact Hi|].
      destruct item as [p1 p2|rect| |]; simpl in *; try discriminate.
      * left. exists p1, p2. auto.
      * right. subst r. apply andb_prop in Hq as [H1 H2]. auto.
    + intros (path & item & Hp & Hi & Hcase).
      exists item. split.
      * destruct Hcase as [(p1 & p2 & -> & _ & ->)|(-> & _ & _)]; reflexivity.
      * apply List.filter_In. split.
        -- apply in_concat. exists path. auto.
        -- destruct Hcase as [(p1 & p2 & -> & H & _)|(-> & H1 & H2)]; simpl.
           ++ exact H.
           ++ rewrite H1, H2. reflexivity.
  - reflexivity.
  - intros n. induction n as [|n IH]; simpl; [reflexivity|exact IH].
Qed.

(** C7. A span whose flags have the bold bit (value 16) set is marked,
    whatever the underline list holds. *)
Theorem bold_span_is_marked (span : Span) (underlines : list Rect) :
  Z.land (flags span) 16 <> 0%Z ->
  is_span_marked span underlines = true.
Proof.
  intros Hbold. unfold is_span_marked.
  destruct (Z.eqb_spec (Z.land (flags span) 16) 0) as [E|_]; [contradiction|].
  reflexivity.
Qed.

Lemma bold_span_is_marked_witness :
  is_span_marked (mkSpan (u "がくせい") (mkRect 0 0 10 10) 20)
    [mkRect 500 900 600 901] = true.
Proof. apply bold_span_is_marked. vm_compute. discriminate. Defined.

Lemma extent_hits_normalised mid_x baseline_y r :
  normalised r -> extent_hits mid_x baseline_y r = underline_hits mid_x baseline_y r.
Proof.
  intros [Hx Hy]. unfold extent_hits, underline_hits, left_edge, right_edge, top_edge,
    fmin, fmax. rewrite Hx, Hy. reflexivity.
Qed.

(** C6, against the script.  For a span that is not bold the classifier
    does what the claim says on underline rectangles whose first corner is
    the top-left one: it answers true exactly when the horizontal extent of
    some underline contains the span's midpoint and the top edge of that
    underline is from 0 (included) to 4 (excluded) below the span's bottom
    edge; so for a span with baseline 100 and midpoint 50 and underlines
    drawn from left to right, the one over x from 40 to 60 at 102 marks it,
    the one at 105 does not, and the one over x from 61 to 80 does not.
    The underline detector, though, hands over the rectangle through the
    two end points of a line as they come.  A line drawn from right to
    left over x from 40 to 60 at 102 gives a rectangle whose extent
    contains the midpoint and whose top edge is 2 below the baseline, and
    the classifier does not mark the span; a line that rises to the right,
    from 104.5 to 103, has its top edge 3 below the baseline, and the
    classifier judges it by its first end point and does not mark the
    span. *)
Theorem reversed_underline_does_not_mark (span : Span) :
  Z.land (flags span) 16 = 0%Z ->
  (forall underlines,
      Forall normalised underlines ->
      (is_span_marked span underlines = true <->
       exists r, In r underlines
                 /\ extent_hits (span_mid_x span) (span_baseline_y span) r = true))
  /\ (span_baseline_y span = 100 -> span_mid_x span = 50 ->
      (is_span_marked span (get_underlines [[ItemL (mkPoint 40 102) (mkPoint 60 102)]])
       = true
       /\ is_span_marked span (get_underlines [[ItemL (mkPoint 40 105) (mkPoint 60 105)]])
          = false
       /\ is_span_marked span (get_underlines [[ItemL (mkPoint 61 102) (mkPoint 80 102)]])
          = false)
      /\ (get_underlines [[ItemL (mkPoint 60 102) (mkPoint 40 102)]]
          = [mkRect 60 102 40 102]
          /\ extent_hits 50 100 (mkRect 60 102 40 102) = true
          /\ is_span_marked span
               (get_underlines [[ItemL (mkPoint 60 102) (mkPoint 40 102)]]) = false)
      /\ (get_underlines [[ItemL (mkPoint 40 104.5) (mkPoint 60 103)]]
          = [mkRect 40 104.5 60 103]
          /\ extent_hits 50 100 (mkRect 40 104.5 60 103) = true
          /\ is_span_marked span
               (get_underlines [[ItemL (mkPoint 40 104.5) (mkPoint 60 103)]]) = false)).
Proof.
  intros Hplain.
  assert (Hdef : forall underlines,
             is_span_marked span underlines
             = existsb (underline_hits (span_mid_x span) (span_baseline_y span))
                 underlines).
  { intros uls. unfold is_span_marked. rewrite Hplain. reflexivity. }
  split.
  - intros uls Hnorm. rewrite Hdef, existsb_exists.
    rewrite List.Forall_forall in Hnorm.
    split; intros (r & Hin & H); exists r; (split; [exact Hin|]).
    + rewrite extent_hits_normalised by (apply Hnorm, Hin). exact H.
    + rewrite <- extent_hits_normalised by (apply Hnorm, Hin). exact H.
  - intros Hy Hx. rewrite !Hdef, Hy, Hx.
    repeat split; reflexivity.
Qed.

Lemma reversed_underline_does_not_mark_witness :
  is_span_marked (mkSpan (u "がくせい") (mkRect 30 88 70 100) 4)
    (get_underlines [[ItemL (mkPoint 60 102) (mkPoint 40 102)]]) = false.
Proof.
  apply (proj2 (reversed_underline_does_not_mark
                  (mkSpan (u "がくせい") (mkRect 30 88 70 100) 4) eq_refl)
           eq_refl eq_refl).
Defined.

End GeometryFacts.

(* ===================================================================== *)
(** ** Facts about the string operations *)
(* ===================================================================== *)

Section PyStrFacts.

Implicit Types s p r old new pre post : pystr.

Lemma startswith_spec p s :
  startswith p s = true <-> exists r, s = p ++ r.
Proof.
  revert s. induction p as [|a p IH]; intros s; simpl.
  - split; [intros _; exists s; reflexivity | reflexivity].
  - destruct s as [|b s].
    + split; [discriminate | intros (r & Hr); discriminate].
    + rewrite andb_true_iff, N.eqb_eq, IH. split.
      * intros (-> & r & ->). exists r. reflexivity.
      * intros (r & Hr). injection Hr as -> ->. split; [reflexivity | exists r; reflexivity].
Qed.

Lemma startswith_app p r : startswith p (p ++ r) = true.
Proof. apply startswith_spec. exists r. reflexivity. Qed.

Lemma contains_spec sub s :
  contains sub s = true <-> exists pre post, s = pre ++ sub ++ post.
Proof.
  induction s as [|c s IH]; simpl.
  - rewrite orb_false_r, startswith_spec. split.
    + intros (r & Hr). exists [], r. exact Hr.
    + intros (pre & post & H). destruct pre; simpl in H; [|discriminate].
      exists post. exact H.
  - rewrite orb_true_iff, startswith_spec, IH. split.
    + intros [(r & Hr)|(pre & post & ->)].
      * exists [], r. exact Hr.
      * exists (c :: pre), post. reflexivity.
    + intros (pre & post & H). destruct pre as [|c' pre]; simpl in H.
      * left. exists post. exact H.
      * right. injection H as -> ->. exists pre, post. reflexivity.
Qed.

Lemma skipn_length_app {A} (l r : list A) : skipn (length l) (l ++ r) = r.
Proof. induction l; simpl; auto. Qed.

Lemma replace1_eq old new s :
  replace1 old new s
  = if startswith old s then new ++ skipn (length old) s
    else match s with
         | [] => []
         | c :: s' => c :: replace1 old new s'
         end.
Proof. destruct s; reflexivity. Qed.

Lemma replace1_first old new s pre post :
  first_occurrence old s pre post ->
  replace1 old new s = pre ++ new ++ post.
Proof.
  revert s. induction pre as [|c pre IH]; intros s [Hs Hmin]; simpl in *.
  - subst s. rewrite replace1_eq, startswith_app, skipn_length_app. reflexivity.
  - subst s. simpl.
    destruct (startswith old (c :: pre ++ old ++ post)) eqn:E.
    + apply startswith_spec in E as (r & Hr).
      specialize (Hmin [] r Hr). simpl in Hmin. lia.
    + f_equal. apply IH. split; [reflexivity|].
      intros pre' post' H.
      specialize (Hmin (c :: pre') post'). simpl in Hmin.
      rewrite H in Hmin. specialize (Hmin eq_refl). lia.
Qed.

Lemma replace1_absent old new s :
  contains old s = false -> replace1 old new s = s.
Proof.
  induction s as [|c s IH]; simpl; intros H.
  - apply orb_false_elim in H as [-> _]. reflexivity.
  - apply orb_false_elim in H as [-> H]. f_equal. auto.
Qed.

Lemma first_occurrence_exists old s :
  contains old s = true -> exists pre post, first_occurrence old s pre post.
Proof.
  induction s as [|c s IH]; simpl; intros H.
  - rewrite orb_false_r in H. apply startswith_spec in H as (r & Hr).
    exists [], r. split; [exact Hr | intros; simpl; lia].
  - destruct (startswith old (c :: s)) eqn:E.
    + apply startswith_spec in E as (r & Hr).
      exists [], r. split; [exact Hr | intros; simpl; lia].
    + simpl in H. destruct (IH H) as (pre & post & Hs & Hmin).
      exists (c :: pre), post. split; [simpl; rewrite Hs; reflexivity|].
      intros pre' post' H'. destruct pre' as [|c' pre']; simpl in H'.
      * assert (startswith old (c :: s) = true)
          by (apply startswith_spec; exists post'; exact H').
        congruence.
      * injection H' as _ H'. specialize (Hmin _ _ H'). simpl. lia.
Qed.

(** *** White space *)

Lemma lstrip_decompose s :
  exists pre, s = pre ++ lstrip s /\ all_space pre.
Proof.
  induction s as [|c s (pre & Hs & Hpre)]; simpl.
  - exists []. split; [reflexivity | constructor].
  - destruct (is_space c) eqn:E.
    + exists (c :: pre). split; [simpl; f_equal; exact Hs | constructor; assumption].
    + exists []. split; [reflexivity | constructor].
Qed.

Lemma lstrip_head s c r : lstrip s = c :: r -> is_space c = false.
Proof.
  induction s as [|x s IH]; simpl; [discriminate|].
  destruct (is_space x) eqn:E; [exact IH|].
  intros H. injection H as <- _. exact E.
Qed.

Lemma lstrip_spaces_app pre s : all_space pre -> lstrip (pre ++ s) = lstrip s.
Proof.
  induction 1 as [|c pre Hc _ IH]; simpl; [reflexivity|].
  rewrite Hc. exact IH.
Qed.

Lemma lstrip_keep c s : is_space c = false -> lstrip (c :: s) = c :: s.
Proof. intros H. simpl. rewrite H. reflexivity. Qed.

Lemma lstrip_nil_iff s : lstrip s = [] <-> all_space s.
Proof.
  induction s as [|c s IH]; simpl.
  - split; [constructor | reflexivity].
  - destruct (is_space c) eqn:E.
    + rewrite IH. split; [intros; constructor; assumption | intros H; inversion H; assumption].
    + split; [discriminate | intros H; inversion H; congruence].
Qed.

Lemma lstrip_ends_solid s : ends_solid s -> ends_solid (lstrip s).
Proof.
  intros (r & c & -> & Hc).
  induction r as [|x r IH]; simpl.
  - rewrite Hc. exists [], c. auto.
  - destruct (is_space x); [exact IH|].
    exists (x :: r), c. auto.
Qed.

Lemma all_space_rev s : all_space s -> all_space (rev s).
Proof. unfold all_space. rewrite !List.Forall_forall. intros H c Hc. apply H, in_rev, Hc. Qed.

Lemma rstrip_cases s : rstrip s = [] \/ ends_solid (rstrip s).
Proof.
  unfold rstrip. destruct (lstrip (rev s)) as [|c r] eqn:E.
  - left. reflexivity.
  - right. simpl. exists (rev r), c. split; [reflexivity|].
    eapply lstrip_head, E.
Qed.

Lemma rstrip_nil_iff s : rstrip s = [] <-> all_space s.
Proof.
  unfold rstrip. split.
  - intros H. apply (f_equal (@rev N)) in H. rewrite rev_involutive in H. simpl in H.
    apply lstrip_nil_iff in H. apply all_space_rev in H.
    rewrite rev_involutive in H. exact H.
  - intros H. apply all_space_rev in H. apply lstrip_nil_iff in H.
    rewrite H. reflexivity.
Qed.

Lemma rstrip_keep s c : is_space c = false -> rstrip (s ++ [c]) = s ++ [c].
Proof.
  intros H. unfold rstrip. rewrite rev_app_distr. simpl. rewrite H.
  simpl. rewrite rev_involutive. reflexivity.
Qed.

Lemma rstrip_decompose s : exists post, s = rstrip s ++ post /\ all_space post.
Proof.
  unfold rstrip. destruct (lstrip_decompose (rev s)) as (pre & Hs & Hpre).
  exists (rev pre). split; [|apply all_space_rev; exact Hpre].
  rewrite <- rev_app_distr, <- Hs, rev_involutive. reflexivity.
Qed.

Lemma strip_cases s :
  strip s = [] \/ (ends_solid (strip s) /\ exists c r, strip s = c :: r /\ is_space c = false).
Proof.
  unfold strip. destruct (rstrip_cases s) as [->|H]; [left; reflexivity|].
  right. apply lstrip_ends_solid in H. split; [exact H|].
  destruct (lstrip (rstrip s)) as [|c r] eqn:E.
  - destruct H as (r & c & Hr & _). destruct r; discriminate.
  - exists c, r. split; [reflexivity | eapply lstrip_head, E].
Qed.

Lemma strip_nil_iff s : strip s = [] <-> all_space s.
Proof.
  unfold strip. rewrite lstrip_nil_iff. split.
  - intros H. destruct (rstrip_decompose s) as (post & Hs & Hpost).
    rewrite Hs. apply Forall_app. split; assumption.
  - intros H. apply rstrip_nil_iff in H. rewrite H. constructor.
Qed.

Lemma strip_decompose s :
  exists pre post, s = pre ++ strip s ++ post /\ all_space pre /\ all_space post.
Proof.
  unfold strip. destruct (rstrip_decompose s) as (post & Hs & Hpost).
  destruct (lstrip_decompose (rstrip s)) as (pre & Hr & Hpre).
  exists pre, post. split; [|split; assumption].
  rewrite app_assoc, <- Hr. exact Hs.
Qed.

Lemma ends_solid_not_nil s : ends_solid s -> s <> [].
Proof. intros (r & c & -> & _). destruct r; discriminate. Qed.

Lemma strip_has_solid s : has_solid s -> ends_solid (strip s).
Proof.
  intros (c & Hin & Hc). destruct (strip_cases s) as [H|[H _]]; [|exact H].
  apply strip_nil_iff in H. unfold all_space in H. rewrite List.Forall_forall in H.
  specialize (H c Hin). congruence.
Qed.

Lemma strip_solid s c r :
  is_space c = false -> ends_solid (c :: r) -> strip (c :: r) = c :: r.
Proof.
  intros Hc (r' & c' & Hr & Hc'). unfold strip.
  rewrite Hr, rstrip_keep, <- Hr by exact Hc'. apply lstrip_keep, Hc.
Qed.

(** *** Splitting and joining *)

Lemma split_not_nil sep s : split sep s <> [].
Proof.
  destruct s as [|c s]; simpl; [discriminate|].
  destruct (c =? sep); [discriminate|].
  destruct (split sep s); discriminate.
Qed.

Lemma split_cons_other sep c s :
  c <> sep ->
  split sep (c :: s) = (c :: hd [] (split sep s)) :: tl (split sep s).
Proof.
  intros H. simpl. apply N.eqb_neq in H. rewrite H.
  destruct (split sep s) eqn:E; [|reflexivity].
  exfalso. eapply split_not_nil, E.
Qed.

Lemma split_no_sep sep s : ~ In sep s -> split sep s = [s].
Proof.
  induction s as [|c s IH]; intros H; [reflexivity|].
  rewrite split_cons_other by (intros ->; apply H; left; reflexivity).
  rewrite IH by (intros Hin; apply H; right; exact Hin). reflexivity.
Qed.

Lemma split_app sep a b :
  split sep (a ++ sep :: b) = split sep a ++ split sep b.
Proof.
  induction a as [|c a IH].
  - simpl. rewrite N.eqb_refl. reflexivity.
  - destruct (N.eq_dec c sep) as [->|Hc].
    + simpl. rewrite N.eqb_refl, IH. reflexivity.
    + change ((c :: a) ++ sep :: b) with (c :: (a ++ sep :: b)).
      rewrite (split_cons_other sep c (a ++ sep :: b)) by exact Hc.
      rewrite (split_cons_other sep c a) by exact Hc.
      rewrite IH. pose proof (split_not_nil sep a) as Hne.
      destruct (split sep a); [contradiction|]. reflexivity.
Qed.

Lemma join_cons sep p ps :
  ps <> [] -> join sep (p :: ps) = p ++ sep ++ join sep ps.
Proof. destruct ps; [contradiction | reflexivity]. Qed.

Lemma join_split sep s : join [sep] (split sep s) = s.
Proof.
  induction s as [|c s IH]; [reflexivity|].
  destruct (N.eq_dec c sep) as [->|Hc].
  - simpl split. rewrite N.eqb_refl, join_cons by apply split_not_nil.
    rewrite IH. reflexivity.
  - rewrite split_cons_other by exact Hc.
    pose proof (split_not_nil sep s) as Hne.
    destruct (split sep s) as [|p ps]; [contradiction|]. simpl hd. simpl tl.
    destruct ps as [|q ps].
    + simpl in *. rewrite IH. reflexivity.
    + rewrite join_cons in IH by discriminate.
      rewrite join_cons by discriminate. simpl. rewrite <- IH. reflexivity.
Qed.

Lemma split1_no_sep sep s : ~ In sep s -> split1 sep s = [s].
Proof.
  induction s as [|c s IH]; intros H; [reflexivity|].
  simpl. destruct (N.eqb_spec c sep) as [->|_].
  - exfalso. apply H. left. reflexivity.
  - rewrite IH by (intros Hin; apply H; right; exact Hin). reflexivity.
Qed.

Lemma split1_first sep a b :
  ~ In sep a -> split1 sep (a ++ sep :: b) = [a; b].
Proof.
  induction a as [|c a IH]; intros H; simpl.
  - rewrite N.eqb_refl. reflexivity.
  - destruct (N.eqb_spec c sep) as [->|_].
    + exfalso. apply H. left. reflexivity.
    + rewrite IH by (intros Hin; apply H; right; exact Hin). reflexivity.
Qed.

Lemma first_sep_decompose (sep : N) s :
  In sep s -> exists a b, s = a ++ sep :: b /\ ~ In sep a.
Proof.
  induction s as [|c s IH]; intros H; [destruct H|].
  destruct (N.eq_dec c sep) as [->|Hc].
  - exists [], s. split; [reflexivity | intros []].
  - destruct H as [H|H]; [contradiction|].
    destruct (IH H) as (a & b & -> & Ha).
    exists (c :: a), b. split; [reflexivity|].
    intros [E|E]; [exact (Hc E) | exact (Ha E)].
Qed.

Lemma last_sep_decompose (sep : N) s :
  In sep s -> exists a b, s = a ++ sep :: b /\ ~ In sep b.
Proof.
  intros H. apply in_rev in H.
  destruct (first_sep_decompose sep (rev s) H) as (a & b & E & Ha).
  exists (rev b), (rev a). split.
  - apply (f_equal (@rev N)) in E. rewrite rev_involutive in E. rewrite E.
    rewrite rev_app_distr. simpl. rewrite <- app_assoc. reflexivity.
  - intros Hin. apply Ha, in_rev, Hin.
Qed.

Lemma is_space_NL : is_space NL = true.
Proof. reflexivity. Qed.

End PyStrFacts.

(* ===================================================================== *)
(** ** Facts about the matcher *)
(* ===================================================================== *)

Section ReFacts.

Implicit Types (s : pystr) (pos : nat) (caps : list nat) (r : mresult).

(** A successful repetition hands the rest of the pattern a suffix of the
    subject, after characters of the class only. *)
Lemma star_inv cls k s pos caps r :
  star cls k s pos caps = Some r ->
  exists n, (n <= length s)%nat
            /\ Forall (fun c => cls c = true) (firstn n s)
            /\ k (skipn n s) (pos + n)%nat caps = Some r.
Proof.
  assert (Hstop : forall s pos,
             k s pos caps = Some r ->
             exists n, (n <= length s)%nat
                       /\ Forall (fun c => cls c = true) (firstn n s)
                       /\ k (skipn n s) (pos + n)%nat caps = Some r).
  { intros s0 pos0 H. exists 0%nat. rewrite Nat.add_0_r. simpl.
    split; [lia|]. split; [constructor | exact H]. }
  revert pos. induction s as [|c s IH]; intros pos; simpl.
  - apply Hstop.
  - destruct (cls c) eqn:Ec; [|apply Hstop].
    destruct (star cls k s (S pos) caps) as [r'|] eqn:E; [|apply Hstop].
    intros H. injection H as <-.
    destruct (IH _ E) as (n & Hn & Hall & Hk).
    exists (S n). simpl. split; [lia|]. split; [constructor; assumption|].
    replace (pos + S n)%nat with (S pos + n)%nat by lia. exact Hk.
Qed.

(** When the rest of the pattern cannot start with a character of the
    class, the repetition takes the whole run. *)
Lemma star_whole_run cls k s pos caps :
  (forall c s' pos' caps', cls c = true -> k (c :: s') pos' caps' = None) ->
  star cls k s pos caps
  = k (skipn (run_length cls s) s) (pos + run_length cls s)%nat caps.
Proof.
  intros Hk. revert pos. induction s as [|c s IH]; intros pos; simpl.
  - rewrite Nat.add_0_r. reflexivity.
  - destruct (cls c) eqn:Ec.
    + rewrite IH. replace (S pos + run_length cls s)%nat
        with (pos + S (run_length cls s))%nat by lia.
      destruct (k _ _ caps); [reflexivity|]. apply Hk, Ec.
    + rewrite Nat.add_0_r. reflexivity.
Qed.

(** When the rest of the pattern always matches, the repetition takes the
    whole run as well. *)
Lemma star_total_run cls k s pos caps :
  (forall s' pos' caps', k s' pos' caps' <> None) ->
  star cls k s pos caps
  = k (skipn (run_length cls s) s) (pos + run_length cls s)%nat caps.
Proof.
  intros Hk. revert pos. induction s as [|c s IH]; intros pos; simpl.
  - rewrite Nat.add_0_r. reflexivity.
  - destruct (cls c) eqn:Ec.
    + rewrite IH. replace (S pos + run_length cls s)%nat
        with (pos + S (run_length cls s))%nat by lia.
      destruct (k _ _ caps) eqn:E; [reflexivity|]. exfalso. eapply Hk, E.
    + rewrite Nat.add_0_r. reflexivity.
Qed.

(** The boundaries already recorded stay, and the match ends inside the
    subject. *)
Lemma m_inv pat : forall s pos caps r,
  m pat s pos caps = Some r ->
  (exists ext, fst r = caps ++ ext)
  /\ (pos <= snd r)%nat /\ (snd r <= pos + length s)%nat.
Proof.
  induction pat as [|a pat IH]; intros s pos caps r; simpl.
  - intros H. injection H as <-. simpl. split; [exists []; rewrite app_nil_r; reflexivity | lia].
  - destruct a as [|c|cls|cls| |].
    + destruct (Nat.eqb pos 0); [apply IH | discriminate].
    + destruct s as [|x s]; [discriminate|].
      destruct (x =? c); [|discriminate].
      intros H. apply IH in H as (Hext & H1 & H2). simpl. split; [exact Hext | lia].
    + intros H. apply star_inv in H as (n & Hn & _ & H).
      apply IH in H as (Hext & H1 & H2). rewrite length_skipn in H2.
      split; [exact Hext | lia].
    + destruct s as [|x s]; [discriminate|].
      destruct (cls x); [|discriminate].
      intros H. apply star_inv in H as (n & Hn & _ & H).
      apply IH in H as (Hext & H1 & H2). rewrite length_skipn in H2.
      simpl. split; [exact Hext | lia].
    + intros H. apply IH in H as ((ext & Hext) & H1 & H2).
      split; [|lia]. exists (pos :: ext). rewrite Hext, <- app_assoc. reflexivity.
    + intros H. apply IH in H as ((ext & Hext) & H1 & H2).
      split; [|lia]. exists (pos :: ext). rewrite Hext, <- app_assoc. reflexivity.
Qed.

(** A group of one or more class characters that opens the pattern is not
    empty. *)
Lemma first_group_not_nil cls pat s pos r subject :
  m (Open :: Plus cls :: Close :: pat) s pos [] = Some r ->
  s = skipn pos subject ->
  group subject r 1 <> [].
Proof.
  simpl. destruct s as [|x s]; [discriminate|].
  destruct (cls x); [|discriminate].
  intros H Hs. apply star_inv in H as (n & Hn & _ & H). simpl in H.
  apply m_inv in H as ((ext & Hext) & _ & _).
  unfold group. rewrite Hext. simpl.
  replace (S (pos + n) - pos)%nat with (S n) by lia.
  rewrite <- Hs. simpl. discriminate.
Qed.

Lemma search_from_inv pat : forall s pos r,
  search_from pat s pos = Some r ->
  exists i, (i <= length s)%nat /\ m pat (skipn i s) (pos + i)%nat [] = Some r.
Proof.
  induction s as [|c s IH]; intros pos r; simpl.
  - destruct (m pat [] pos []) eqn:E; [|discriminate].
    intros H. injection H as <-. exists 0%nat. rewrite Nat.add_0_r. auto.
  - destruct (m pat (c :: s) pos []) eqn:E.
    + intros H. injection H as <-. exists 0%nat. rewrite Nat.add_0_r. simpl. split; [lia | exact E].
    + intros H. apply IH in H as (i & Hi & H). exists (S i). simpl.
      replace (pos + S i)%nat with (S pos + i)%nat by lia. split; [lia | exact H].
Qed.

End ReFacts.

(* ===================================================================== *)
(** ** The grammar / vocabulary scan: what every emitted record satisfies *)
(* ===================================================================== *)

Section ScanInvariant.

Import Csv.

(** [P] is to hold of every emitted record, [D] of the number of the open
    accumulator. *)
Variable P : Question -> Prop.
Variable D : pystr -> Prop.

Hypothesis P_grammar : forall d uls,
  D (g_number d) -> Forall P (process_and_save_grammar_question (Some d) uls).
Hypothesis D_new : forall line_text r,
  re_match new_question_re line_text = Some r -> D (group line_text r 1).
Hypothesis P_fill : forall uls page_num line line_text,
  is_Some (re_match numbered_re line_text) ->
  P (fill_in_the_blank uls page_num line line_text).
Hypothesis P_kanji : forall page_num line_text,
  Forall P (kanji_kana page_num line_text).
Hypothesis P_synonym : forall page_num line_text qs,
  synonym page_num line_text = inr qs -> Forall P qs.
Hypothesis P_sentence : forall page_num line_text,
  Forall P (sentence_construction page_num line_text).

Local Abbreviation scan_inv := (scan_inv_of P D).
Local Abbreviation result_inv := (result_inv_of P D).

Lemma flush_inv uls st : scan_inv st -> scan_inv (flush uls st).
Proof using P_grammar.
  intros [Hq Hd]. split; simpl; [|discriminate].
  apply Forall_app. split; [exact Hq|].
  destruct (current_grammar_q_data st) as [d|] eqn:E.
  - apply P_grammar, Hd. reflexivity.
  - constructor.
Qed.

Lemma emit_inv st qs : scan_inv st -> Forall P qs -> scan_inv (emit st qs).
Proof using Type.
  intros [Hq Hd] Hqs. split; simpl; [|exact Hd].
  apply Forall_app. split; assumption.
Qed.

Lemma scan_line_inv wts uls page_num st line :
  scan_inv st -> result_inv (scan_line wts uls page_num st line).
Proof using All.
  intros Hinv. unfold scan_line.
  set (line_text := strip (joined_text line)).
  destruct (any_in wts line_text); [exact Hinv|].
  destruct (contains _ line_text).
  { destruct (flush_inv uls st Hinv) as [Hq _]. split; simpl; [exact Hq | discriminate]. }
  destruct (contains _ line_text).
  { destruct Hinv as [Hq Hd]. split; simpl; assumption. }
  destruct (re_match mondai_re line_text) as [mm|].
  { destruct (py_int (group line_text mm 1)) as [n|]; [|exact Hinv].
    destruct (flush_inv uls st Hinv) as [Hq _]. split; simpl; [exact Hq | discriminate]. }
  destruct ((current_mondai st =? 0)%Z || negb (truthy line_text)); [exact Hinv|].
  destruct (section st).
  - (* vocab *)
    destruct (_ && bool_decide (is_Some (re_match numbered_re line_text))) eqn:E3.
    { apply andb_prop in E3 as [_ E3]. apply bool_decide_eq_true in E3.
      apply emit_inv; [exact Hinv|]. constructor; [|constructor].
      apply P_fill, E3. }
    destruct (_ && contains [12300] line_text).
    { apply emit_inv; [exact Hinv | apply P_kanji]. }
    destruct (_ && contains [61] line_text).
    { destruct (synonym page_num line_text) as [e|qs] eqn:Es; [exact Hinv|].
      apply emit_inv; [exact Hinv | eapply P_synonym, Es]. }
    destruct (_ && contains [8658] line_text).
    { apply emit_inv; [exact Hinv | apply P_sentence]. }
    exact Hinv.
  - (* grammar *)
    destruct (re_match new_question_re line_text) as [nq|] eqn:En.
    { destruct (flush_inv uls st Hinv) as [Hq _]. split; simpl; [exact Hq|].
      intros d Hd. injection Hd as <-. simpl. apply D_new, En. }
    destruct (current_grammar_q_data st) as [d|] eqn:Ed; [|exact Hinv].
    destruct Hinv as [Hq Hd]. split; simpl; [exact Hq|].
    intros d' Hd'. injection Hd' as <-. simpl. apply Hd, Ed.
Qed.

Lemma for_each_inv {A} (body : State -> A -> result) (l : list A) :
  (forall st a, scan_inv st -> result_inv (body st a)) ->
  forall st, scan_inv st -> result_inv (for_each body l st).
Proof using Type.
  intros Hbody. induction l as [|a l IH]; intros st Hinv; simpl; [exact Hinv|].
  specialize (Hbody st a Hinv). destruct (body st a) as [st'|e st']; simpl in *.
  - apply IH, Hbody.
  - exact Hbody.
Qed.

Lemma scan_block_inv wts uls page_num st block :
  scan_inv st -> result_inv (scan_block wts uls page_num st block).
Proof using All.
  intros Hinv. destruct block as [lines|]; simpl; [|exact Hinv].
  apply for_each_inv; [|exact Hinv]. intros. apply scan_line_inv. assumption.
Qed.

Lemma scan_pages_inv wts doc : forall page_num st,
  scan_inv st -> result_inv (scan_pages wts page_num doc st).
Proof using All.
  induction doc as [|page doc IH]; intros page_num st Hinv; simpl; [exact Hinv|].
  match goal with |- result_inv (bind ?r _) => assert (Hr : result_inv r) end.
  { apply for_each_inv; [intros; apply scan_block_inv; assumption|].
    destruct Hinv as [Hq Hd]. split; simpl; assumption. }
  match goal with |- result_inv (bind ?r _) => destruct r as [st'|e st'] end; simpl in *.
  - apply IH, Hr.
  - exact Hr.
Qed.

Lemma scan_document_inv doc wts : result_inv (scan_document doc wts).
Proof using All.
  unfold scan_document.
  assert (Hr : result_inv (scan_pages wts 0 doc (mkState vocab 0 None [] None))).
  { apply scan_pages_inv. split; simpl; [constructor | discriminate]. }
  destruct (scan_pages wts 0 doc _) as [st|e st]; simpl in *; [|exact Hr].
  destruct (underlines st); simpl; [apply flush_inv, Hr | exact Hr].
Qed.

Lemma extract_grammar_vocab_questions_inv doc wts :
  Forall P (extract_grammar_vocab_questions doc wts).
Proof using All.
  unfold extract_grammar_vocab_questions.
  pose proof (scan_document_inv doc wts) as H.
  destruct (scan_document doc wts); destruct H as [H _]; exact H.
Qed.

End ScanInvariant.

(* ===================================================================== *)
(** ** Vocabulary mondai 4 and 5 *)
(* ===================================================================== *)

Section VocabFacts.

Import Csv.

Lemma for_each_cons {A} (body : State -> A -> result) a l st :
  for_each body (a :: l) st = bind (body st a) (for_each body l).
Proof. reflexivity. Qed.

Lemma type_process_and_save d uls q :
  In q (process_and_save_grammar_question d uls) -> type q = u "Grammar/Reading".
Proof.
  destruct d as [d|]; simpl; [|intros []].
  destruct (scan_lines uls (g_spans d) [] []) as [full ans].
  intros [<-|[]]. reflexivity.
Qed.

Lemma type_fill_in_the_blank uls page_num line line_text :
  type (fill_in_the_blank uls page_num line line_text) = u "Fill-in-the-Blank".
Proof.
  unfold fill_in_the_blank. destruct (scan_spans uls line [] []). reflexivity.
Qed.

Lemma type_kanji_kana page_num line_text q :
  In q (kanji_kana page_num line_text) -> type q = u "Vocabulary (Kanji/Kana)".
Proof.
  unfold kanji_kana. destruct (re_search kanji_re line_text); [|intros []].
  intros [<-|[]]. reflexivity.
Qed.

Lemma type_synonym page_num line_text qs q :
  synonym page_num line_text = inr qs -> In q qs -> type q = u "Synonym".
Proof.
  unfold synonym. destruct (length _ =? 2)%nat.
  - destruct (nth_error _ 1); [|discriminate].
    intros H. injection H as <-. intros [<-|[]]. reflexivity.
  - intros H. injection H as <-. intros [].
Qed.

Lemma sentence_construction_split page_num left right :
  ~ In 0x21D2 left ->
  sentence_construction page_num (left ++ 0x21D2 :: right)
  = [mkQuestion (u "Sentence Construction") (strip left) [] (strip left) []
       (strip right) (page_num + 1)].
Proof.
  intros H. unfold sentence_construction. rewrite split1_first by exact H.
  reflexivity.
Qed.

Lemma sentence_construction_fields page_num line_text q :
  In q (sentence_construction page_num line_text) -> number q = question q.
Proof.
  unfold sentence_construction. destruct (length _ =? 2)%nat; [|intros []].
  intros [<-|[]]. reflexivity.
Qed.

Lemma contains_not_nil sub s : sub <> [] -> contains sub s = true -> s <> [].
Proof.
  intros Hsub H ->. simpl in H. destruct sub; [contradiction | discriminate].
Qed.

(** C10. A Sentence Construction record has the same text in [number] and
    in [question]: the stripped text to the left of the first arrow of its
    line, ordinal included.  This holds of the extractor of mondai 5, of the
    line scanner in the vocabulary section under mondai 5, and of every
    such record of every document. *)
Theorem sentence_construction_number_is_question :
  (forall page_num left right,
      ~ In 0x21D2 left ->
      sentence_construction page_num (left ++ 0x21D2 :: right)
      = [mkQuestion (u "Sentence Construction") (strip left) [] (strip left) []
           (strip right) (page_num + 1)])
  /\ (forall wts uls page_num st line,
         section st = vocab -> current_mondai st = 5%Z ->
         any_in wts (strip (joined_text line)) = false ->
         contains (u "もじ・ごい") (strip (joined_text line)) = false ->
         contains (u "ぶんぽう・どっかい") (strip (joined_text line)) = false ->
         re_match mondai_re (strip (joined_text line)) = None ->
         contains [0x21D2] (strip (joined_text line)) = true ->
         scan_line wts uls page_num st line
         = Next (emit st (sentence_construction page_num (strip (joined_text line)))))
  /\ (forall doc wts q,
         In q (extract_grammar_vocab_questions doc wts) ->
         type q = u "Sentence Construction" ->
         number q = question q).
Proof.
  split; [exact sentence_construction_split|]. split.
  - intros wts uls page_num st line Hsec Hm Hw Hv Hg Hre Harrow.
    unfold scan_line. rewrite Hw, Hv, Hg, Hre, Hsec, Hm, Harrow.
    assert (Ht : truthy (strip (joined_text line)) = true).
    { destruct (strip (joined_text line)) eqn:E; [|reflexivity].
      discriminate Harrow. }
    rewrite Ht. reflexivity.
  - intros doc wts q Hin.
    assert (Hall : Forall (fun q => type q = u "Sentence Construction"
                                     -> number q = question q)
                     (extract_grammar_vocab_questions doc wts));
      [|rewrite List.Forall_forall in Hall; apply Hall, Hin].
    apply extract_grammar_vocab_questions_inv with (D := fun _ => True); auto.
    + intros d uls _. apply List.Forall_forall. intros q' Hq' Ht.
      apply type_process_and_save in Hq'. rewrite Hq' in Ht. discriminate Ht.
    + intros uls pn line lt _ Ht.
      rewrite type_fill_in_the_blank in Ht. discriminate Ht.
    + intros pn lt. apply List.Forall_forall. intros q' Hq' Ht.
      apply type_kanji_kana in Hq'. rewrite Hq' in Ht. discriminate Ht.
    + intros pn lt qs Hs. apply List.Forall_forall. intros q' Hq' Ht.
      eapply type_synonym in Hq'; [|exact Hs]. rewrite Hq' in Ht. discriminate Ht.
    + intros pn lt. apply List.Forall_forall. intros q' Hq' _.
      eapply sentence_construction_fields, Hq'.
Qed.

Lemma sentence_construction_number_is_question_witness :
  number (mkQuestion (u "Sentence Construction") (u "1. a b c") []
            (u "1. a b c") [] (u "b a c") 1)
  = u "1. a b c".
Proof.
  apply (proj2 (proj2 sentence_construction_number_is_question)
           (one_block [plain_line "問題5"; plain_line "1. a b c ⇒ b a c"]) []).
  - vm_compute. left. reflexivity.
  - reflexivity.
Defined.

(** C3. A mondai 4 line with an equals sign and no full stop on its left
    raises in the synonym branch, and the only handler is the one around
    the whole scan: the records of every later line, block and page are
    lost, while the same document without that line yields them. *)
Theorem synonym_without_stop_aborts_scan :
  synonym 0 (u "abc=def") = inl IndexError
  /\ (forall later_lines later_blocks later_pages,
         extract_grammar_vocab_questions
           (mkPage [] (TextBlock (plain_line "問題4" :: plain_line "abc=def" :: later_lines)
                         :: later_blocks) :: later_pages) []
         = [])
  /\ extract_grammar_vocab_questions
       (one_block [plain_line "問題4"; plain_line "abc=def"; plain_line "1.x=y"]) []
     = []
  /\ extract_grammar_vocab_questions
       (one_block [plain_line "問題4"; plain_line "1.x=y"]) []
     = [mkQuestion (u "Synonym") (u "1") [] (u "x") [] (u "y") 1].
Proof.
  split; [reflexivity|]. split; [|split; reflexivity].
  intros later_lines later_blocks later_pages.
  unfold extract_grammar_vocab_questions, scan_document. simpl scan_pages.
  reflexivity.
Qed.

End VocabFacts.

(* ===================================================================== *)
(** ** Which fields of an emitted record are never empty *)
(* ===================================================================== *)

Section NonEmptyFields.

Import Csv.

Lemma is_digit_not_NL c : is_digit c = true -> c <> NL.
Proof. intros H ->. vm_compute in H. discriminate H. Qed.

Lemma is_digit_not_stop c : is_digit c = true -> c <> 46.
Proof. intros H ->. vm_compute in H. discriminate H. Qed.

Lemma hd_split_not_nil sep c s : c <> sep -> hd [] (split sep (c :: s)) <> [].
Proof. intros H. rewrite split_cons_other by exact H. discriminate. Qed.

(** A subject matched by a pattern that opens with the anchor and one or
    more digits starts with a digit. *)
Lemma anchored_digits_head pat s r :
  re_match (Bol :: Plus is_digit :: pat) s = Some r ->
  exists c rest, s = c :: rest /\ is_digit c = true.
Proof.
  unfold re_match. simpl. destruct s as [|c rest]; [discriminate|].
  destruct (is_digit c) eqn:E; [|discriminate].
  intros _. exists c, rest. auto.
Qed.

Lemma last_split_not_nil sep s :
  (exists r c, s = r ++ [c] /\ c <> sep) -> List.last (split sep s) [] <> [].
Proof.
  intros (r & c & Hs & Hc).
  destruct (in_dec N.eq_dec sep s) as [Hin|Hin].
  - destruct (last_sep_decompose sep s Hin) as (a & b & E & Hb).
    rewrite E, split_app, (split_no_sep sep b Hb), last_last.
    intros ->. rewrite Hs in E.
    change (a ++ [sep]) with (a ++ [sep]) in E.
    apply app_inj_tail in E as [_ E]. congruence.
  - rewrite split_no_sep by exact Hin. simpl. subst s. destruct r; discriminate.
Qed.

Lemma last_split1_solid s :
  ends_solid s -> has_solid (List.last (split1 NL s) []).
Proof.
  intros (r & c & Hs & Hc).
  destruct (in_dec N.eq_dec NL s) as [Hin|Hin].
  - destruct (first_sep_decompose NL s Hin) as (a & b & E & Ha).
    rewrite E, split1_first by exact Ha. simpl.
    destruct (exists_last (l := b)) as (b' & x & ->).
    + intros ->. rewrite Hs in E. apply app_inj_tail in E as [_ E].
      subst c. discriminate Hc.
    + rewrite Hs in E.
      change (a ++ NL :: b' ++ [x]) with (a ++ (NL :: b') ++ [x]) in E.
      rewrite app_assoc in E. apply app_inj_tail in E as [_ E]. subst x.
      exists c. split; [apply in_or_app; right; left; reflexivity | exact Hc].
  - rewrite split1_no_sep by exact Hin. simpl. subst s.
    exists c. split; [apply in_or_app; right; left; reflexivity | exact Hc].
Qed.

Lemma has_solid_app_l s t : has_solid s -> has_solid (s ++ t).
Proof. intros (c & Hin & Hc). exists c. split; [apply in_or_app; left; exact Hin | exact Hc]. Qed.

Lemma flush_listening_fields d fd :
  l_number d <> [] -> has_solid fd -> listening_fields (flush_listening d fd).
Proof.
  intros Hn Hfd. apply strip_has_solid in Hfd.
  unfold flush_listening.
  destruct (1 <? length (split NL (strip fd)))%nat; repeat split; simpl;
    try discriminate; try exact Hn.
  - apply last_split_not_nil. destruct Hfd as (r & c & E & Hc).
    exists r, c. split; [exact E|]. intros ->. discriminate Hc.
  - apply ends_solid_not_nil, Hfd.
Qed.

Lemma listening_flush_inv st :
  listening_inv st ->
  Forall listening_fields
    match current_question_data st with
    | Some d => l_questions st ++ [flush_listening d (full_dialogue st)]
    | None => l_questions st
    end.
Proof.
  intros [Hq Hd]. destruct (current_question_data st) as [d|]; [|exact Hq].
  apply Forall_app. split; [exact Hq|]. constructor; [|constructor].
  destruct (Hd d eq_refl). apply flush_listening_fields; assumption.
Qed.

Lemma listening_block_inv wts page_num st raw :
  listening_inv st -> listening_inv (listening_block wts page_num st raw).
Proof.
  intros Hinv. unfold listening_block.
  destruct (any_in wts (strip raw)); [exact Hinv|].
  destruct (bool_decide _) eqn:E.
  - apply bool_decide_eq_true in E as [r Hr].
    split; simpl; [apply listening_flush_inv, Hinv|].
    intros d Hd. injection Hd as <-. simpl.
    destruct (anchored_digits_head _ _ _ Hr) as (c & rest & Hs & Hc).
    split.
    + rewrite Hs. apply hd_split_not_nil, is_digit_not_NL, Hc.
    + apply has_solid_app_l, last_split1_solid.
      destruct (strip_cases raw) as [E|[E _]]; [|exact E].
      rewrite E in Hs. discriminate Hs.
  - destruct (current_question_data st) as [d|] eqn:Ed; [|exact Hinv].
    destruct Hinv as [Hq Hd]. split; simpl; [exact Hq|].
    intros d' Hd'. injection Hd' as <-.
    destruct (Hd d Ed) as [Hn Hs]. split; [exact Hn | apply has_solid_app_l, Hs].
Qed.

Lemma listening_pages_inv wts doc : forall page_num st,
  listening_inv st -> listening_inv (listening_pages wts page_num doc st).
Proof.
  induction doc as [|blocks doc IH]; intros page_num st Hinv; simpl; [exact Hinv|].
  apply IH. revert st Hinv.
  induction blocks as [|b blocks IHb]; intros st Hinv; simpl; [exact Hinv|].
  apply IHb, listening_block_inv, Hinv.
Qed.

(** C5, as the scripts have it.  Every record has a type that is not empty.
    A listening record also has a number and a question that are not empty.
    A grammar / vocabulary record has a number that is not empty unless it
    is a Synonym or a Sentence Construction record. *)
Theorem emitted_fields_not_empty :
  (forall doc wts q,
      In q (extract_listening_questions doc wts) ->
      type q <> [] /\ number q <> [] /\ question q <> [])
  /\ (forall doc wts q,
         In q (extract_grammar_vocab_questions doc wts) ->
         type q <> []
         /\ (type q <> u "Synonym" -> type q <> u "Sentence Construction" ->
             number q <> [])).
Proof.
  split.
  - intros doc wts q Hin.
    assert (Hall : Forall listening_fields (extract_listening_questions doc wts)).
    { apply listening_flush_inv, listening_pages_inv.
      split; simpl; [constructor | discriminate]. }
    rewrite List.Forall_forall in Hall. apply Hall, Hin.
  - intros doc wts q Hin.
    assert (Hall : Forall vocab_fields (extract_grammar_vocab_questions doc wts));
      [|rewrite List.Forall_forall in Hall; apply Hall, Hin].
    apply extract_grammar_vocab_questions_inv with (D := fun n => n <> []).
    + intros d uls Hd. apply List.Forall_forall. intros q' Hq'.
      pose proof (type_process_and_save _ _ _ Hq') as Ht.
      split; [rewrite Ht; discriminate|]. intros _ _.
      simpl in Hq'. destruct (scan_lines uls (g_spans d) [] []).
      destruct Hq' as [<-|[]]. exact Hd.
    + intros lt r Hr. unfold re_match, new_question_re in Hr.
      change (m (Open :: Plus is_digit :: Close :: [Lit 46]) lt 0 [] = Some r) in Hr.
      eapply first_group_not_nil; [exact Hr | reflexivity].
    + intros uls pn line lt [r Hr].
      split; [rewrite type_fill_in_the_blank; discriminate|]. intros _ _.
      destruct (anchored_digits_head _ _ _ Hr) as (c & rest & -> & Hc).
      unfold fill_in_the_blank. destruct (scan_spans uls line [] []). simpl.
      apply hd_split_not_nil, is_digit_not_stop, Hc.
    + intros pn lt. apply List.Forall_forall. intros q' Hq'.
      pose proof (type_kanji_kana _ _ _ Hq') as Ht.
      split; [rewrite Ht; discriminate|]. intros _ _.
      unfold kanji_kana in Hq'.
      destruct (re_search kanji_re lt) as [r|] eqn:Er; [|destruct Hq'].
      destruct Hq' as [<-|[]]. simpl.
      apply search_from_inv in Er as (i & Hi & Hm).
      eapply first_group_not_nil; [exact Hm | reflexivity].
    + intros pn lt qs Hs. apply List.Forall_forall. intros q' Hq'.
      pose proof (type_synonym _ _ _ _ Hs Hq') as Ht.
      split; [rewrite Ht; discriminate | intros Hne; contradiction].
    + intros pn lt. apply List.Forall_forall. intros q' Hq'.
      unfold sentence_construction in Hq'.
      destruct (length _ =? 2)%nat; [|destruct Hq'].
      destruct Hq' as [<-|[]].
      split; [discriminate | intros _ Hne; exfalso; apply Hne; reflexivity].
Qed.

Lemma emitted_fields_not_empty_witness :
  let q := mkQuestion (u "Listening") (u "1番") (u "1番") (u "何を買いますか。") [] [] 1 in
  type q <> [] /\ number q <> [] /\ question q <> [].
Proof.
  intros q.
  apply (proj1 emitted_fields_not_empty [[u "1番"; u "何を買いますか。"]] [] q).
  left. vm_compute. reflexivity.
Defined.

(** Counterexample to C5 as the specification states it: a grammar line
    that is only an ordinal gives a record whose question is empty. *)
Lemma some_emitted_question_is_empty :
  ~ (forall q,
        In q (extract_grammar_vocab_questions
                (one_block [plain_line "ぶんぽう・どっかい"; plain_line "問題1";
                            plain_line "1."]) []) ->
        type q <> [] /\ number q <> [] /\ question q <> []).
Proof.
  intros H.
  destruct (H (mkQuestion (u "Grammar/Reading") (u "1") [] [] [] [] 1)) as (_ & _ & Hq).
  - vm_compute. left. reflexivity.
  - apply Hq. reflexivity.
Qed.

End NonEmptyFields.

(* ===================================================================== *)
(** ** The manual refinement pass *)
(* ===================================================================== *)

Section RefineFacts.

Import Grammar.

Lemma QUESTION_ne_ANSWER : QUESTION <> ANSWER.
Proof. vm_compute. discriminate. Qed.

Lemma get_cell fieldnames row key :
  well_formed fieldnames row -> get row key = Some (cell row key).
Proof.
  intros [_ Hwf]. unfold get, cell.
  destruct (cols row !! key) as [[v|]|] eqn:E; try reflexivity.
  destruct (Hwf _ _ E) as [_ H]. contradiction.
Qed.

(** Replacing a stripped, non-empty answer by the placeholder changes the
    question. *)
Lemma replace1_changes a q :
  (exists c r, a = c :: r /\ is_space c = false) ->
  contains a q = true -> replace1 a PLACEHOLDER q <> q.
Proof.
  intros (c & r & Ha & Hc) Hin.
  destruct (first_occurrence_exists a q Hin) as (pre & post & Hocc).
  rewrite (replace1_first a PLACEHOLDER q pre post Hocc).
  destruct Hocc as [Hq _]. rewrite Hq. intros H.
  apply app_inv_head in H. rewrite Ha in H.
  vm_compute in H. injection H as H _. subst c. vm_compute in Hc. discriminate Hc.
Qed.

Lemma refine_row_well_formed fieldnames row :
  well_formed fieldnames row ->
  refine_row row
  = inr (if truthy (stripped_answer row) && contains (stripped_answer row) (cell row QUESTION)
         then mkRow (<[QUESTION := Some (refined_question row)]> (cols row)) (rest row)
         else row).
Proof.
  intros Hwf. unfold refine_row, refined_question.
  rewrite !(get_cell fieldnames) by exact Hwf. fold (stripped_answer row).
  destruct (truthy (stripped_answer row)); [|reflexivity]. simpl.
  destruct (contains (stripped_answer row) (cell row QUESTION)); reflexivity.
Qed.

Lemma writerow_refined fieldnames row :
  well_formed fieldnames row ->
  exists row',
    refine_row row = inr row'
    /\ writerow fieldnames row'
       = inr (map (fun key => if bool_decide (key = QUESTION) then refined_question row
                              else cell row key) fieldnames).
Proof.
  intros Hwf. rewrite (refine_row_well_formed fieldnames row Hwf).
  eexists. split; [reflexivity|].
  destruct Hwf as [Hrest Hcols]. unfold writerow.
  destruct (truthy (stripped_answer row) && contains (stripped_answer row) (cell row QUESTION))
    eqn:E; simpl.
  - destruct (cols row !! QUESTION) as [vq|] eqn:Eq.
    2:{ exfalso. unfold cell in E. rewrite Eq in E.
        apply andb_prop in E as [E1 E2].
        destruct (stripped_answer row); [discriminate E1 | discriminate E2]. }
    rewrite Hrest, bool_decide_eq_true_2 by reflexivity.
    rewrite bool_decide_eq_true_2.
    2:{ apply map_Forall_insert_2; [apply (Hcols _ _ Eq)|].
        intros k v Hk. apply (Hcols _ _ Hk). }
    simpl. f_equal. apply map_ext. intros key. unfold cell at 1. simpl.
    destruct (decide (key = QUESTION)) as [->|Hne].
    + rewrite lookup_insert_eq, bool_decide_eq_true_2 by reflexivity. reflexivity.
    + rewrite lookup_insert_ne, bool_decide_eq_false_2 by congruence. reflexivity.
  - rewrite Hrest, bool_decide_eq_true_2 by reflexivity.
    rewrite bool_decide_eq_true_2 by (intros k v Hk; apply (Hcols _ _ Hk)).
    simpl. f_equal. apply map_ext. intros key.
    destruct (decide (key = QUESTION)) as [->|Hne].
    + rewrite bool_decide_eq_true_2 by reflexivity.
      unfold refined_question. rewrite E. reflexivity.
    + rewrite bool_decide_eq_false_2 by exact Hne. reflexivity.
Qed.

Lemma refine_rows_well_formed fieldnames rows :
  Forall (well_formed fieldnames) rows ->
  refine_rows fieldnames rows
  = (map (fun row =>
            map (fun key => if bool_decide (key = QUESTION) then refined_question row
                            else cell row key) fieldnames) rows,
     None).
Proof.
  induction 1 as [|row rows Hwf _ IH]; simpl; [reflexivity|].
  destruct (writerow_refined fieldnames row Hwf) as (row' & -> & ->).
  rewrite IH. reflexivity.
Qed.

(** The pass on the rows as the reader yields them.  When every row has
    one string under each field name and nothing else, the pass writes the
    header and one line per row, with one cell per field name in the order
    of the field names.  Every cell but the one under [question] is the
    cell read.  The cell under [question] is the question read when the
    answer, stripped of surrounding white space, is empty or does not
    occur in it; else it is the question with the first occurrence of the
    stripped answer replaced by the placeholder. *)
Lemma refine_rows_frame (fieldnames : list pystr) (rows : list Row) :
  Forall (well_formed fieldnames) rows ->
  exists lines,
    refine_with_manual_answers fieldnames rows = (fieldnames :: lines, None)
    /\ length lines = length rows
    /\ forall i row line,
        rows !! i = Some row -> lines !! i = Some line ->
        length line = length fieldnames
        /\ (forall j key,
               fieldnames !! j = Some key -> key <> QUESTION ->
               line !! j = Some (cell row key))
        /\ (forall j,
               fieldnames !! j = Some QUESTION ->
               exists q, line !! j = Some q
                 /\ (stripped_answer row = [] -> q = cell row QUESTION)
                 /\ (contains (stripped_answer row) (cell row QUESTION) = false ->
                     q = cell row QUESTION)
                 /\ (forall pre post,
                        stripped_answer row <> [] ->
                        first_occurrence (stripped_answer row) (cell row QUESTION) pre post ->
                        q = pre ++ PLACEHOLDER ++ post)).
Proof.
  intros Hwf. unfold refine_with_manual_answers.
  rewrite (refine_rows_well_formed fieldnames rows Hwf).
  eexists. split; [reflexivity|]. split; [apply length_map|].
  intros i row line Hrow Hline.
  rewrite list_lookup_fmap, Hrow in Hline. simpl in Hline. injection Hline as <-.
  split; [apply length_map|]. split.
  - intros j key Hkey Hne.
    rewrite list_lookup_fmap, Hkey. simpl.
    rewrite (bool_decide_eq_false_2 _ Hne). reflexivity.
  - intros j Hkey. exists (refined_question row).
    split.
    { rewrite list_lookup_fmap, Hkey. simpl. reflexivity. }
    unfold refined_question. split; [|split].
    + intros ->. reflexivity.
    + intros ->. rewrite andb_false_r. reflexivity.
    + intros pre post Hne Hocc.
      assert (Hin : contains (stripped_answer row) (cell row QUESTION) = true).
      { apply contains_spec. exists pre, post. apply Hocc. }
      rewrite Hin. destruct (stripped_answer row) eqn:E; [contradiction|].
      cbn [truthy andb]. apply replace1_first, Hocc.
Qed.

(** Counterexample to C9 as the specification states it: the padded answer
    is not a substring of the question, and the question is rewritten all
    the same, because the pass looks for the stripped answer. *)
Lemma padded_answer_rewrites_question :
  cell row_padded QUESTION = u "a"
  /\ cell row_padded ANSWER = u " a "
  /\ contains (cell row_padded ANSWER) (cell row_padded QUESTION) = false
  /\ refine_with_manual_answers [QUESTION; ANSWER] [row_padded]
     = ([[QUESTION; ANSWER]; [u " (______) "; u " a "]], None)
  /\ u " (______) " <> cell row_padded QUESTION
  /\ CsvFile.dict_reader [QUESTION; ANSWER] [u "a"; u " a "] = row_padded
  /\ contains (u " a ") (u "a") = false
  /\ CsvFile.refine_file [[QUESTION; ANSWER]; [u "a"; u " a "]]
     = ([[QUESTION; ANSWER]; [u " (______) "; u " a "]], None).
Proof.
  repeat split; try (vm_compute; reflexivity). vm_compute. discriminate.
Qed.

(** C4, as the script has it.  After one pass over a row, a second pass
    changes nothing exactly when the stripped answer is empty or no longer
    occurs in the rewritten question. *)
Theorem second_pass_no_op (row row1 : Row) :
  refine_row row = inr row1 ->
  exists a,
    get row ANSWER = Some a /\ get row1 ANSWER = Some a
    /\ (strip a = [] -> refine_row row1 = inr row1)
    /\ (strip a <> [] ->
        exists q1, get row1 QUESTION = Some q1
                   /\ (refine_row row1 = inr row1 <-> contains (strip a) q1 = false)).
Proof.
  intros H.
  assert (Hsecond : forall a q1,
             get row1 ANSWER = Some a -> get row1 QUESTION = Some q1 ->
             strip a <> [] ->
             (refine_row row1 = inr row1 <-> contains (strip a) q1 = false)).
  { intros a q1 Ha Hq Hne. unfold refine_row. rewrite Ha, Hq.
    destruct (strip a) as [|c r] eqn:Ea; [contradiction|]. simpl truthy. cbv iota.
    destruct (contains (c :: r) q1) eqn:Ec.
    - split; [|discriminate]. intros Heq. injection Heq as Heq.
      apply (f_equal (fun row => cols row !! QUESTION)) in Heq. simpl in Heq.
      rewrite lookup_insert_eq in Heq. unfold get in Hq.
      rewrite <- Heq in Hq. injection Hq as Hq.
      exfalso. revert Hq. apply replace1_changes; [|exact Ec].
      exists c, r. split; [reflexivity|].
      destruct (strip_cases a) as [E|[_ (c' & r' & E & Hc')]]; congruence.
    - split; reflexivity. }
  unfold refine_row in H.
  destruct (get row ANSWER) as [a|] eqn:Ha; [|discriminate].
  exists a. split; [reflexivity|].
  destruct (truthy (strip a)) eqn:Et.
  - destruct (get row QUESTION) as [q|] eqn:Hq; [|discriminate].
    assert (Hne : strip a <> []) by (intros E; rewrite E in Et; discriminate Et).
    destruct (contains (strip a) q) eqn:Ec; injection H as <-.
    + assert (Ha1 : get (mkRow (<[QUESTION := Some (replace1 (strip a) PLACEHOLDER q)]> (cols row))
                           (rest row)) ANSWER = Some a).
      { unfold get in *. simpl. rewrite lookup_insert_ne by exact QUESTION_ne_ANSWER.
        exact Ha. }
      split; [exact Ha1|]. split; [intros E; contradiction|].
      intros _. exists (replace1 (strip a) PLACEHOLDER q).
      assert (Hq1 : get (mkRow (<[QUESTION := Some (replace1 (strip a) PLACEHOLDER q)]> (cols row))
                           (rest row)) QUESTION
                    = Some (replace1 (strip a) PLACEHOLDER q)).
      { unfold get. simpl. rewrite lookup_insert_eq. reflexivity. }
      split; [exact Hq1|]. apply Hsecond; assumption.
    + split; [exact Ha|]. split; [intros E; contradiction|].
      intros _. exists q. split; [exact Hq|]. apply Hsecond; assumption.
  - injection H as <-. split; [exact Ha|].
    assert (E : strip a = []) by (destruct (strip a); [reflexivity | discriminate Et]).
    split; [|intros Hne; contradiction].
    intros _. unfold refine_row. rewrite Ha, Et. reflexivity.
Qed.

Lemma second_pass_no_op_witness :
  exists a,
    get row_padded ANSWER = Some a
    /\ exists q1,
        get (mkRow (<[QUESTION := Some (u " (______) ")]> (cols row_padded)) None) QUESTION
        = Some q1.
Proof.
  destruct (second_pass_no_op row_padded
              (mkRow (<[QUESTION := Some (u " (______) ")]> (cols row_padded)) None))
    as (a & Ha & _ & _ & H).
  - vm_compute. reflexivity.
  - exists a. split; [exact Ha|].
    destruct H as (q1 & Hq1 & _).
    + vm_compute in Ha. injection Ha as <-. vm_compute. discriminate.
    + exists q1. exact Hq1.
Defined.

(** Counterexample to C4 as the specification states it: with the answer
    twice in the question, the second pass replaces the second occurrence. *)
Lemma second_pass_replaces_again :
  exists row1 row2,
    refine_row row_twice = inr row1
    /\ refine_row row1 = inr row2
    /\ cell row1 QUESTION = u " (______) a"
    /\ cell row2 QUESTION = u " (______)  (______) "
    /\ row2 <> row1.
Proof.
  eexists. eexists. split; [vm_compute; reflexivity|].
  split; [vm_compute; reflexivity|].
  split; [vm_compute; reflexivity|].
  split; [vm_compute; reflexivity|].
  intros H. apply (f_equal (fun row => cell row QUESTION)) in H.
  vm_compute in H. discriminate H.
Qed.

End RefineFacts.

(* ===================================================================== *)
(** ** The listening block segmenter *)
(* ===================================================================== *)

Section ListeningFacts.

Import Csv.

Lemma run_length_firstn cls s :
  Forall (fun c => cls c = true) (firstn (run_length cls s) s).
Proof.
  induction s as [|c s IH]; simpl; [constructor|].
  destruct (cls c) eqn:E; simpl; constructor; assumption.
Qed.

Lemma run_length_app cls (a b : pystr) :
  Forall (fun c => cls c = true) a ->
  (forall c r, b = c :: r -> cls c = false) ->
  run_length cls (a ++ b) = length a.
Proof.
  intros Ha Hb. induction Ha as [|c a Hc _ IH]; simpl.
  - destruct b as [|c r]; [reflexivity|]. simpl. rewrite (Hb c r eq_refl). reflexivity.
  - rewrite Hc, IH. reflexivity.
Qed.

Lemma re_match_anchored_plus cls pat s :
  re_match (Bol :: Plus cls :: pat) s
  = match s with
    | x :: s' => if cls x then star cls (m pat) s' 1 [] else None
    | [] => None
    end.
Proof. reflexivity. Qed.

(** The subjects of the pattern of the listening script: one or more
    digits, then the character 番. *)
Lemma question_start_spec s :
  is_Some (re_match question_start_re s) <->
  exists ds rest, ds <> [] /\ Forall (fun c => is_digit c = true) ds
                  /\ s = ds ++ 0x756A :: rest.
Proof.
  unfold question_start_re. rewrite re_match_anchored_plus.
  assert (Hk : forall c s' pos' caps',
             is_digit c = true -> m [Lit 0x756A] (c :: s') pos' caps' = None).
  { intros c s' pos' caps' Hc. simpl.
    destruct (N.eqb_spec c 0x756A) as [->|_]; [|reflexivity].
    vm_compute in Hc. discriminate Hc. }
  split.
  - destruct s as [|x s]; [intros [r Hr]; discriminate|].
    destruct (is_digit x) eqn:Ex; [|intros [r Hr]; discriminate].
    rewrite (star_whole_run is_digit _ s 1 [] Hk). intros [r Hr].
    pose proof (firstn_skipn (run_length is_digit s) s) as Hsplit.
    destruct (skipn (run_length is_digit s) s) as [|y rest] eqn:Ey; [discriminate Hr|].
    simpl in Hr. destruct (N.eqb_spec y 0x756A) as [->|_]; [|discriminate Hr].
    exists (x :: firstn (run_length is_digit s) s), rest.
    split; [discriminate|]. split.
    + constructor; [exact Ex | apply run_length_firstn].
    + simpl. rewrite Hsplit. reflexivity.
  - intros (ds & rest & Hne & Hds & ->).
    destruct ds as [|x ds]; [contradiction|]. inversion Hds as [|? ? Hx Hds']; subst.
    cbn [app]. rewrite Hx. rewrite (star_whole_run is_digit _ _ 1 [] Hk).
    rewrite run_length_app, skipn_length_app; [|exact Hds'|].
    + simpl. eexists. reflexivity.
    + intros c r E. injection E as <- _. reflexivity.
Qed.

Lemma flush_listening_many d fd before last_ :
  strip fd = before ++ NL :: last_ -> ~ In NL last_ ->
  flush_listening d fd
  = mkQuestion (u "Listening") (l_number d) before last_ [] [] (l_source_page d).
Proof.
  intros Hs Hlast. unfold flush_listening.
  rewrite Hs, split_app, (split_no_sep NL last_ Hlast).
  assert (Hlen : (1 <? length (split NL before ++ [last_]))%nat = true).
  { rewrite length_app. simpl. pose proof (split_not_nil NL before).
    destruct (split NL before); [contradiction|]. simpl. apply Nat.ltb_lt. lia. }
  rewrite Hlen, last_last, removelast_last, join_split. reflexivity.
Qed.

Lemma flush_listening_one d fd :
  ~ In NL (strip fd) ->
  flush_listening d fd
  = mkQuestion (u "Listening") (l_number d) [] (strip fd) [] [] (l_source_page d).
Proof.
  intros H. unfold flush_listening. rewrite (split_no_sep NL _ H). reflexivity.
Qed.

(** C2, as the script has it.  Every block whose stripped text starts with
    one or more digits and 番 opens a question and flushes the open one;
    the number of the new question is the first line of the block, which
    is the whole stripped text when the block has one line.  When the
    block has more than one line, the accumulated text is seeded with the
    lines after the first; a later block is appended with a newline.  The
    flush works on the stripped accumulated text: with a newline in it,
    the text after the last newline is the question and the text before it
    the dialogue; without one, the whole is the question and the dialogue
    is empty.  For the blocks 1番 / 店員：いらっしゃいませ (one block of two
    lines) and 何を買いますか。 the record has that dialogue, that question
    and the number 1番. *)
Theorem listening_block_opens_question :
  (forall s, is_Some (re_match question_start_re s) <->
             exists ds rest, ds <> [] /\ Forall (fun c => is_digit c = true) ds
                             /\ s = ds ++ 0x756A :: rest)
  /\ (forall wts page_num st raw first,
         any_in wts (strip raw) = false ->
         is_Some (re_match question_start_re (strip raw)) ->
         ~ In NL first ->
         strip raw = first \/ (exists rest, strip raw = first ++ NL :: rest) ->
         current_question_data (listening_block wts page_num st raw)
         = Some (mkLData first (page_num + 1))
         /\ l_questions (listening_block wts page_num st raw)
            = match current_question_data st with
              | Some d => l_questions st ++ [flush_listening d (full_dialogue st)]
              | None => l_questions st
              end)
  /\ (forall wts page_num st raw first rest,
         any_in wts (strip raw) = false ->
         is_Some (re_match question_start_re (strip raw)) ->
         strip raw = first ++ NL :: rest -> ~ In NL first ->
         listening_block wts page_num st raw
         = mkLState (Some (mkLData first (page_num + 1))) (rest ++ [NL])
             match current_question_data st with
             | Some d => l_questions st ++ [flush_listening d (full_dialogue st)]
             | None => l_questions st
             end)
  /\ (forall wts page_num st raw d,
         any_in wts (strip raw) = false ->
         re_match question_start_re (strip raw) = None ->
         current_question_data st = Some d ->
         listening_block wts page_num st raw
         = mkLState (Some d) (full_dialogue st ++ strip raw ++ [NL]) (l_questions st))
  /\ (forall d fd before last_,
         strip fd = before ++ NL :: last_ -> ~ In NL last_ ->
         flush_listening d fd
         = mkQuestion (u "Listening") (l_number d) before last_ [] [] (l_source_page d))
  /\ (forall d fd,
         ~ In NL (strip fd) ->
         flush_listening d fd
         = mkQuestion (u "Listening") (l_number d) [] (strip fd) [] [] (l_source_page d))
  /\ extract_listening_questions
       [[u "1番" ++ [NL] ++ u "店員：いらっしゃいませ"; u "何を買いますか。"]] []
     = [mkQuestion (u "Listening") (u "1番") (u "店員：いらっしゃいませ")
          (u "何を買いますか。") [] [] 1].
Proof.
  split; [exact question_start_spec|].
  split; [|split;
           [|split; [|split; [exact flush_listening_many|split; [exact flush_listening_one|]]]]].
  - intros wts page_num st raw first Hw Hre Hfirst Hs.
    unfold listening_block. rewrite Hw, bool_decide_eq_true_2 by exact Hre.
    cbn [current_question_data l_questions]. split; [|reflexivity].
    destruct Hs as [->|(rest & ->)].
    + rewrite (split_no_sep NL first Hfirst). reflexivity.
    + rewrite split_app, (split_no_sep NL first Hfirst). reflexivity.
  - intros wts page_num st raw first rest Hw Hre Hs Hfirst.
    unfold listening_block. rewrite Hw, bool_decide_eq_true_2 by exact Hre.
    rewrite Hs, split1_first by exact Hfirst.
    rewrite split_app, (split_no_sep NL first Hfirst). reflexivity.
  - intros wts page_num st raw d Hw Hre Hd.
    unfold listening_block. rewrite Hw, Hre, Hd.
    rewrite bool_decide_eq_false_2 by (intros [r Hr]; discriminate Hr).
    reflexivity.
  - vm_compute. reflexivity.
Qed.

Lemma listening_block_opens_question_witness :
  current_question_data
    (listening_block [] 0 (mkLState (Some (mkLData (u "1番") 1)) (u "はい。" ++ [NL]) [])
       (u " 2番 "))
  = Some (mkLData (u "2番") (0 + 1))
  /\ l_questions
       (listening_block [] 0 (mkLState (Some (mkLData (u "1番") 1)) (u "はい。" ++ [NL]) [])
          (u " 2番 "))
     = [] ++ [flush_listening (mkLData (u "1番") 1) (u "はい。" ++ [NL])].
Proof.
  apply (proj1 (proj2 listening_block_opens_question) [] 0%Z
           (mkLState (Some (mkLData (u "1番") 1)) (u "はい。" ++ [NL]) [])
           (u " 2番 ") (u "2番")).
  - reflexivity.
  - apply question_start_spec. exists (u "2"), []. split; [discriminate|].
    split; [repeat constructor | vm_compute; reflexivity].
  - vm_compute. intros H. repeat (destruct H as [H|H]; [discriminate H|]). exact H.
  - left. vm_compute. reflexivity.
Defined.

(** Counterexample to C2 as the specification states it.  The number is
    the first line of the block, not the part the pattern matched, and the
    seed is what follows the first newline, not what follows the label.  On
    the specification's own example, a block that is only the label seeds
    the accumulated text with the label, which ends up in the dialogue. *)
Lemma first_line_is_the_number :
  map (fun q => (number q, dialogue q, question q))
    (extract_listening_questions
       [[u "1番 abc" ++ [NL] ++ u "def"; u "ghi"]] [])
  = [(u "1番 abc", u "def", u "ghi")]
  /\ u "1番 abc" <> u "1番"
  /\ map dialogue
       (extract_listening_questions
          [[u "1番"; u "店員：いらっしゃいませ"; u "何を買いますか。"]] [])
     = [u "1番" ++ [NL] ++ u "店員：いらっしゃいませ"]
  /\ u "1番" ++ [NL] ++ u "店員：いらっしゃいませ" <> u "店員：いらっしゃいませ".
Proof.
  split; [vm_compute; reflexivity|]. split; [vm_compute; discriminate|].
  split; [vm_compute; reflexivity | vm_compute; discriminate].
Qed.

End ListeningFacts.

(* ===================================================================== *)
(** ** The grammar question: placeholder and ordinal *)
(* ===================================================================== *)

Section GrammarQuestionFacts.

Import Csv.


Lemma scan_spans_eq uls spans : forall full ans,
  scan_spans uls spans full ans
  = (full ++ joined_text spans,
     ans ++ concat (map text (List.filter (fun span => is_span_marked span uls) spans))).
Proof.
  unfold joined_text.
  induction spans as [|span spans IH]; intros full ans; simpl.
  - rewrite !app_nil_r. reflexivity.
  - rewrite IH. destruct (is_span_marked span uls); simpl;
      rewrite <- ?app_assoc; reflexivity.
Qed.

Lemma scan_lines_eq uls lines : forall full ans,
  scan_lines uls lines full ans
  = (full ++ full_text lines, ans ++ marked_text uls lines).
Proof.
  unfold full_text, marked_text.
  induction lines as [|line lines IH]; intros full ans; simpl.
  - rewrite !app_nil_r. reflexivity.
  - rewrite scan_spans_eq, IH, List.filter_app, map_app, concat_app.
    rewrite <- !app_assoc. reflexivity.
Qed.

Lemma m_anchor_later pat s pos caps :
  pos <> 0%nat -> m (Bol :: pat) s pos caps = None.
Proof. intros H. simpl. destruct pos; [contradiction | reflexivity]. Qed.

Lemma sub_go_cons pat c s pos skip :
  sub_go pat (c :: s) pos skip
  = match skip with
    | S k => sub_go pat s (S pos) k
    | O =>
        match m pat (c :: s) pos [] with
        | Some (_, e) =>
            if Nat.ltb pos e then sub_go pat s (S pos) (e - pos - 1)
            else c :: sub_go pat s (S pos) 0
        | None => c :: sub_go pat s (S pos) 0
        end
    end.
Proof. reflexivity. Qed.

Lemma sub_go_anchored_rest pat s : forall pos,
  pos <> 0%nat -> sub_go (Bol :: pat) s pos 0 = s.
Proof.
  induction s as [|c s IH]; intros pos Hpos; [reflexivity|].
  rewrite sub_go_cons, m_anchor_later by exact Hpos.
  rewrite IH by lia. reflexivity.
Qed.

Lemma sub_go_anchored_skip pat s : forall pos k,
  pos <> 0%nat -> (k <= length s)%nat -> sub_go (Bol :: pat) s pos k = skipn k s.
Proof.
  induction s as [|c s IH]; intros pos k Hpos Hk.
  - simpl in Hk. destruct k; [reflexivity | lia].
  - destruct k as [|k].
    + apply sub_go_anchored_rest, Hpos.
    + rewrite sub_go_cons. simpl in Hk. rewrite IH by lia. reflexivity.
Qed.

(** With an anchored pattern, the substitution deletes the match at the
    start of the subject, if there is one. *)
Lemma re_sub_anchored pat s :
  re_sub_empty (Bol :: pat) s
  = match re_match (Bol :: pat) s with
    | Some (_, e) => skipn e s
    | None => s
    end.
Proof.
  unfold re_sub_empty, re_match. destruct s as [|c s].
  - simpl sub_go. destruct (m (Bol :: pat) [] 0 []) as [[caps e]|]; [|reflexivity].
    rewrite skipn_nil. reflexivity.
  - rewrite sub_go_cons.
    destruct (m (Bol :: pat) (c :: s) 0 []) as [[caps e]|] eqn:E.
    + apply m_inv in E as (_ & _ & He). simpl in He.
      destruct e as [|e]; simpl.
      * rewrite sub_go_anchored_rest by lia. reflexivity.
      * rewrite Nat.sub_0_r. apply sub_go_anchored_skip; lia.
    + rewrite sub_go_anchored_rest by lia. reflexivity.
Qed.

Lemma ordinal_rest_fails c s pos caps :
  is_digit c = true -> m [Lit 46; Star is_space] (c :: s) pos caps = None.
Proof.
  intros Hc. simpl. destruct (N.eqb_spec c 46) as [->|_]; [|reflexivity].
  vm_compute in Hc. discriminate Hc.
Qed.

Lemma ordinal_match ds ws rest :
  ds <> [] -> Forall (fun c => is_digit c = true) ds -> all_space ws ->
  (forall c r, rest = c :: r -> is_space c = false) ->
  re_match ordinal_re (ds ++ 46 :: ws ++ rest)
  = Some ([], length (ds ++ 46 :: ws)).
Proof.
  intros Hne Hds Hws Hrest. unfold ordinal_re. rewrite re_match_anchored_plus.
  destruct ds as [|x ds]; [contradiction|]. inversion Hds as [|? ? Hx Hds']; subst.
  cbn [app]. rewrite Hx.
  rewrite (star_whole_run is_digit _ _ 1 [] ordinal_rest_fails).
  rewrite run_length_app, skipn_length_app;
    [|exact Hds' | intros c r E; injection E as <- _; reflexivity].
  cbn [m]. rewrite N.eqb_refl.
  rewrite star_total_run by (intros; discriminate).
  rewrite run_length_app by assumption. cbn [m].
  f_equal. f_equal. cbn [length]. rewrite length_app. cbn [length]. lia.
Qed.

Lemma ordinal_no_match s :
  (forall ds rest, ds <> [] -> Forall (fun c => is_digit c = true) ds ->
                   s <> ds ++ 46 :: rest) ->
  re_match ordinal_re s = None.
Proof.
  intros H. unfold ordinal_re. rewrite re_match_anchored_plus.
  destruct s as [|x s]; [reflexivity|].
  destruct (is_digit x) eqn:Ex; [|reflexivity].
  rewrite (star_whole_run is_digit _ _ 1 [] ordinal_rest_fails).
  pose proof (firstn_skipn (run_length is_digit s) s) as Hsplit.
  destruct (skipn (run_length is_digit s) s) as [|y rest] eqn:Ey; [reflexivity|].
  cbn [m]. destruct (N.eqb_spec y 46) as [->|_]; [|reflexivity].
  exfalso. apply (H (x :: firstn (run_length is_digit s) s) rest).
  - discriminate.
  - constructor; [exact Ex | apply run_length_firstn].
  - simpl. rewrite Hsplit. reflexivity.
Qed.

Lemma strip_ordinal_prefix ds ws rest :
  ds <> [] -> Forall (fun c => is_digit c = true) ds -> all_space ws ->
  (forall c r, rest = c :: r -> is_space c = false) ->
  strip_ordinal (ds ++ 46 :: ws ++ rest) = strip rest.
Proof.
  intros Hne Hds Hws Hrest. unfold strip_ordinal, ordinal_re.
  rewrite re_sub_anchored. fold ordinal_re.
  rewrite ordinal_match by assumption.
  change (ds ++ 46 :: ws ++ rest) with (ds ++ (46 :: ws) ++ rest).
  rewrite app_assoc, skipn_length_app. reflexivity.
Qed.

Lemma strip_ordinal_none s :
  (forall ds rest, ds <> [] -> Forall (fun c => is_digit c = true) ds ->
                   s <> ds ++ 46 :: rest) ->
  strip_ordinal s = strip s.
Proof.
  intros H. unfold strip_ordinal, ordinal_re. rewrite re_sub_anchored.
  fold ordinal_re. rewrite ordinal_no_match by exact H. reflexivity.
Qed.

(** C1, as the scripts have it.  In JLPT-pdf-csv.py the answer of a
    finalized grammar question is the stripped concatenation of its marked
    spans, and the question is the stripped full sentence after (1) the
    replacement of the first occurrence of the answer, if the answer is not
    empty and occurs, by the placeholder, (2) the removal of a leading
    ordinal (digits, a full stop, white space) and (3) a final strip.  For
    the sentence 1.わたし　は　がくせい　です。 with がくせい marked the
    question is わたし　は　 (______) 　です。 (the wide blanks around the
    answer stay).  In JLPT-pdf-csv-grammar.py the question keeps the answer
    in place and only the ordinal is removed. *)
Theorem grammar_question_fields :
  (forall data uls,
      let full := strip (full_text (g_spans data)) in
      let ans := strip (marked_text uls (g_spans data)) in
      exists q,
        process_and_save_grammar_question (Some data) uls = [q]
        /\ answer q = ans
        /\ number q = g_number data
        /\ (ans = [] -> question q = strip_ordinal full)
        /\ (contains ans full = false -> question q = strip_ordinal full)
        /\ (forall pre post,
               ans <> [] -> first_occurrence ans full pre post ->
               question q = strip_ordinal (pre ++ PLACEHOLDER ++ post))
        /\ (full = u "1.わたし　は　がくせい　です。" -> ans = u "がくせい" ->
            question q = u "わたし　は　 (______) 　です。"))
  /\ (forall data uls,
         Grammar.process_and_save_question (Some data) uls
         = [mkQuestion (Grammar.q_type data) (Grammar.q_number data) []
              (strip_ordinal (strip (full_text (Grammar.q_spans data)))) []
              (strip (marked_text uls (Grammar.q_spans data))) (Grammar.q_page data)])
  /\ (forall ds ws rest,
         ds <> [] -> Forall (fun c => is_digit c = true) ds -> all_space ws ->
         (forall c r, rest = c :: r -> is_space c = false) ->
         strip_ordinal (ds ++ 46 :: ws ++ rest) = strip rest)
  /\ (forall s,
         (forall ds rest, ds <> [] -> Forall (fun c => is_digit c = true) ds ->
                          s <> ds ++ 46 :: rest) ->
         strip_ordinal s = strip s).
Proof.
  split; [|split; [|split; [exact strip_ordinal_prefix | exact strip_ordinal_none]]].
  - intros data uls full ans.
    unfold process_and_save_grammar_question.
    rewrite scan_lines_eq. cbn [app]. fold full. fold ans.
    eexists. split; [reflexivity|]. cbn [answer number question].
    split; [reflexivity|]. split; [reflexivity|]. split; [|split; [|split]].
    + intros ->. reflexivity.
    + intros H. destruct (truthy ans); [|reflexivity].
      rewrite replace1_absent by exact H. reflexivity.
    + intros pre post Hne Hocc.
      destruct ans as [|c r] eqn:E; [contradiction|]. cbn [truthy].
      rewrite (replace1_first _ PLACEHOLDER _ pre post Hocc). reflexivity.
    + intros -> ->. vm_compute. reflexivity.
  - intros data uls. unfold Grammar.process_and_save_question.
    rewrite scan_lines_eq. reflexivity.
Qed.

Lemma grammar_question_fields_witness :
  exists q,
    process_and_save_grammar_question (Some (mkGData (u "1") gakusei_spans 1)) [] = [q]
    /\ answer q = u "がくせい"
    /\ question q = u "わたし　は　 (______) 　です。".
Proof.
  destruct (proj1 grammar_question_fields (mkGData (u "1") gakusei_spans 1) [])
    as (q & Hq & Ha & _ & _ & _ & _ & Hex).
  exists q. split; [exact Hq|]. split.
  - rewrite Ha. vm_compute. reflexivity.
  - apply Hex; vm_compute; reflexivity.
Defined.

(** Counterexample to C1 as the specification states it, on its own
    example: the question of JLPT-pdf-csv.py keeps the wide blanks on both
    sides of the placeholder and is not the string the specification gives;
    the question of JLPT-pdf-csv-grammar.py has no placeholder at all. *)
Lemma gakusei_question_keeps_wide_blanks :
  map question
    (process_and_save_grammar_question (Some (mkGData (u "1") gakusei_spans 1)) [])
  = [u "わたし　は　 (______) 　です。"]
  /\ map answer
       (process_and_save_grammar_question (Some (mkGData (u "1") gakusei_spans 1)) [])
     = [u "がくせい"]
  /\ u "わたし　は　 (______) 　です。" <> u "わたし　は (______)  です。"
  /\ map question
       (Grammar.process_and_save_question
          (Some (Grammar.mkQData (u "Grammar/Reading") (u "1") gakusei_spans 1)) [])
     = [u "わたし　は　がくせい　です。"]
  /\ u "わたし　は　がくせい　です。" <> u "わたし　は (______)  です。".
Proof.
  split; [vm_compute; reflexivity|]. split; [vm_compute; reflexivity|].
  split; [vm_compute; discriminate|]. split; [vm_compute; reflexivity|].
  vm_compute. discriminate.
Qed.

End GrammarQuestionFacts.

(* ===================================================================== *)
(** ** More on the listening scan *)
(* ===================================================================== *)

Section ListeningCoverage.

Import Csv.

Lemma listening_block_seen wts page_num st raw :
  seen (listening_block wts page_num st raw)
  = (seen st + if block_starts wts raw then 1 else 0)%nat.
Proof.
  unfold listening_block, block_starts, seen.
  destruct (any_in wts (strip raw)); cbn [negb andb]; [lia|].
  destruct (bool_decide _); cbn [current_question_data l_questions].
  - destruct (current_question_data st); rewrite ?length_app; simpl; lia.
  - destruct (current_question_data st) eqn:E; cbn [current_question_data l_questions];
      rewrite ?E; lia.
Qed.

Lemma listening_fold_seen wts page_num blocks : forall st,
  seen (fold_left (listening_block wts page_num) blocks st)
  = (seen st + length (List.filter (block_starts wts) blocks))%nat.
Proof.
  induction blocks as [|b blocks IH]; intros st; simpl; [lia|].
  rewrite IH, listening_block_seen.
  destruct (block_starts wts b); simpl; lia.
Qed.

Lemma listening_pages_seen wts doc : forall page_num st,
  seen (listening_pages wts page_num doc st)
  = (seen st + length (List.filter (block_starts wts) (concat doc)))%nat.
Proof.
  induction doc as [|blocks doc IH]; intros page_num st; simpl; [lia|].
  rewrite IH, listening_fold_seen, List.filter_app, length_app. lia.
Qed.

(** X1. The listening extractor gives exactly one record per block that
    opens a question (a block that no watermark suppresses and whose
    stripped text starts with digits and 番), the one still open at the end
    of the document included. *)
Theorem listening_one_record_per_start (doc : list (list pystr)) (wts : list pystr) :
  length (extract_listening_questions doc wts)
  = length (List.filter (block_starts wts) (concat doc)).
Proof.
  unfold extract_listening_questions.
  pose proof (listening_pages_seen wts doc 0 (mkLState None [] [])) as H.
  unfold seen at 1 in H. simpl in H. rewrite <- H.
  destruct (current_question_data _); rewrite ?length_app; simpl; lia.
Qed.

Lemma listening_block_skip wts page_num st raw :
  any_in wts (strip raw) = true -> listening_block wts page_num st raw = st.
Proof. intros H. unfold listening_block. rewrite H. reflexivity. Qed.

Lemma listening_fold_filter wts page_num blocks : forall st,
  fold_left (listening_block wts page_num)
    (List.filter (fun raw => negb (block_skipped wts raw)) blocks) st
  = fold_left (listening_block wts page_num) blocks st.
Proof.
  induction blocks as [|b blocks IH]; intros st; simpl; [reflexivity|].
  unfold block_skipped at 1. destruct (any_in wts (strip b)) eqn:E; simpl.
  - rewrite (listening_block_skip _ _ _ _ E). apply IH.
  - apply IH.
Qed.

Lemma any_in_empty_watermark wts text : In [] wts -> any_in wts text = true.
Proof.
  intros H. unfold any_in. apply existsb_exists. exists []. split; [exact H|].
  destruct text; reflexivity.
Qed.

Lemma listening_pages_all_skipped wts doc : In [] wts -> forall page_num st,
  listening_pages wts page_num doc st = st.
Proof.
  intros Hw. induction doc as [|blocks doc IH]; intros page_num st; simpl; [reflexivity|].
  rewrite IH. induction blocks as [|b blocks IHb]; simpl; [reflexivity|].
  rewrite listening_block_skip by (apply any_in_empty_watermark, Hw). exact IHb.
Qed.

(** X2. Watermarked blocks leave no trace in the listening extraction: the
    records of a document are those of the document with every suppressed
    block removed.  An empty string in the watermark list suppresses every
    block, and then no record is extracted. *)
Theorem listening_ignores_watermarked_blocks :
  (forall doc wts,
      extract_listening_questions
        (map (List.filter (fun raw => negb (block_skipped wts raw))) doc) wts
      = extract_listening_questions doc wts)
  /\ (forall doc wts, In [] wts -> extract_listening_questions doc wts = []).
Proof.
  split.
  - intros doc wts. unfold extract_listening_questions.
    assert (H : forall page_num st,
               listening_pages wts page_num
                 (map (List.filter (fun raw => negb (block_skipped wts raw))) doc) st
               = listening_pages wts page_num doc st).
    { induction doc as [|blocks doc IH]; intros page_num st; simpl; [reflexivity|].
      rewrite listening_fold_filter. apply IH. }
    rewrite H. reflexivity.
  - intros doc wts Hw. unfold extract_listening_questions.
    rewrite listening_pages_all_skipped by exact Hw. reflexivity.
Qed.

Lemma listening_ignores_watermarked_blocks_witness :
  extract_listening_questions [[u "1番"; u "Mogi"; u "何を買いますか。"]] [u "x"; []] = [].
Proof.
  apply (proj2 listening_ignores_watermarked_blocks). right. left. reflexivity.
Defined.

Lemma split_parts_no_sep sep s p : In p (split sep s) -> ~ In sep p.
Proof.
  revert p. induction s as [|c s IH]; intros p; simpl.
  - intros [<-|[]] [].
  - destruct (N.eqb_spec c sep) as [->|Hc].
    + intros [<-|H]; [intros [] | apply IH, H].
    + pose proof (split_not_nil sep s) as Hne.
      destruct (split sep s) as [|p0 ps]; [contradiction|].
      intros [<-|H].
      * intros [E|E]; [exact (Hc E)|]. apply (IH p0); [left; reflexivity | exact E].
      * apply IH. right. exact H.
Qed.

Lemma last_in {A} (l : list A) d : l <> [] -> In (List.last l d) l.
Proof.
  intros H. destruct (exists_last H) as (l' & x & ->).
  rewrite last_last. apply in_or_app. right. left. reflexivity.
Qed.

Lemma split_single sep s x : split sep s = [x] -> ~ In sep s.
Proof.
  intros H. pose proof (join_split sep s) as Hj. rewrite H in Hj. simpl in Hj.
  subst x. apply (split_parts_no_sep sep s s). rewrite H. left. reflexivity.
Qed.

Lemma flush_listening_no_newline d fd : ~ In NL (question (flush_listening d fd)).
Proof.
  unfold flush_listening.
  destruct (1 <? length (split NL (strip fd)))%nat eqn:E; cbn [question].
  - apply (split_parts_no_sep NL (strip fd)), last_in, split_not_nil.
  - pose proof (split_not_nil NL (strip fd)) as Hne.
    destruct (split NL (strip fd)) as [|x [|y l]] eqn:Es; [contradiction| |discriminate E].
    eapply split_single, Es.
Qed.

Lemma listening_shape_mono n n' q :
  (n <= n')%Z -> listening_shape n q -> listening_shape n' q.
Proof. intros Hn (H1 & H2 & H3 & H4 & H5). repeat split; try assumption; lia. Qed.

Lemma flush_listening_shape n d fd :
  (1 <= l_source_page d <= n)%Z -> listening_shape n (flush_listening d fd).
Proof.
  intros Hp. split; [|split; [|split; [|split]]].
  - unfold flush_listening. destruct (1 <? _)%nat; reflexivity.
  - unfold flush_listening. destruct (1 <? _)%nat; reflexivity.
  - unfold flush_listening. destruct (1 <? _)%nat; reflexivity.
  - apply flush_listening_no_newline.
  - unfold flush_listening. destruct (1 <? _)%nat; exact Hp.
Qed.

Lemma listening_shape_flush n st :
  listening_shape_inv n st ->
  Forall (listening_shape n)
    match current_question_data st with
    | Some d => l_questions st ++ [flush_listening d (full_dialogue st)]
    | None => l_questions st
    end.
Proof.
  intros [Hq Hd]. destruct (current_question_data st) as [d|]; [|exact Hq].
  apply Forall_app. split; [exact Hq|]. constructor; [|constructor].
  apply flush_listening_shape, Hd. reflexivity.
Qed.

Lemma listening_block_shape n wts page_num st raw :
  (0 <= page_num < n)%Z ->
  listening_shape_inv n st -> listening_shape_inv n (listening_block wts page_num st raw).
Proof.
  intros Hp Hinv. unfold listening_block.
  destruct (any_in wts (strip raw)); [exact Hinv|].
  destruct (bool_decide _).
  - split; cbn [l_questions current_question_data]; [apply listening_shape_flush, Hinv|].
    intros d Hd. injection Hd as <-. cbn [l_source_page]. lia.
  - destruct (current_question_data st) as [d|] eqn:Ed; [|exact Hinv].
    destruct Hinv as [Hq Hd]. split; cbn [l_questions current_question_data]; [exact Hq|].
    intros d' Hd'. injection Hd' as <-. apply Hd, Ed.
Qed.

Lemma listening_pages_shape wts doc : forall n page_num st,
  (0 <= page_num)%Z -> (page_num + Z.of_nat (length doc) <= n)%Z ->
  listening_shape_inv n st -> listening_shape_inv n (listening_pages wts page_num doc st).
Proof.
  induction doc as [|blocks doc IH]; intros n page_num st H0 Hn Hinv;
    cbn [listening_pages]; [exact Hinv|].
  cbn [length] in Hn. apply IH; [lia | lia |].
  revert st Hinv. induction blocks as [|b blocks IHb]; intros st Hinv; simpl; [exact Hinv|].
  apply IHb, listening_block_shape; [lia | exact Hinv].
Qed.

(** X3. Every listening record has the type Listening, no answer and no
    choices, a question without a newline in it, and a source page between
    1 and the number of pages of the document. *)
Theorem listening_record_shape (doc : list (list pystr)) (wts : list pystr) (q : Question) :
  In q (extract_listening_questions doc wts) ->
  type q = u "Listening" /\ choices q = [] /\ answer q = []
  /\ ~ In NL (question q)
  /\ (1 <= source_page q <= Z.of_nat (length doc))%Z.
Proof.
  intros Hin.
  assert (Hall : Forall (listening_shape (Z.of_nat (length doc)))
                   (extract_listening_questions doc wts)).
  { apply listening_shape_flush, listening_pages_shape; [lia | lia |].
    split; cbn [l_questions current_question_data]; [constructor | discriminate]. }
  rewrite List.Forall_forall in Hall. apply (Hall q Hin).
Qed.

Lemma listening_record_shape_witness :
  (1 <= source_page (mkQuestion (u "Listening") (u "2番") [] (u "どこですか。") [] [] 2) <= 2)%Z.
Proof.
  apply (listening_record_shape
           [[u "前書き"]; [u "2番" ++ [NL] ++ u "どこですか。"]] []
           (mkQuestion (u "Listening") (u "2番") [] (u "どこですか。") [] [] 2)).
  left. vm_compute. reflexivity.
Defined.

(** X4. The flush loses nothing of the stripped accumulated text: with a
    newline in it, dialogue, newline and question put together give it
    back; without one, the question is the whole of it and the dialogue is
    empty. *)
Theorem flush_listening_reassembles (d : LData) (fd : pystr) :
  (In NL (strip fd) ->
   dialogue (flush_listening d fd) ++ [NL] ++ question (flush_listening d fd)
   = strip fd)
  /\ (~ In NL (strip fd) ->
      dialogue (flush_listening d fd) = []
      /\ question (flush_listening d fd) = strip fd)
  /\ number (flush_listening d fd) = l_number d
  /\ source_page (flush_listening d fd) = l_source_page d.
Proof.
  split; [|split; [|split]].
  - intros Hin. destruct (last_sep_decompose NL _ Hin) as (a & b & E & Hb).
    rewrite (flush_listening_many d fd a b E Hb). cbn [dialogue question].
    rewrite E. reflexivity.
  - intros Hno. rewrite (flush_listening_one d fd Hno). split; reflexivity.
  - unfold flush_listening. destruct (1 <? _)%nat; reflexivity.
  - unfold flush_listening. destruct (1 <? _)%nat; reflexivity.
Qed.

Lemma flush_listening_reassembles_witness :
  dialogue (flush_listening (mkLData (u "1番") 1) (u "a" ++ [NL] ++ u "b" ++ [NL]))
  ++ [NL]
  ++ question (flush_listening (mkLData (u "1番") 1) (u "a" ++ [NL] ++ u "b" ++ [NL]))
  = strip (u "a" ++ [NL] ++ u "b" ++ [NL]).
Proof.
  apply (proj1 (flush_listening_reassembles (mkLData (u "1番") 1)
                  (u "a" ++ [NL] ++ u "b" ++ [NL]))).
  vm_compute. right. left. reflexivity.
Defined.

End ListeningCoverage.

(* ===================================================================== *)
(** ** More on the grammar / vocabulary scan *)
(* ===================================================================== *)

Section ScanCoverage.

Import Csv.

Lemma Forall_concat_inv {A} (Q : A -> Prop) (ls : list (list A)) :
  Forall Q (concat ls) -> Forall (Forall Q) ls.
Proof.
  induction ls as [|l ls IH]; simpl; intros H; [constructor|].
  apply Forall_app in H as [H1 H2]. constructor; [exact H1 | apply IH, H2].
Qed.

(** A loop whose body goes on, and keeps [I], on every element that
    satisfies [Q]. *)
Lemma for_each_next {A} (body : State -> A -> result) (I : State -> Prop)
      (Q : A -> Prop) (l : list A) :
  (forall st a, I st -> Q a -> exists st', body st a = Next st' /\ I st') ->
  Forall Q l -> forall st, I st -> exists st', for_each body l st = Next st' /\ I st'.
Proof.
  intros Hbody Hl. induction Hl as [|a l Ha _ IH]; intros st HI; simpl.
  - exists st. auto.
  - destruct (Hbody st a HI Ha) as (st' & -> & HI'). simpl. apply IH, HI'.
Qed.

Lemma scan_block_next wts uls page_num (I : State -> Prop) (Q : Line -> Prop) block :
  (forall st line, I st -> Q line ->
                   exists st', scan_line wts uls page_num st line = Next st' /\ I st') ->
  Forall Q (block_lines block) ->
  forall st, I st -> exists st', scan_block wts uls page_num st block = Next st' /\ I st'.
Proof.
  intros Hstep HQ st HI. destruct block as [lines|]; simpl in *.
  - eapply for_each_next; eauto.
  - exists st. auto.
Qed.

(** The scan of the pages goes on, and keeps [I], when every line
    satisfies [Q], the body keeps [I] on such lines and [I] does not depend
    on the underlines. *)
Lemma scan_pages_next wts (I : State -> Prop) (Q : Line -> Prop) :
  (forall uls page_num st line,
      I st -> Q line ->
      exists st', scan_line wts uls page_num st line = Next st' /\ I st') ->
  (forall st uls,
      I st -> I (mkState (section st) (current_mondai st) (current_grammar_q_data st)
                   (questions st) uls)) ->
  forall doc, Forall Q (doc_lines doc) ->
  forall page_num st, I st ->
  exists st', scan_pages wts page_num doc st = Next st' /\ I st'.
Proof.
  intros Hstep Hstable doc. induction doc as [|page doc IH]; intros HQ page_num st HI.
  - exists st. auto.
  - unfold doc_lines in HQ. cbn [map concat] in HQ.
    apply Forall_app in HQ as [Hpage Hrest]. cbn [scan_pages].
    destruct (for_each_next
                (scan_block wts (get_underlines (drawings page)) page_num)
                I (fun block => Forall Q (block_lines block)) (blocks page))
      with (st := mkState (section st) (current_mondai st) (current_grammar_q_data st)
                    (questions st) (Some (get_underlines (drawings page))))
      as (st' & Hst' & HI').
    + intros st0 block HI0 HQb. eapply scan_block_next; eauto.
    + apply Forall_concat_inv in Hpage.
      rewrite List.Forall_map in Hpage. exact Hpage.
    + apply Hstable, HI.
    + rewrite Hst'. cbn [bind]. apply IH; [exact Hrest | exact HI'].
Qed.

Lemma nothing_yet_extract doc wts :
  (exists st', scan_pages wts 0 doc (mkState vocab 0 None [] None) = Next st'
               /\ nothing_yet st') ->
  extract_grammar_vocab_questions doc wts = [].
Proof.
  intros (st' & Hst & Hq & Hd).
  unfold extract_grammar_vocab_questions, scan_document. rewrite Hst. cbn [bind].
  destruct (underlines st'); [|exact Hq].
  unfold flush. cbn [questions]. rewrite Hq, Hd. reflexivity.
Qed.

Lemma scan_line_before_header wts uls page_num st line :
  current_mondai st = 0%Z /\ nothing_yet st -> no_header line ->
  exists st', scan_line wts uls page_num st line = Next st'
              /\ (current_mondai st' = 0%Z /\ nothing_yet st').
Proof.
  intros (Hm & Hq & Hd) Hno. unfold no_header, stripped_text in Hno.
  unfold scan_line. rewrite Hno.
  destruct (any_in wts _); [eexists; split; [reflexivity|]; repeat split; assumption|].
  destruct (contains (u "もじ・ごい") _).
  { eexists. split; [reflexivity|]. unfold flush, nothing_yet.
    cbn [current_mondai questions current_grammar_q_data].
    rewrite Hq, Hd. repeat split; assumption. }
  destruct (contains (u "ぶんぽう・どっかい") _).
  { eexists. split; [reflexivity|]. unfold nothing_yet.
    cbn [current_mondai questions current_grammar_q_data]. repeat split; assumption. }
  rewrite Hm. cbn [Z.eqb orb].
  eexists. split; [reflexivity|]. repeat split; assumption.
Qed.

(** X5. Until a mondai header (問題 and digits at the start of a line) is
    read, the scan emits nothing: a document without such a line gives no
    record, whatever else it holds. *)
Theorem no_header_no_record (doc : list Page) (wts : list pystr) :
  Forall no_header (doc_lines doc) ->
  extract_grammar_vocab_questions doc wts = [].
Proof.
  intros H. apply nothing_yet_extract.
  destruct (scan_pages_next wts
              (fun st => current_mondai st = 0%Z /\ nothing_yet st) no_header)
    with (doc := doc) (page_num := 0%Z) (st := mkState vocab 0 None [] None)
    as (st' & Hst & _ & Hn).
  - intros uls page_num st line. apply scan_line_before_header.
  - intros st uls HI. exact HI.
  - exact H.
  - repeat split.
  - exists st'. auto.
Qed.

Lemma no_header_no_record_witness :
  extract_grammar_vocab_questions
    (one_block [plain_line "もじ・ごい"; plain_line "1.あめ「雨」"; plain_line "2.a=b"]) []
  = [].
Proof.
  apply no_header_no_record.
  repeat (constructor; [vm_compute; reflexivity|]). constructor.
Defined.

Lemma scan_line_skipped wts uls page_num st line :
  line_skipped wts line = true -> scan_line wts uls page_num st line = Next st.
Proof.
  unfold line_skipped, stripped_text. intros H. unfold scan_line. rewrite H. reflexivity.
Qed.

Lemma for_each_drop_skipped wts uls page_num lines : forall st,
  for_each (scan_line wts uls page_num)
    (List.filter (fun line => negb (line_skipped wts line)) lines) st
  = for_each (scan_line wts uls page_num) lines st.
Proof.
  induction lines as [|line lines IH]; intros st; [reflexivity|].
  cbn [List.filter for_each]. destruct (line_skipped wts line) eqn:E; cbn [negb].
  - rewrite (scan_line_skipped _ _ _ _ _ E). cbn [bind]. apply IH.
  - cbn [for_each]. destruct (scan_line wts uls page_num st line); cbn [bind];
      [apply IH | reflexivity].
Qed.

Lemma for_each_map_ext {A B} (body : State -> A -> result) (body' : State -> B -> result)
      (f : B -> A) (l : list B) :
  (forall st b, body st (f b) = body' st b) ->
  forall st, for_each body (map f l) st = for_each body' l st.
Proof.
  intros H. induction l as [|b l IH]; intros st; [reflexivity|].
  cbn [map for_each]. rewrite H. destruct (body' st b); cbn [bind]; [apply IH | reflexivity].
Qed.

Lemma scan_block_drop_skipped wts uls page_num st block :
  scan_block wts uls page_num st (drop_skipped_block wts block)
  = scan_block wts uls page_num st block.
Proof. destruct block; simpl; [apply for_each_drop_skipped | reflexivity]. Qed.

Lemma scan_pages_drop_skipped wts doc : forall page_num st,
  scan_pages wts page_num (drop_skipped wts doc) st = scan_pages wts page_num doc st.
Proof.
  induction doc as [|page doc IH]; intros page_num st; [reflexivity|].
  cbn [drop_skipped map scan_pages drawings blocks].
  rewrite (for_each_map_ext _ _ _ _ (fun st b => scan_block_drop_skipped wts _ page_num st b)).
  destruct (for_each _ (blocks page) _); cbn [bind]; [apply IH | reflexivity].
Qed.

Lemma scan_line_all_skipped wts uls page_num st line :
  In [] wts -> nothing_yet st -> True ->
  exists st', scan_line wts uls page_num st line = Next st' /\ nothing_yet st'.
Proof.
  intros Hw Hn _. exists st. split; [|exact Hn].
  apply scan_line_skipped, any_in_empty_watermark, Hw.
Qed.

(** X6. Watermarked lines leave no trace in the grammar / vocabulary
    extraction: the records of a document are those of the document with
    every suppressed line removed.  An empty string in the watermark list
    suppresses every line, and then no record is extracted. *)
Theorem scan_ignores_watermarked_lines :
  (forall doc wts,
      extract_grammar_vocab_questions (drop_skipped wts doc) wts
      = extract_grammar_vocab_questions doc wts)
  /\ (forall doc wts, In [] wts -> extract_grammar_vocab_questions doc wts = []).
Proof.
  split.
  - intros doc wts. unfold extract_grammar_vocab_questions, scan_document.
    rewrite scan_pages_drop_skipped. reflexivity.
  - intros doc wts Hw. apply nothing_yet_extract.
    apply (scan_pages_next wts nothing_yet (fun _ => True)).
    + intros uls page_num st line Hn HT. apply scan_line_all_skipped; assumption.
    + intros st uls Hn. exact Hn.
    + apply List.Forall_forall. intros; exact I.
    + split; reflexivity.
Qed.

Lemma scan_ignores_watermarked_lines_witness :
  extract_grammar_vocab_questions
    (one_block [plain_line "問題4"; plain_line "1.x=y"]) [u "Mogi"; []]
  = [].
Proof.
  apply (proj2 scan_ignores_watermarked_lines). right. left. reflexivity.
Defined.

Lemma synonym_raises page_num line_text e :
  synonym page_num line_text = inl e ->
  e = IndexError
  /\ exists left right,
      line_text = left ++ 61 :: right /\ ~ In 61 left /\ ~ In 46 left.
Proof.
  unfold synonym.
  destruct (in_dec N.eq_dec 61 line_text) as [Hin|Hno].
  - destruct (first_sep_decompose 61 line_text Hin) as (left & right & -> & Hl).
    rewrite split1_first by exact Hl. cbn [length Nat.eqb hd nth].
    destruct (in_dec N.eq_dec 46 left) as [Hs|Hs].
    + destruct (first_sep_decompose 46 left Hs) as (a & b & -> & Ha).
      rewrite split1_first by exact Ha. discriminate.
    + rewrite (split1_no_sep 46 left Hs). cbn [nth_error].
      intros H. injection H as <-. split; [reflexivity|]. exists left, right. auto.
  - rewrite (split1_no_sep 61 line_text Hno). discriminate.
Qed.

Lemma scan_line_underlines_bound wts uls page_num st line :
  is_Some (underlines st) -> underlines_bound (scan_line wts uls page_num st line).
Proof.
  intros Hu. unfold scan_line.
  repeat match goal with
         | |- underlines_bound (if ?b then _ else _) => destruct b
         | |- underlines_bound (match ?o with Some _ => _ | None => _ end) => destruct o
         | |- underlines_bound (match section st with vocab => _ | grammar => _ end) =>
             destruct (section st)
         | |- underlines_bound (Next _) => exact Hu
         | |- underlines_bound (Raised _ _) => exact I
         end.
  destruct (synonym page_num _) as [e|qs]; [exact I | exact Hu].
Qed.

Lemma for_each_underlines_bound {A} (body : State -> A -> result) (l : list A) :
  (forall st a, is_Some (underlines st) -> underlines_bound (body st a)) ->
  forall st, is_Some (underlines st) -> underlines_bound (for_each body l st).
Proof.
  intros Hbody. induction l as [|a l IH]; intros st Hu; [exact Hu|].
  cbn [for_each]. specialize (Hbody st a Hu).
  destruct (body st a); cbn [bind]; [apply IH, Hbody | exact I].
Qed.

Lemma scan_pages_underlines_bound wts doc : forall page_num st,
  doc <> [] \/ is_Some (underlines st) ->
  underlines_bound (scan_pages wts page_num doc st).
Proof.
  induction doc as [|page doc IH]; intros page_num st H.
  - destruct H as [H|H]; [contradiction | exact H].
  - cbn [scan_pages].
    match goal with
    | |- underlines_bound (bind ?r _) => assert (Hr : underlines_bound r)
    end.
    { apply for_each_underlines_bound; [|eexists; reflexivity].
      intros st0 block Hu. destruct block; cbn [scan_block]; [|exact Hu].
      apply for_each_underlines_bound; [|exact Hu].
      intros; apply scan_line_underlines_bound; assumption. }
    match goal with
    | |- underlines_bound (bind ?r _) => destruct r as [st'|e st']
    end; cbn [bind]; [|exact I].
    apply IH. right. exact Hr.
Qed.

Lemma py_int_raises s : py_int s = None -> (INT_MAX_STR_DIGITS < length s)%nat.
Proof.
  unfold py_int. destruct (INT_MAX_STR_DIGITS <? length s)%nat eqn:E; [|discriminate].
  intros _. apply Nat.ltb_lt, E.
Qed.

Lemma py_int_returns s :
  (length s <= INT_MAX_STR_DIGITS)%nat -> exists n, py_int s = Some n.
Proof.
  intros H. unfold py_int.
  destruct (INT_MAX_STR_DIGITS <? length s)%nat eqn:E; [|eexists; reflexivity].
  apply Nat.ltb_lt in E. lia.
Qed.

(** The line is to blame when the body of the loop raises. *)
Lemma scan_line_raises wts uls page_num st line e st' :
  scan_line wts uls page_num st line = Raised e st' -> raises_on line e.
Proof.
  unfold scan_line. fold (stripped_text line).
  destruct (any_in wts _); [discriminate|].
  destruct (contains (u "もじ・ごい") _); [discriminate|].
  destruct (contains (u "ぶんぽう・どっかい") _); [discriminate|].
  destruct (re_match mondai_re (stripped_text line)) as [mm|] eqn:Em.
  { destruct (py_int _) as [n|] eqn:En; [discriminate|].
    intros H. injection H as <- _. right. split; [reflexivity|].
    intros Hshort. specialize (Hshort mm Em). apply py_int_raises in En. lia. }
  destruct ((current_mondai st =? 0)%Z || _); [discriminate|].
  destruct (section st).
  - repeat match goal with
           | |- (if ?b then _ else _) = _ -> _ => destruct b; [discriminate|]
           end.
    destruct (_ && contains [61] _); [|destruct (_ && _); discriminate].
    destruct (synonym page_num _) as [e'|qs] eqn:Es; [|discriminate].
    intros H. injection H as <- _.
    apply synonym_raises in Es as (-> & left & right & Ht & Hl & Hs).
    left. split; [reflexivity|]. intros Hstop. apply Hs, (Hstop left right Ht Hl).
  - destruct (re_match new_question_re _); [discriminate|].
    destruct (current_grammar_q_data st); discriminate.
Qed.

Lemma for_each_raises {A} (body : State -> A -> result) (Q : A -> exn -> Prop)
      (l : list A) :
  (forall st a e st', body st a = Raised e st' -> Q a e) ->
  forall st e st', for_each body l st = Raised e st' -> exists a, In a l /\ Q a e.
Proof.
  intros Hbody. induction l as [|a l IH]; intros st e st' H; [discriminate H|].
  cbn [for_each] in H. destruct (body st a) as [st1|e1 st1] eqn:E; cbn [bind] in H.
  - destruct (IH _ _ _ H) as (a' & Hin & HQ). exists a'. split; [right; exact Hin | exact HQ].
  - injection H as <- _. exists a. split; [left; reflexivity | eapply Hbody, E].
Qed.

Lemma scan_pages_raises wts doc : forall page_num st e st',
  scan_pages wts page_num doc st = Raised e st' ->
  exists line, In line (doc_lines doc) /\ raises_on line e.
Proof.
  induction doc as [|page doc IH]; intros page_num st e st' H; [discriminate H|].
  cbn [scan_pages] in H. unfold doc_lines. cbn [map concat].
  match type of H with
  | bind ?r _ = _ => destruct r as [st1|e1 st1] eqn:E
  end; cbn [bind] in H.
  - destruct (IH _ _ _ _ H) as (line & Hin & Hr). exists line.
    split; [apply in_or_app; right; exact Hin | exact Hr].
  - injection H as <- _.
    apply (for_each_raises _
             (fun block e => exists line, In line (block_lines block) /\ raises_on line e))
      in E as (block & Hb & line & Hl & Hr).
    + exists line. split; [|exact Hr]. apply in_or_app. left.
      apply in_concat. exists (block_lines block). split; [|exact Hl].
      apply in_map. exact Hb.
    + intros st0 block e0 st0' H0. destruct block as [lines|]; [|discriminate H0].
      cbn [scan_block] in H0. cbn [block_lines].
      eapply for_each_raises; [|exact H0].
      intros st2 line e2 st2'. apply scan_line_raises.
Qed.

Lemma first_sep_unique (sep : N) a : forall a' b b',
  a ++ sep :: b = a' ++ sep :: b' -> ~ In sep a -> ~ In sep a' -> a = a'.
Proof.
  induction a as [|c a IH]; intros a' b b' H Ha Ha'.
  - destruct a' as [|c' a']; [reflexivity|]. simpl in H. injection H as <- _.
    exfalso. apply Ha'. left. reflexivity.
  - destruct a' as [|c' a']; simpl in H.
    + injection H as -> _. exfalso. apply Ha. left. reflexivity.
    + injection H as <- H. f_equal. apply (IH a' b b' H).
      * intros Hin. apply Ha. right. exact Hin.
      * intros Hin. apply Ha'. right. exact Hin.
Qed.

Lemma stop_before_equals_none line :
  ~ In 61 (stripped_text line) -> stop_before_equals line.
Proof.
  intros Hno left right H _. exfalso. apply Hno. rewrite H.
  apply in_or_app. right. left. reflexivity.
Qed.

Lemma stop_before_equals_found line a b :
  stripped_text line = a ++ 61 :: b -> ~ In 61 a -> In 46 a ->
  stop_before_equals line.
Proof.
  intros Ht Ha Hs left right H Hl. rewrite Ht in H.
  rewrite <- (first_sep_unique 61 a left b right H Ha Hl). exact Hs.
Qed.

(** X7. What makes the scan raise.  On a document without pages it is
    the NameError of the final flush.  Otherwise an exception is raised at
    a line of the document: the IndexError of the synonym branch, at a line
    with an equals sign and no full stop before the first one, or the
    ValueError of the conversion of a mondai number with more digits than
    the limit of [int].  When no line is of either kind the scan of a
    document with at least one page runs to its end. *)
Theorem scan_raises_at_a_line (doc : list Page) (wts : list pystr) :
  (forall e st, scan_document doc wts = Raised e st ->
                (doc = [] /\ e = NameError)
                \/ exists line, In line (doc_lines doc)
                                /\ ((e = IndexError /\ ~ stop_before_equals line)
                                    \/ (e = ValueError /\ ~ short_header line)))
  /\ (doc <> [] ->
      Forall stop_before_equals (doc_lines doc) ->
      Forall short_header (doc_lines doc) ->
      exists st, scan_document doc wts = Next st).
Proof.
  assert (Hblame : forall e st, scan_document doc wts = Raised e st ->
            (doc = [] /\ e = NameError)
            \/ exists line, In line (doc_lines doc) /\ raises_on line e).
  { intros e st. unfold scan_document.
    pose proof (scan_pages_underlines_bound wts doc 0 (mkState vocab 0 None [] None))
      as Hr.
    destruct (scan_pages wts 0 doc _) as [st'|e' st'] eqn:E; cbn [bind].
    - destruct doc as [|page doc].
      + cbn in E. injection E as <-. cbn. intros H. injection H as <- _. left. auto.
      + destruct Hr as [uls Hu]; [left; discriminate|]. rewrite Hu. discriminate.
    - intros H. injection H as <- _. right. eapply scan_pages_raises, E. }
  split; [exact Hblame|].
  intros Hne Hstop Hshort.
  destruct (scan_document doc wts) as [st|e st] eqn:E; [exists st; reflexivity|].
  exfalso. destruct (Hblame e st eq_refl) as [[Hd _]|(line & Hin & Hr)];
    [contradiction|].
  rewrite List.Forall_forall in Hstop, Hshort.
  destruct Hr as [[_ Hr]|[_ Hr]]; [apply Hr, Hstop, Hin | apply Hr, Hshort, Hin].
Qed.

Lemma short_header_none line :
  re_match mondai_re (stripped_text line) = None -> short_header line.
Proof. intros H r Hr. rewrite H in Hr. discriminate Hr. Qed.

Lemma scan_raises_at_a_line_witness :
  exists st,
    scan_document (one_block [plain_line "問題4"; plain_line "1.x=y"; plain_line "abc"]) []
    = Next st.
Proof.
  apply (proj2 (scan_raises_at_a_line
                  (one_block [plain_line "問題4"; plain_line "1.x=y"; plain_line "abc"]) [])).
  - discriminate.
  - repeat constructor.
    + apply stop_before_equals_none. vm_compute.
      intros H; repeat (destruct H as [H|H]; [discriminate H|]); exact H.
    + apply (stop_before_equals_found _ (u "1.x") (u "y")).
      * vm_compute. reflexivity.
      * vm_compute. intros H; repeat (destruct H as [H|H]; [discriminate H|]); exact H.
      * vm_compute. right. left. reflexivity.
    + apply stop_before_equals_none. vm_compute.
      intros H; repeat (destruct H as [H|H]; [discriminate H|]); exact H.
  - constructor; [|constructor; [|constructor; [|constructor]]].
    + intros r Hr. vm_compute in Hr. injection Hr as <-.
      apply Nat.leb_le. vm_compute. reflexivity.
    + apply short_header_none. vm_compute. reflexivity.
    + apply short_header_none. vm_compute. reflexivity.
Defined.

(** X8. The synonym branch, case by case.  Without an equals sign it
    emits nothing.  With the number, a full stop, the prompt, an equals
    sign and the answer, it emits the three stripped (the prompt may hold
    further full stops, the answer further equals signs).  With an equals
    sign and no full stop before the first one, it raises IndexError. *)
Theorem synonym_cases (page_num : Z) :
  (forall line_text, ~ In 61 line_text -> synonym page_num line_text = inr [])
  /\ (forall num prompt ans,
         ~ In 46 num -> ~ In 61 num -> ~ In 61 prompt ->
         synonym page_num (num ++ 46 :: prompt ++ 61 :: ans)
         = inr [mkQuestion (u "Synonym") (strip num) [] (strip prompt) []
                  (strip ans) (page_num + 1)])
  /\ (forall left right,
         ~ In 61 left -> ~ In 46 left ->
         synonym page_num (left ++ 61 :: right) = inl IndexError).
Proof.
  split; [|split].
  - intros lt Hno. unfold synonym. rewrite (split1_no_sep 61 lt Hno). reflexivity.
  - intros num prompt ans Hs He Hp. unfold synonym.
    change (num ++ 46 :: prompt ++ 61 :: ans) with (num ++ (46 :: prompt) ++ 61 :: ans).
    rewrite app_assoc, split1_first.
    2:{ intros Hin. apply in_app_or in Hin as [Hin|[Hin|Hin]];
          [exact (He Hin) | discriminate Hin | exact (Hp Hin)]. }
    cbn [length Nat.eqb hd nth].
    rewrite split1_first by exact Hs. cbn [nth_error].
    rewrite split_app, (split_no_sep 46 num Hs). reflexivity.
  - intros left right He Hs. unfold synonym.
    rewrite split1_first by exact He. cbn [length Nat.eqb hd nth].
    rewrite (split1_no_sep 46 left Hs). reflexivity.
Qed.

Lemma synonym_cases_witness :
  synonym 0 (u "3" ++ 46 :: u " おおきい" ++ 61 :: u " でかい")
  = inr [mkQuestion (u "Synonym") (strip (u "3")) [] (strip (u " おおきい")) []
           (strip (u " でかい")) (0 + 1)].
Proof.
  apply (proj1 (proj2 (synonym_cases 0)) (u "3") (u " おおきい") (u " でかい"));
    vm_compute; intros H; repeat (destruct H as [H|H]; [discriminate H|]); exact H.
Defined.

(** A group of one or more class characters that opens the pattern holds
    characters of the class only. *)
Lemma first_group_class cls pat s pos r subject :
  m (Open :: Plus cls :: Close :: pat) s pos [] = Some r ->
  s = skipn pos subject ->
  group subject r 1 <> [] /\ Forall (fun c => cls c = true) (group subject r 1).
Proof.
  simpl. destruct s as [|x s]; [discriminate|].
  destruct (cls x) eqn:Ex; [|discriminate].
  intros H Hs. apply star_inv in H as (n & Hn & Hall & H). simpl in H.
  apply m_inv in H as ((ext & Hext) & _ & _).
  unfold group. rewrite Hext. simpl.
  replace (S (pos + n) - pos)%nat with (S n) by lia.
  rewrite <- Hs. simpl. split; [discriminate | constructor; assumption].
Qed.

Lemma digits_no_stop ds : Forall (fun c => is_digit c = true) ds -> ~ In 46 ds.
Proof.
  intros H Hin. rewrite List.Forall_forall in H. specialize (H _ Hin).
  vm_compute in H. discriminate H.
Qed.

Lemma numbered_spec s :
  is_Some (re_match numbered_re s) ->
  exists ds rest, digit_string ds /\ s = ds ++ 46 :: rest.
Proof.
  unfold numbered_re. rewrite re_match_anchored_plus.
  assert (Hk : forall c s' pos' caps',
             is_digit c = true -> m [Lit 46] (c :: s') pos' caps' = None).
  { intros c s' pos' caps' Hc. simpl.
    destruct (N.eqb_spec c 46) as [->|_]; [|reflexivity].
    vm_compute in Hc. discriminate Hc. }
  destruct s as [|x s]; [intros [r Hr]; discriminate|].
  destruct (is_digit x) eqn:Ex; [|intros [r Hr]; discriminate].
  rewrite (star_whole_run is_digit _ s 1 [] Hk). intros [r Hr].
  pose proof (firstn_skipn (run_length is_digit s) s) as Hsplit.
  destruct (skipn (run_length is_digit s) s) as [|y rest] eqn:Ey; [discriminate Hr|].
  simpl in Hr. destruct (N.eqb_spec y 46) as [->|_]; [|discriminate Hr].
  exists (x :: firstn (run_length is_digit s) s), rest. split.
  - split; [discriminate|]. constructor; [exact Ex | apply run_length_firstn].
  - simpl. rewrite Hsplit. reflexivity.
Qed.

(** X9. Every grammar / vocabulary record has an empty dialogue and empty
    choices, and one of the five types.  The number of a Grammar/Reading, a
    Fill-in-the-Blank and a Vocabulary (Kanji/Kana) record is a string of
    one or more decimal digits. *)
Theorem vocab_record_shape (doc : list Page) (wts : list pystr) (q : Question) :
  In q (extract_grammar_vocab_questions doc wts) ->
  dialogue q = [] /\ choices q = []
  /\ ((type q = u "Grammar/Reading" /\ digit_string (number q))
      \/ (type q = u "Fill-in-the-Blank" /\ digit_string (number q))
      \/ (type q = u "Vocabulary (Kanji/Kana)" /\ digit_string (number q))
      \/ type q = u "Synonym"
      \/ type q = u "Sentence Construction").
Proof.
  intros Hin.
  assert (Hall : Forall vocab_shape (extract_grammar_vocab_questions doc wts));
    [|rewrite List.Forall_forall in Hall; apply (Hall q Hin)].
  apply extract_grammar_vocab_questions_inv with (D := digit_string).
  - intros d uls Hd. apply List.Forall_forall. intros q' Hq'.
    simpl in Hq'. destruct (scan_lines uls (g_spans d) [] []).
    destruct Hq' as [<-|[]]. split; [reflexivity|]. split; [reflexivity|].
    left. split; [reflexivity | exact Hd].
  - intros lt r Hr. unfold re_match, new_question_re in Hr.
    change (m (Open :: Plus is_digit :: Close :: [Lit 46]) lt 0 [] = Some r) in Hr.
    eapply first_group_class; [exact Hr | reflexivity].
  - intros uls pn line lt Hm.
    destruct (numbered_spec lt Hm) as (ds & rest & Hds & ->).
    unfold fill_in_the_blank. destruct (scan_spans uls line [] []).
    split; [reflexivity|]. split; [reflexivity|]. right. left.
    split; [reflexivity|]. cbn [number].
    rewrite split_app, (split_no_sep 46 ds) by (apply digits_no_stop, Hds).
    exact Hds.
  - intros pn lt. apply List.Forall_forall. intros q' Hq'.
    unfold kanji_kana in Hq'.
    destruct (re_search kanji_re lt) as [r|] eqn:Er; [|destruct Hq'].
    destruct Hq' as [<-|[]]. split; [reflexivity|]. split; [reflexivity|].
    right. right. left. split; [reflexivity|]. cbn [number].
    apply search_from_inv in Er as (i & Hi & Hm).
    eapply first_group_class; [exact Hm | reflexivity].
  - intros pn lt qs Hs. apply List.Forall_forall. intros q' Hq'.
    unfold synonym in Hs. destruct (length _ =? 2)%nat.
    + destruct (nth_error _ 1); [|discriminate Hs]. injection Hs as <-.
      destruct Hq' as [<-|[]]. split; [reflexivity|]. split; [reflexivity|].
      right. right. right. left. reflexivity.
    + injection Hs as <-. destruct Hq'.
  - intros pn lt. apply List.Forall_forall. intros q' Hq'.
    unfold sentence_construction in Hq'.
    destruct (length _ =? 2)%nat; [|destruct Hq'].
    destruct Hq' as [<-|[]]. split; [reflexivity|]. split; [reflexivity|].
    right. right. right. right. reflexivity.
Qed.

Lemma vocab_record_shape_witness :
  dialogue (mkQuestion (u "Synonym") (u "1") [] (u "x") [] (u "y") 1) = [].
Proof.
  apply (vocab_record_shape (one_block [plain_line "問題4"; plain_line "1.x=y"]) []
           (mkQuestion (u "Synonym") (u "1") [] (u "x") [] (u "y") 1)).
  left. vm_compute. reflexivity.
Defined.

Lemma scan_line_continuation wts uls page_num st d line :
  section st = grammar -> current_mondai st <> 0%Z ->
  current_grammar_q_data st = Some d -> continuation wts line ->
  scan_line wts uls page_num st line
  = Next (mkState grammar (current_mondai st)
            (Some (mkGData (g_number d) (g_spans d ++ [line]) (g_page d)))
            (questions st) (underlines st)).
Proof.
  intros Hsec Hm Hd (Hw & Hv & Hg & Hh & Hne & Hnew).
  unfold stripped_text in *. unfold scan_line.
  rewrite Hw, Hv, Hg, Hh, Hsec, Hnew, Hd.
  destruct (Z.eqb_spec (current_mondai st) 0) as [E|_]; [contradiction|].
  destruct (strip (joined_text line)); [contradiction|]. reflexivity.
Qed.

(** X10. In the grammar section, under a mondai, the lines that continue
    an open question (no watermark, no section marker, no mondai header,
    not empty, not numbered) are appended to it in order; its number and
    its page stay those of its first line, and nothing is emitted. *)
Theorem continuation_lines_accumulate (wts : list pystr) (uls : list Rect)
        (page_num : Z) (conts : list Line) :
  Forall (continuation wts) conts ->
  forall st d,
    section st = grammar -> current_mondai st <> 0%Z ->
    current_grammar_q_data st = Some d -> conts <> [] ->
    for_each (scan_line wts uls page_num) conts st
    = Next (mkState grammar (current_mondai st)
              (Some (mkGData (g_number d) (g_spans d ++ conts) (g_page d)))
              (questions st) (underlines st)).
Proof.
  induction 1 as [|line conts Hline Hconts IH]; intros st d Hsec Hm Hd Hne;
    [contradiction|].
  cbn [for_each].
  rewrite (scan_line_continuation wts uls page_num st d line Hsec Hm Hd Hline).
  cbn [bind]. destruct conts as [|line' conts'].
  - reflexivity.
  - rewrite (IH _ (mkGData (g_number d) (g_spans d ++ [line]) (g_page d)));
      [|reflexivity | exact Hm | reflexivity | discriminate].
    cbn [current_mondai questions underlines g_number g_spans g_page].
    rewrite <- app_assoc. reflexivity.
Qed.

Lemma continuation_lines_accumulate_witness :
  for_each (scan_line [] [] 0) [plain_line "がくせい　です。"]
    (mkState grammar 1 (Some (mkGData (u "1") [plain_line "1.わたし　は"] 1)) [] (Some []))
  = Next (mkState grammar 1
            (Some (mkGData (u "1")
                     ([plain_line "1.わたし　は"] ++ [plain_line "がくせい　です。"]) 1))
            [] (Some [])).
Proof.
  refine (continuation_lines_accumulate [] [] 0 [plain_line "がくせい　です。"] _
            (mkState grammar 1 (Some (mkGData (u "1") [plain_line "1.わたし　は"] 1))
               [] (Some []))
            (mkGData (u "1") [plain_line "1.わたし　は"] 1) _ _ _ _).
  - constructor; [|constructor].
    repeat split; try (vm_compute; reflexivity). vm_compute. discriminate.
  - reflexivity.
  - discriminate.
  - reflexivity.
  - discriminate.
Defined.

End ScanCoverage.

(* ===================================================================== *)
(** ** The kanji / kana pattern *)
(* ===================================================================== *)

Section KanjiCoverage.

Import Csv.

Lemma m_open pat s pos caps : m (Open :: pat) s pos caps = m pat s pos (caps ++ [pos]).
Proof. reflexivity. Qed.

Lemma m_close pat s pos caps : m (Close :: pat) s pos caps = m pat s pos (caps ++ [pos]).
Proof. reflexivity. Qed.

Lemma m_lit_hit c pat s pos caps : m (Lit c :: pat) (c :: s) pos caps = m pat s (S pos) caps.
Proof. simpl. rewrite N.eqb_refl. reflexivity. Qed.

Lemma m_lit_miss c pat s pos caps :
  (forall x s', s = x :: s' -> x <> c) -> m (Lit c :: pat) s pos caps = None.
Proof.
  intros H. destruct s as [|x s']; [reflexivity|]. simpl.
  destruct (N.eqb_spec x c) as [E|_]; [|reflexivity].
  exfalso. exact (H x s' eq_refl E).
Qed.

Lemma m_star cls pat s pos caps : m (Star cls :: pat) s pos caps = star cls (m pat) s pos caps.
Proof. reflexivity. Qed.

Lemma m_plus_hit cls pat x s pos caps :
  cls x = true -> m (Plus cls :: pat) (x :: s) pos caps = star cls (m pat) s (S pos) caps.
Proof. intros H. simpl. rewrite H. reflexivity. Qed.

Lemma search_from_hit pat s pos r :
  m pat s pos [] = Some r -> search_from pat s pos = Some r.
Proof. intros H. destruct s; simpl; rewrite H; reflexivity. Qed.

(** The repetition fails when the rest of the pattern fails after every
    prefix of the run. *)
Lemma star_none cls k s : forall pos caps,
  (forall j, (j <= run_length cls s)%nat -> k (skipn j s) (pos + j)%nat caps = None) ->
  star cls k s pos caps = None.
Proof.
  induction s as [|c s IH]; intros pos caps H.
  - simpl. specialize (H 0%nat (Nat.le_refl _)). rewrite Nat.add_0_r in H. exact H.
  - assert (H0 : k (c :: s) pos caps = None).
    { specialize (H 0%nat (Nat.le_0_l _)). rewrite Nat.add_0_r in H. exact H. }
    simpl. destruct (cls c) eqn:Ec; [|exact H0].
    rewrite IH; [exact H0|].
    intros j Hj. specialize (H (S j)). simpl in H. rewrite Ec in H.
    replace (S pos + j)%nat with (pos + S j)%nat by lia. apply H. lia.
Qed.

(** Greedy with backtracking: the repetition stops at the longest prefix of
    the run after which the rest of the pattern matches. *)
Lemma star_backtrack cls k s : forall pos caps n r,
  (n <= run_length cls s)%nat ->
  k (skipn n s) (pos + n)%nat caps = Some r ->
  (forall j, (n < j <= run_length cls s)%nat ->
             k (skipn j s) (pos + j)%nat caps = None) ->
  star cls k s pos caps = Some r.
Proof.
  induction s as [|c s IH]; intros pos caps n r Hn Hk Hlater.
  - simpl in Hn. assert (n = 0)%nat as -> by lia.
    simpl in *. rewrite Nat.add_0_r in Hk. exact Hk.
  - simpl in Hn. simpl. destruct (cls c) eqn:Ec.
    + destruct n as [|n].
      * rewrite star_none.
        -- simpl in Hk. rewrite Nat.add_0_r in Hk. exact Hk.
        -- intros j Hj. specialize (Hlater (S j)). simpl in Hlater. rewrite Ec in Hlater.
           replace (S pos + j)%nat with (pos + S j)%nat by lia. apply Hlater. lia.
      * rewrite (IH (S pos) caps n r); [reflexivity | lia | |].
        -- simpl in Hk. replace (S pos + n)%nat with (pos + S n)%nat by lia. exact Hk.
        -- intros j Hj. specialize (Hlater (S j)). simpl in Hlater. rewrite Ec in Hlater.
           replace (S pos + j)%nat with (pos + S j)%nat by lia. apply Hlater. lia.
    + assert (n = 0)%nat as -> by lia. simpl in Hk. rewrite Nat.add_0_r in Hk. exact Hk.
Qed.

Lemma run_length_ge cls (a b : pystr) :
  Forall (fun c => cls c = true) a -> (length a <= run_length cls (a ++ b))%nat.
Proof.
  induction 1 as [|c a Hc _ IH]; simpl; [lia|]. rewrite Hc. lia.
Qed.

Lemma no_newline_dots (s : pystr) : ~ In NL s -> Forall (fun c => dot c = true) s.
Proof.
  intros H. apply List.Forall_forall. intros c Hc. unfold dot.
  destruct (N.eqb_spec c NL) as [->|_]; [contradiction | reflexivity].
Qed.

Lemma skipn_head_in {A} (l : list A) j x rest : skipn j l = x :: rest -> In x l.
Proof.
  intros H. rewrite <- (firstn_skipn j l), H. apply in_or_app. right. left. reflexivity.
Qed.

Lemma skipn_past {A} (a : list A) c b j :
  (length a < j)%nat -> skipn j (a ++ c :: b) = skipn (j - length a - 1) b.
Proof.
  revert j. induction a as [|x a IH]; intros j Hj; simpl in *.
  - destruct j; [lia|]. simpl. rewrite Nat.sub_0_r. reflexivity.
  - destruct j; [lia|]. simpl. apply IH. lia.
Qed.

Lemma firstn_length_app {A} (a b : list A) : firstn (length a) (a ++ b) = a.
Proof. induction a; simpl; [reflexivity | f_equal; assumption]. Qed.

Lemma group_1 s c0 c1 caps e :
  group s (c0 :: c1 :: caps, e) 1 = firstn (c1 - c0) (skipn c0 s).
Proof. reflexivity. Qed.

Lemma group_2 s c0 c1 c2 c3 caps e :
  group s (c0 :: c1 :: c2 :: c3 :: caps, e) 2 = firstn (c3 - c2) (skipn c2 s).
Proof. reflexivity. Qed.

Lemma group_3 s c0 c1 c2 c3 c4 c5 caps e :
  group s (c0 :: c1 :: c2 :: c3 :: c4 :: c5 :: caps, e) 3
  = firstn (c5 - c4) (skipn c4 s).
Proof. reflexivity. Qed.

Lemma substring_eq {A} (s a b c : list A) (bpos epos : nat) :
  s = a ++ b ++ c -> bpos = length a -> epos = (length a + length b)%nat ->
  firstn (epos - bpos) (skipn bpos s) = b.
Proof.
  intros -> -> ->. replace (length a + length b - length a)%nat with (length b) by lia.
  rewrite skipn_length_app. apply firstn_length_app.
Qed.

(** The last group and the closing bracket. *)
Lemma reading_star r tail pos caps :
  ~ In NL r -> ~ In 0x300D r -> ~ In 0x300D tail ->
  star dot (m [Close; Lit 0x300D]) (r ++ 0x300D :: tail) pos caps
  = Some (caps ++ [pos + length r]%nat, S (pos + length r)).
Proof.
  intros Hnl Hr Htail.
  apply (star_backtrack dot _ _ pos caps (length r)).
  - apply run_length_ge, no_newline_dots, Hnl.
  - rewrite skipn_length_app, m_close, m_lit_hit. reflexivity.
  - intros j [Hj _]. rewrite m_close. apply m_lit_miss.
    intros x s' E. rewrite skipn_past in E by exact Hj.
    apply skipn_head_in in E. intros ->. contradiction.
Qed.

(** The middle group, the opening bracket and what follows. *)
Lemma prompt_star t r tail pos caps :
  ~ In NL t -> ~ In 0x300C t ->
  ~ In NL r -> ~ In 0x300C r -> ~ In 0x300D r ->
  ~ In 0x300C tail -> ~ In 0x300D tail ->
  star dot (m [Close; Lit 0x300C; Open; Star dot; Close; Lit 0x300D])
    (t ++ 0x300C :: r ++ 0x300D :: tail) pos caps
  = Some (((caps ++ [pos + length t]) ++ [S (pos + length t)])
            ++ [S (pos + length t) + length r],
          S (S (pos + length t) + length r))%nat.
Proof.
  intros Htn Htl Hrn Hrl Hrr Hal Har.
  apply (star_backtrack dot _ _ pos caps (length t)).
  - apply run_length_ge, no_newline_dots, Htn.
  - rewrite skipn_length_app, m_close, m_lit_hit, m_open, m_star.
    apply reading_star; assumption.
  - intros j [Hj _]. rewrite m_close. apply m_lit_miss.
    intros x s' E. rewrite skipn_past in E by exact Hj.
    apply skipn_head_in in E. intros ->.
    apply in_app_or in E as [E|[E|E]]; [exact (Hrl E) | discriminate E | exact (Hal E)].
Qed.

Lemma number_stop_fails pat c s pos caps :
  is_digit c = true -> m (Close :: Lit 46 :: pat) (c :: s) pos caps = None.
Proof.
  intros Hc. rewrite m_close. apply m_lit_miss.
  intros x s' E. injection E as <- _. intros ->. vm_compute in Hc. discriminate Hc.
Qed.

Lemma kanji_match ds t r tail :
  digit_string ds ->
  ~ In NL t -> ~ In 0x300C t ->
  ~ In NL r -> ~ In 0x300C r -> ~ In 0x300D r ->
  ~ In 0x300C tail -> ~ In 0x300D tail ->
  re_search kanji_re (ds ++ 46 :: t ++ 0x300C :: r ++ 0x300D :: tail)
  = Some ([0; length ds; S (length ds); S (length ds) + length t;
           S (S (length ds) + length t); S (S (length ds) + length t) + length r],
          S (S (S (length ds) + length t) + length r))%nat.
Proof.
  intros [Hne Hds] Htn Htl Hrn Hrl Hrr Hal Har.
  unfold re_search. apply search_from_hit. unfold kanji_re.
  destruct ds as [|x ds]; [contradiction|]. inversion Hds as [|? ? Hx Hds']; subst.
  cbn [app]. rewrite m_open, (m_plus_hit is_digit _ x _ _ _ Hx).
  rewrite (star_whole_run is_digit _ _ 1 _ (number_stop_fails _)).
  rewrite run_length_app, skipn_length_app;
    [|exact Hds' | intros c s' E; injection E as <- _; reflexivity].
  rewrite m_close, m_lit_hit, m_open, m_star.
  rewrite prompt_star by assumption. reflexivity.
Qed.

(** X11. The kanji / kana branch on a line made of a number, a full stop,
    a prompt, a bracketed reading 「…」 and a tail: when the prompt and the
    reading are on one line and no other bracket follows the prompt, the
    record has the number as written, the stripped prompt as its question
    and the stripped reading as its answer. *)
Theorem kanji_kana_fields (page_num : Z) (ds t r tail : pystr) :
  digit_string ds ->
  ~ In NL t -> ~ In 0x300C t ->
  ~ In NL r -> ~ In 0x300C r -> ~ In 0x300D r ->
  ~ In 0x300C tail -> ~ In 0x300D tail ->
  kanji_kana page_num (ds ++ 46 :: t ++ 0x300C :: r ++ 0x300D :: tail)
  = [mkQuestion (u "Vocabulary (Kanji/Kana)") ds [] (strip t) [] (strip r)
       (page_num + 1)].
Proof.
  intros Hds Htn Htl Hrn Hrl Hrr Hal Har. unfold kanji_kana.
  rewrite kanji_match by assumption. rewrite group_1, group_2, group_3.
  f_equal. f_equal; [|f_equal|f_equal].
  - apply (substring_eq _ [] ds (46 :: t ++ 0x300C :: r ++ 0x300D :: tail));
      [reflexivity | reflexivity | simpl; lia].
  - apply (substring_eq _ (ds ++ [46]) t (0x300C :: r ++ 0x300D :: tail));
      [rewrite <- app_assoc; reflexivity
      | rewrite length_app; simpl; lia
      | rewrite length_app; simpl; lia].
  - apply (substring_eq _ (ds ++ 46 :: t ++ [0x300C]) r (0x300D :: tail));
      [rewrite <- !app_assoc; simpl; rewrite <- app_assoc; reflexivity
      | rewrite !length_app; simpl; rewrite length_app; simpl; lia
      | rewrite !length_app; simpl; rewrite length_app; simpl; lia].
Qed.

Lemma kanji_kana_fields_witness :
  kanji_kana 0 (u "12" ++ 46 :: u " 雨 " ++ 0x300C :: u "あめ" ++ 0x300D :: u " ok")
  = [mkQuestion (u "Vocabulary (Kanji/Kana)") (u "12") [] (strip (u " 雨 ")) []
       (strip (u "あめ")) (0 + 1)].
Proof.
  apply (kanji_kana_fields 0 (u "12") (u " 雨 ") (u "あめ") (u " ok"));
    try (vm_compute; intros H; repeat (destruct H as [H|H]; [discriminate H|]); exact H).
  split; [vm_compute; discriminate|].
  repeat constructor.
Defined.

End KanjiCoverage.

(* ===================================================================== *)
(** ** More on underlines and marks *)
(* ===================================================================== *)

Section MarkCoverage.

Local Open Scope float_scope.

Lemma is_span_marked_cases span uls :
  is_span_marked span uls = true <->
  Z.land (flags span) 16 <> 0%Z
  \/ exists r, In r uls /\ underline_hits (span_mid_x span) (span_baseline_y span) r = true.
Proof.
  unfold is_span_marked, span_mid_x, span_baseline_y.
  destruct (Z.eqb_spec (Z.land (flags span) 16) 0) as [E|E]; cbn [negb].
  - rewrite existsb_exists. split.
    + intros H. right. exact H.
    + intros [H|H]; [contradiction | exact H].
  - split; [intros _; left; exact E | reflexivity].
Qed.

(** X12. Marks only depend on which underlines the page has.  The
    underlines of several drawing lists are those of each, in order; a span
    marked under some underlines stays marked under any list that holds
    them all; and with no underline at all exactly the bold spans are
    marked. *)
Theorem marks_grow_with_underlines :
  (forall a b : list Path, get_underlines (a ++ b) = get_underlines a ++ get_underlines b)
  /\ (forall span uls uls',
         incl uls uls' ->
         is_span_marked span uls = true -> is_span_marked span uls' = true)
  /\ (forall span, is_span_marked span [] = true <-> Z.land (flags span) 16 <> 0%Z).
Proof.
  split; [|split].
  - intros a b. unfold get_underlines. apply flat_map_app.
  - intros span uls uls' Hincl H. apply is_span_marked_cases in H.
    apply is_span_marked_cases. destruct H as [H|(r & Hin & Hr)]; [left; exact H|].
    right. exists r. split; [apply Hincl, Hin | exact Hr].
  - intros span. rewrite is_span_marked_cases. split.
    + intros [H|(r & [] & _)]. exact H.
    + intros H. left. exact H.
Qed.

Lemma marks_grow_with_underlines_witness :
  is_span_marked (mkSpan (u "がくせい") (mkRect 30 88 70 100) 4)
    [mkRect 0 0 1 1; mkRect 40 102 60 103] = true.
Proof.
  apply (proj1 (proj2 marks_grow_with_underlines)
           (mkSpan (u "がくせい") (mkRect 30 88 70 100) 4)
           [mkRect 40 102 60 103] [mkRect 0 0 1 1; mkRect 40 102 60 103]).
  - intros r [<-|[]]. right. left. reflexivity.
  - reflexivity.
Defined.

End MarkCoverage.

(* ===================================================================== *)
(** ** The refinement pass on tables *)
(* ===================================================================== *)

Section TableCoverage.

Import Grammar.
Import CsvFile.

Lemma field_in ks : forall cs key c, field ks cs key = Some c -> In key ks.
Proof.
  induction ks as [|k ks IH]; intros cs key c; [discriminate|].
  destruct cs as [|c0 cs]; [discriminate|]. simpl.
  destruct (decide (k = key)) as [->|_]; [intros _; left; reflexivity|].
  intros H. right. eapply IH, H.
Qed.

Lemma field_not_in ks cs key : ~ In key ks -> field ks cs key = None.
Proof.
  intros H. destruct (field ks cs key) eqn:E; [|reflexivity].
  exfalso. eapply H, field_in, E.
Qed.

Lemma dict_zip_lookup ks : forall cs (d : gmap (list N) (option pystr)) key,
  List.NoDup ks ->
  fold_left (fun d kv => <[fst kv := Some (snd kv)]> d) (combine ks cs) d !! key
  = match field ks cs key with
    | Some c => Some (Some c)
    | None => d !! key
    end.
Proof.
  induction ks as [|k ks IH]; intros cs d key Hnd; [reflexivity|].
  destruct cs as [|c cs]; [reflexivity|].
  inversion Hnd as [|? ? Hk Hnd']; subst. cbn [combine fold_left fst snd field].
  rewrite IH by exact Hnd'.
  destruct (decide (k = key)) as [->|Hne].
  - rewrite field_not_in by exact Hk. apply lookup_insert_eq.
  - destruct (field ks cs key); [reflexivity|]. apply lookup_insert_ne, Hne.
Qed.

Lemma restval_lookup ks : forall (d : gmap (list N) (option pystr)) key,
  fold_left (fun d key => <[key := None]> d) ks d !! key
  = if bool_decide (key ∈ ks) then Some None else d !! key.
Proof.
  induction ks as [|k ks IH]; intros d key; [reflexivity|].
  cbn [fold_left]. rewrite IH.
  destruct (decide (key ∈ ks)) as [Hin|Hno].
  - rewrite !bool_decide_eq_true_2; [reflexivity | right; exact Hin | exact Hin].
  - rewrite (bool_decide_eq_false_2 _ Hno).
    destruct (decide (k = key)) as [->|Hne].
    + rewrite lookup_insert_eq, bool_decide_eq_true_2; [reflexivity | left].
    + rewrite lookup_insert_ne by exact Hne.
      rewrite bool_decide_eq_false_2; [reflexivity|].
      intros E. apply elem_of_cons in E as [E|E]; [exact (Hne (eq_sym E)) | exact (Hno E)].
Qed.

(** A line with as many cells as there are field names, all distinct, is
    read as a row that has exactly these cells. *)
Lemma dict_reader_rectangular fieldnames row :
  List.NoDup fieldnames -> length row = length fieldnames ->
  well_formed fieldnames (dict_reader fieldnames row)
  /\ forall key, cell (dict_reader fieldnames row) key
                 = default [] (field fieldnames row key).
Proof.
  intros Hnd Hlen. unfold dict_reader. rewrite Hlen, Nat.ltb_irrefl.
  split.
  - split; [reflexivity|]. intros k v H. cbn [cols] in H.
    rewrite dict_zip_lookup in H by exact Hnd. rewrite lookup_empty in H.
    destruct (field fieldnames row k) eqn:E; [|discriminate H].
    injection H as <-. split; [|discriminate].
    apply list_elem_of_In. eapply field_in, E.
  - intros key. unfold cell. cbn [cols].
    rewrite dict_zip_lookup by exact Hnd. rewrite lookup_empty.
    destruct (field fieldnames row key); reflexivity.
Qed.

Lemma write_cells ks : forall cs (g : pystr -> pystr) v,
  List.NoDup ks -> length cs = length ks ->
  map (fun key => if bool_decide (key = QUESTION) then v
                  else default [] (field ks cs key)) ks
  = replace_field ks cs QUESTION v.
Proof.
  induction ks as [|k ks IH]; intros cs g v Hnd Hlen; [reflexivity|].
  destruct cs as [|c cs]; [discriminate Hlen|].
  inversion Hnd as [|? ? Hk Hnd']; subst. cbn [map replace_field].
  f_equal.
  - cbn [field]. destruct (decide (k = QUESTION)) as [E|E].
    + rewrite (bool_decide_eq_true_2 _ E). reflexivity.
    + rewrite (bool_decide_eq_false_2 _ E).
      destruct (decide (k = k)) as [_|F]; [reflexivity | contradiction].
  - rewrite <- (IH cs g v Hnd') by (cbn [length] in *; lia).
    apply map_ext_in. intros key Hin. cbn [field].
    destruct (decide (k = key)) as [->|_]; [contradiction | reflexivity].
Qed.

Lemma replace_field_id ks : forall cs key v,
  List.NoDup ks -> length cs = length ks ->
  field ks cs key = Some v -> replace_field ks cs key v = cs.
Proof.
  induction ks as [|k ks IH]; intros cs key v Hnd Hlen H; [discriminate H|].
  destruct cs as [|c cs]; [discriminate H|].
  inversion Hnd as [|? ? Hk Hnd']; subst. cbn [replace_field field] in *.
  destruct (decide (k = key)) as [->|Hne].
  - injection H as ->. f_equal. clear IH Hnd Hnd'.
    revert cs Hlen Hk. induction ks as [|k' ks IH']; intros cs Hlen Hk.
    + destruct cs; [reflexivity | discriminate Hlen].
    + destruct cs as [|c' cs]; [discriminate Hlen|]. cbn [replace_field].
      destruct (decide (k' = key)) as [->|_]; [exfalso; apply Hk; left; reflexivity|].
      f_equal. apply IH'; [cbn [length] in *; lia|]. intros Hin. apply Hk. right. exact Hin.
  - f_equal. apply IH; [exact Hnd' | cbn [length] in *; lia | exact H].
Qed.

Lemma replace_field_absent ks : forall cs key v,
  length cs = length ks -> ~ In key ks -> replace_field ks cs key v = cs.
Proof.
  induction ks as [|k ks IH]; intros cs key v Hlen Hno.
  - destruct cs; [reflexivity | discriminate Hlen].
  - destruct cs as [|c cs]; [discriminate Hlen|]. cbn [replace_field].
    destruct (decide (k = key)) as [->|_]; [exfalso; apply Hno; left; reflexivity|].
    f_equal. apply IH; [cbn [length] in *; lia|]. intros Hin. apply Hno. right. exact Hin.
Qed.

(** What the pass writes for a rectangular line. *)
Lemma refined_line_cells fieldnames row :
  List.NoDup fieldnames -> length row = length fieldnames ->
  map (fun key => if bool_decide (key = QUESTION)
                  then refined_question (dict_reader fieldnames row)
                  else cell (dict_reader fieldnames row) key) fieldnames
  = refine_cells fieldnames row.
Proof.
  intros Hnd Hlen.
  destruct (dict_reader_rectangular fieldnames row Hnd Hlen) as [_ Hcell].
  rewrite (map_ext _ (fun key => if bool_decide (key = QUESTION)
                                 then refined_question (dict_reader fieldnames row)
                                 else default [] (field fieldnames row key)))
    by (intros key; rewrite Hcell; reflexivity).
  rewrite (write_cells fieldnames row (fun x => x)) by assumption.
  unfold refined_question, stripped_answer, refine_cells. rewrite !Hcell.
  destruct (truthy _ && contains _ _); [reflexivity|].
  destruct (field fieldnames row QUESTION) as [q|] eqn:E.
  - apply replace_field_id; assumption.
  - apply replace_field_absent; [exact Hlen|].
    intros Hin. clear Hcell.
    assert (Hsome : forall ks cs, length cs = length ks -> In QUESTION ks ->
                                  field ks cs QUESTION <> None).
    { induction ks as [|k ks IH]; intros cs Hl Hi; [destruct Hi|].
      destruct cs as [|c cs]; [discriminate Hl|]. cbn [field].
      destruct (decide (k = QUESTION)) as [_|Hne]; [discriminate|].
      destruct Hi as [Hi|Hi]; [contradiction|]. apply IH; [cbn [length] in *; lia | exact Hi]. }
    exact (Hsome fieldnames row Hlen Hin E).
Qed.

Lemma rectangular_rows fieldnames body :
  List.NoDup fieldnames ->
  Forall (fun row => length row = length fieldnames) body ->
  Forall (well_formed fieldnames) (map (dict_reader fieldnames) body).
Proof.
  intros Hnd H. apply List.Forall_map.
  eapply Forall_impl; [exact H|]. intros row Hlen.
  apply dict_reader_rectangular; assumption.
Qed.

Lemma refine_file_rectangular_rows fieldnames body :
  List.NoDup fieldnames ->
  Forall (fun row => nonblank row = true -> length row = length fieldnames) body ->
  refine_rows fieldnames (map (dict_reader fieldnames) (List.filter nonblank body))
  = (map (refine_cells fieldnames) (List.filter nonblank body), None).
Proof.
  intros Hnd Hbody.
  assert (Hf : Forall (fun row => length row = length fieldnames)
                 (List.filter nonblank body)).
  { apply List.Forall_forall. intros row Hin. apply List.filter_In in Hin as [Hin Hnb].
    rewrite List.Forall_forall in Hbody. apply Hbody; assumption. }
  rewrite (refine_rows_well_formed fieldnames) by (apply rectangular_rows; assumption).
  rewrite map_map. f_equal.
  apply map_ext_in. intros row Hin.
  rewrite List.Forall_forall in Hf. apply refined_line_cells; [exact Hnd | apply Hf, Hin].
Qed.

Lemma field_lookup ks : forall cs j key,
  List.NoDup ks -> ks !! j = Some key -> field ks cs key = cs !! j.
Proof.
  induction ks as [|k ks IH]; intros cs j key Hnd Hj; [discriminate Hj|].
  inversion Hnd as [|? ? Hk Hnd']; subst.
  destruct cs as [|c cs].
  - cbn [field]. destruct j; reflexivity.
  - cbn [field]. destruct j as [|j]; cbn in Hj.
    + injection Hj as ->. destruct (decide (key = key)); [reflexivity | contradiction].
    + destruct (decide (k = key)) as [->|_].
      * exfalso. apply Hk. apply list_elem_of_In. eapply list_elem_of_lookup_2, Hj.
      * cbn. apply IH; assumption.
Qed.

Lemma filter_nonblank_rectangular (fieldnames : list pystr) (body : list (list pystr)) :
  fieldnames <> [] ->
  Forall (fun row => length row = length fieldnames) body ->
  List.filter nonblank body = body.
Proof.
  intros Hne H. induction H as [|row body Hlen _ IH]; [reflexivity|].
  cbn [List.filter]. rewrite IH. destruct row; [|reflexivity].
  destruct fieldnames; [contradiction | discriminate Hlen].
Qed.

(** C9, as the script has it.  On a rectangular file whose column names
    are distinct (every line has exactly one cell per column, and there is
    a column) the pass does not fail: it writes the header unchanged and
    one line per line read, in order, each with one cell per column.
    Every cell that is not under [question] is the cell read at that
    position.  The cell under [question] is the question read when the
    answer (the cell under [answer], empty without such a column),
    stripped of surrounding white space, is empty or does not occur in it;
    else it is the question with the first occurrence of the stripped
    answer replaced by the placeholder. *)
Theorem refine_preserves_table (fieldnames : list pystr) (body : list (list pystr)) :
  List.NoDup fieldnames -> fieldnames <> [] ->
  Forall (fun row => length row = length fieldnames) body ->
  exists lines,
    refine_file (fieldnames :: body) = (fieldnames :: lines, None)
    /\ length lines = length body
    /\ forall i row line,
        body !! i = Some row -> lines !! i = Some line ->
        length line = length row
        /\ (forall j key,
               fieldnames !! j = Some key -> key <> QUESTION ->
               line !! j = row !! j)
        /\ (forall j q,
               fieldnames !! j = Some QUESTION -> row !! j = Some q ->
               exists q', line !! j = Some q'
                 /\ (strip (default [] (field fieldnames row ANSWER)) = [] -> q' = q)
                 /\ (contains (strip (default [] (field fieldnames row ANSWER))) q = false ->
                     q' = q)
                 /\ (forall pre post,
                        strip (default [] (field fieldnames row ANSWER)) <> [] ->
                        first_occurrence
                          (strip (default [] (field fieldnames row ANSWER))) q pre post ->
                        q' = pre ++ PLACEHOLDER ++ post)).
Proof.
  intros Hnd Hne Hbody.
  assert (Hwf : Forall (well_formed fieldnames) (map (dict_reader fieldnames) body))
    by (apply rectangular_rows; assumption).
  destruct (refine_rows_frame fieldnames _ Hwf) as (lines & Hrun & Hlen & Hframe).
  exists lines. unfold refine_file.
  rewrite (filter_nonblank_rectangular fieldnames body Hne Hbody).
  split; [exact Hrun|]. split; [rewrite Hlen; apply length_map|].
  intros i row line Hrow Hline.
  assert (Hrl : length row = length fieldnames).
  { rewrite List.Forall_forall in Hbody. apply Hbody.
    apply list_elem_of_In. eapply list_elem_of_lookup_2, Hrow. }
  destruct (dict_reader_rectangular fieldnames row Hnd Hrl) as [_ Hcell].
  assert (Hget : forall j key c, fieldnames !! j = Some key -> row !! j = Some c ->
                                 cell (dict_reader fieldnames row) key = c).
  { intros j key c Hj Hc. rewrite Hcell, (field_lookup _ _ j key Hnd Hj), Hc. reflexivity. }
  specialize (Hframe i (dict_reader fieldnames row) line).
  destruct Hframe as (Hl & Hother & Hq);
    [rewrite list_lookup_fmap, Hrow; reflexivity | exact Hline|].
  split; [rewrite Hl, Hrl; reflexivity|]. split.
  - intros j key Hj Hk. rewrite (Hother j key Hj Hk).
    destruct (row !! j) as [c|] eqn:Ec.
    + rewrite (Hget j key c Hj Ec). reflexivity.
    + exfalso. apply lookup_ge_None in Ec. apply lookup_lt_Some in Hj. lia.
  - intros j q Hj Hrq. destruct (Hq j Hj) as (q' & Hq' & H1 & H2 & H3).
    unfold stripped_answer in *. rewrite Hcell in H1, H2, H3.
    rewrite (Hget j QUESTION q Hj Hrq) in H1, H2, H3.
    exists q'. split; [exact Hq'|]. split; [exact H1|]. split; [exact H2 | exact H3].
Qed.

Lemma refine_preserves_table_witness :
  exists lines,
    refine_file [[u "number"; QUESTION; ANSWER]; [u "1"; u "aa"; u " a "]]
    = ([u "number"; QUESTION; ANSWER] :: lines, None)
    /\ length lines = 1%nat.
Proof.
  destruct (refine_preserves_table [u "number"; QUESTION; ANSWER]
              [[u "1"; u "aa"; u " a "]])
    as (lines & H1 & H2 & _).
  - constructor; [|constructor; [|constructor; [intros []|constructor]]].
    + intros [H|[H|[]]]; vm_compute in H; discriminate H.
    + intros [H|[]]. vm_compute in H. discriminate H.
  - discriminate.
  - constructor; [reflexivity | constructor].
  - exists lines. split; [exact H1 | exact H2].
Defined.

(** X13. On a manual file whose field names are distinct and whose lines
    are blank or have one cell per field name, the refinement pass does not
    fail; it writes the header and, for every line that is not blank, the
    same cells with only the one under [question] changed: the first
    occurrence of the stripped answer in it is replaced by the placeholder,
    when the stripped answer is not empty and occurs. *)
Theorem refine_file_rectangular (fieldnames : list pystr) (body : list (list pystr)) :
  List.NoDup fieldnames ->
  Forall (fun row => nonblank row = true -> length row = length fieldnames) body ->
  refine_file (fieldnames :: body)
  = (fieldnames :: map (refine_cells fieldnames) (List.filter nonblank body), None).
Proof.
  intros Hnd Hbody. unfold refine_file, refine_with_manual_answers.
  rewrite (refine_file_rectangular_rows fieldnames body Hnd Hbody). reflexivity.
Qed.

Lemma refine_file_rectangular_witness :
  refine_file [[u "question"; u "answer"]; [u "これは ほん です"; u " ほん "]; []]
  = ([u "question"; u "answer"]
       :: map (refine_cells [u "question"; u "answer"])
            (List.filter nonblank [[u "これは ほん です"; u " ほん "]; []]), None).
Proof.
  apply refine_file_rectangular.
  - constructor; [|constructor; [intros []|constructor]].
    intros [H|[]]. vm_compute in H. discriminate H.
  - constructor; [reflexivity|]. constructor; [discriminate|constructor].
Defined.

Lemma field_none_skipn ks : forall cs key,
  field ks cs key = None -> (key ∈ skipn (length cs) ks <-> key ∈ ks).
Proof.
  induction ks as [|k ks IH]; intros cs key H.
  - rewrite skipn_nil. reflexivity.
  - destruct cs as [|c cs]; [reflexivity|]. cbn [field] in H. cbn [length skipn].
    destruct (decide (k = key)) as [|Hne]; [discriminate H|].
    rewrite (IH cs key H), elem_of_cons. split; [tauto|].
    intros [E|E]; [exfalso; exact (Hne (eq_sym E)) | exact E].
Qed.

Lemma field_some_skipn ks : forall cs key c,
  List.NoDup ks -> field ks cs key = Some c -> key ∉ skipn (length cs) ks.
Proof.
  induction ks as [|k ks IH]; intros cs key c Hnd H; [discriminate H|].
  destruct cs as [|c0 cs]; [discriminate H|]. cbn [field] in H. cbn [length skipn].
  inversion Hnd as [|? ? Hk Hnd']; subst.
  destruct (decide (k = key)) as [->|Hne].
  - intros Hin. apply Hk, list_elem_of_In.
    rewrite <- (firstn_skipn (length cs) ks). apply elem_of_app. right. exact Hin.
  - eapply IH; eassumption.
Qed.

(** What the reader puts under a key for a line that is not longer than
    the header. *)
Lemma dict_reader_lookup fieldnames row key :
  List.NoDup fieldnames -> (length row <= length fieldnames)%nat ->
  cols (dict_reader fieldnames row) !! key
  = match field fieldnames row key with
    | Some c => Some (Some c)
    | None => if bool_decide (key ∈ fieldnames) then Some None else None
    end.
Proof.
  intros Hnd Hlen. unfold dict_reader.
  destruct (length fieldnames <? length row)%nat eqn:E1;
    [apply Nat.ltb_lt in E1; lia|].
  destruct (length row <? length fieldnames)%nat eqn:E2; cbn [cols].
  - rewrite restval_lookup, dict_zip_lookup by exact Hnd. rewrite lookup_empty.
    destruct (field fieldnames row key) as [c|] eqn:F.
    + rewrite bool_decide_eq_false_2; [reflexivity|]. eapply field_some_skipn; eassumption.
    + destruct (decide (key ∈ fieldnames)) as [Hin|Hno].
      * rewrite !bool_decide_eq_true_2; [reflexivity | exact Hin |].
        apply field_none_skipn; assumption.
      * rewrite !bool_decide_eq_false_2; [reflexivity | exact Hno |].
        intros Hin. apply Hno. apply (field_none_skipn _ _ _ F). exact Hin.
  - rewrite dict_zip_lookup by exact Hnd. rewrite lookup_empty.
    destruct (field fieldnames row key) as [c|] eqn:F; [reflexivity|].
    rewrite bool_decide_eq_false_2; [reflexivity|].
    intros Hin. apply Nat.ltb_ge in E1, E2.
    assert (Hl : length row = length fieldnames) by lia.
    apply (field_none_skipn _ _ _ F) in Hin.
    rewrite Hl, skipn_all in Hin. inversion Hin.
Qed.

Lemma refine_row_rest row row' : refine_row row = inr row' -> rest row' = rest row.
Proof.
  unfold refine_row. destruct (get row ANSWER) as [a|]; [|discriminate].
  destruct (truthy (strip a)); [|intros H; injection H as <-; reflexivity].
  destruct (get row QUESTION) as [q|]; [|discriminate].
  destruct (contains (strip a) q); intros H; injection H as <-; reflexivity.
Qed.

Lemma long_line_refused fieldnames row :
  List.NoDup fieldnames -> (length fieldnames < length row)%nat ->
  exists row', refine_row (dict_reader fieldnames row) = inr row'
               /\ writerow fieldnames row' = inl ValueError.
Proof.
  intros Hnd Hlen.
  assert (Hget : forall key, exists v, get (dict_reader fieldnames row) key = Some v).
  { intros key. unfold get, dict_reader.
    apply Nat.ltb_lt in Hlen. rewrite Hlen. cbn [cols].
    rewrite dict_zip_lookup by exact Hnd. rewrite lookup_empty.
    destruct (field fieldnames row key); eexists; reflexivity. }
  assert (Hrest : rest (dict_reader fieldnames row) <> None).
  { unfold dict_reader. apply Nat.ltb_lt in Hlen. rewrite Hlen. discriminate. }
  assert (Hin : exists row', refine_row (dict_reader fieldnames row) = inr row').
  { unfold refine_row. destruct (Hget ANSWER) as (a & ->), (Hget QUESTION) as (q & ->).
    destruct (truthy (strip a)); [|eexists; reflexivity].
    destruct (contains (strip a) q); eexists; reflexivity. }
  destruct Hin as (row' & Hrow). exists row'. split; [exact Hrow|].
  unfold writerow. rewrite bool_decide_eq_false_2; [reflexivity|].
  rewrite (refine_row_rest _ _ Hrow). exact Hrest.
Qed.

Lemma refine_rows_app fieldnames rows1 : forall rows2 lines1,
  refine_rows fieldnames rows1 = (lines1, None) ->
  refine_rows fieldnames (rows1 ++ rows2)
  = (lines1 ++ fst (refine_rows fieldnames rows2), snd (refine_rows fieldnames rows2)).
Proof.
  induction rows1 as [|row rows1 IH]; intros rows2 lines1 H.
  - injection H as <-. simpl. destruct (refine_rows fieldnames rows2); reflexivity.
  - cbn [refine_rows app] in *.
    destruct (refine_row row) as [e|row']; [discriminate H|].
    destruct (writerow fieldnames row') as [e|line]; [discriminate H|].
    destruct (refine_rows fieldnames rows1) as [ls e] eqn:E.
    injection H as <- ->. rewrite (IH rows2 ls eq_refl).
    reflexivity.
Qed.

Lemma bad_line_stops fieldnames row e :
  List.NoDup fieldnames -> line_error fieldnames row = Some e ->
  forall later, refine_rows fieldnames (dict_reader fieldnames row :: later) = ([], Some e).
Proof.
  intros Hnd Herr later. unfold line_error in Herr. cbn [refine_rows].
  destruct (length fieldnames <? length row)%nat eqn:E1.
  - injection Herr as <-. apply Nat.ltb_lt in E1.
    destruct (long_line_refused fieldnames row Hnd E1) as (row' & -> & ->). reflexivity.
  - apply Nat.ltb_ge in E1.
    assert (Hl := fun key => dict_reader_lookup fieldnames row key Hnd E1).
    unfold refine_row, get. rewrite (Hl ANSWER), (Hl QUESTION).
    destruct (field fieldnames row ANSWER) as [a|].
    + destruct (field fieldnames row QUESTION) as [q|]; [discriminate Herr|].
      destruct (truthy (strip a)); [|discriminate Herr].
      destruct (bool_decide (QUESTION ∈ fieldnames)); [|discriminate Herr].
      injection Herr as <-. reflexivity.
    + destruct (bool_decide (ANSWER ∈ fieldnames)); [|discriminate Herr].
      injection Herr as <-. reflexivity.
Qed.

(** X14. A line that does not fit the header ends the refinement pass, and
    the final file keeps the header and the lines written before it.  A
    line with more cells than field names is refused when it is written
    (ValueError); a line too short to have a cell under [answer] fails
    where the answer is stripped (AttributeError); a line that has a
    non-blank answer but is too short to have a cell under [question]
    fails in the membership test (TypeError).  No line after it is
    written. *)
Theorem ragged_line_ends_refinement
    (fieldnames : list pystr) (good : list (list pystr)) (bad : list pystr)
    (later : list (list pystr)) (e : exn) :
  List.NoDup fieldnames ->
  Forall (fun row => nonblank row = true -> length row = length fieldnames) good ->
  nonblank bad = true ->
  line_error fieldnames bad = Some e ->
  refine_file (fieldnames :: good ++ bad :: later)
  = (fieldnames :: map (refine_cells fieldnames) (List.filter nonblank good), Some e).
Proof.
  intros Hnd Hgood Hnb Herr.
  assert (Hg := refine_file_rectangular_rows fieldnames good Hnd Hgood).
  unfold refine_file, refine_with_manual_answers.
  rewrite List.filter_app, map_app. cbn [List.filter]. rewrite Hnb. cbn [map].
  rewrite (refine_rows_app _ _ _ _ Hg).
  rewrite (bad_line_stops fieldnames bad e Hnd Herr). cbn [fst snd].
  rewrite app_nil_r. reflexivity.
Qed.

Lemma ragged_line_ends_refinement_witness :
  refine_file [[u "question"; u "answer"]; [u "ほん です"; u "ほん"];
               [u "みず です"]; [u "やま です"; u "やま"]]
  = ([[u "question"; u "answer"]; [u " (______)  です"; u "ほん"]],
     Some AttributeError).
Proof.
  apply (ragged_line_ends_refinement [u "question"; u "answer"]
           [[u "ほん です"; u "ほん"]] [u "みず です"]
           [[u "やま です"; u "やま"]] AttributeError).
  - constructor; [|constructor; [intros []|constructor]].
    intros [H|[]]. vm_compute in H. discriminate H.
  - constructor; [reflexivity|constructor].
  - reflexivity.
  - vm_compute. reflexivity.
Defined.

Lemma FIELDNAMES_NoDup : List.NoDup FIELDNAMES.
Proof.
  unfold FIELDNAMES.
  repeat (constructor;
          [intros H; vm_compute in H;
           repeat (destruct H as [H|H]; [discriminate H|]); exact H|]).
  constructor.
Qed.

Lemma field_of_record (c1 c2 c3 c4 c5 c6 c7 : pystr) :
  field FIELDNAMES [c1; c2; c3; c4; c5; c6; c7] QUESTION = Some c4
  /\ field FIELDNAMES [c1; c2; c3; c4; c5; c6; c7] ANSWER = Some c6
  /\ forall v, replace_field FIELDNAMES [c1; c2; c3; c4; c5; c6; c7] QUESTION v
               = [c1; c2; c3; v; c5; c6; c7].
Proof. repeat split. Qed.

Lemma refine_cells_record q :
  refine_cells FIELDNAMES (question_cells q) = question_cells (refine_question q).
Proof.
  unfold refine_cells, question_cells, refine_question.
  destruct (field_of_record (type q) (number q) (dialogue q) (question q) (choices q)
              (answer q) (py_str_int (source_page q))) as (-> & -> & ->).
  cbn [default from_option id type number dialogue question choices answer source_page].
  destruct (truthy (strip (answer q)) && contains (strip (answer q)) (question q));
    reflexivity.
Qed.

(** X15. The two stages composed.  When stage 1 writes a table and that
    table is given to stage 2 as it is, cell for cell, stage 2 does not
    fail, and its table has one line per record of stage 1, in the same
    order: the record with the first occurrence of its stripped answer in
    its question replaced by the placeholder, when that answer is not empty
    and occurs, and every other cell as stage 1 wrote it. *)
Theorem stage2_on_stage1_table (all_questions : list Question)
    (table : list (list pystr)) :
  write_database all_questions = Some table ->
  refine_file table
  = (FIELDNAMES :: map (fun q => question_cells (refine_question q)) all_questions,
     None).
Proof.
  intros H. unfold write_database in H.
  destruct all_questions as [|q0 qs0] eqn:Eqs; [discriminate H|].
  rewrite <- Eqs in *. injection H as <-.
  rewrite refine_file_rectangular.
  - f_equal. f_equal. clear Eqs. induction all_questions as [|q qs IH]; [reflexivity|].
    cbn [map List.filter nonblank question_cells]. fold (question_cells q).
    rewrite refine_cells_record, IH. reflexivity.
  - exact FIELDNAMES_NoDup.
  - apply List.Forall_forall. intros row Hin _.
    apply List.in_map_iff in Hin as (q & <- & _). reflexivity.
Qed.

Lemma stage2_on_stage1_table_witness :
  refine_file
    [FIELDNAMES;
     [u "Grammar/Reading"; u "1"; []; u "これは ほん です"; []; u "ほん"; u "3"]]
  = ([FIELDNAMES;
      [u "Grammar/Reading"; u "1"; []; u "これは  (______)  です"; []; u "ほん"; u "3"]],
     None).
Proof.
  apply (stage2_on_stage1_table
           [mkQuestion (u "Grammar/Reading") (u "1") [] (u "これは ほん です") []
              (u "ほん") 3]).
  reflexivity.
Defined.

End TableCoverage.

(* ===================================================================== *)
(** ** The scan of stage 1 *)
(* ===================================================================== *)

Section Stage1Coverage.

Import Stage1.

Lemma stage1_for_each_holds {A} (body : State -> A -> result) (I : State -> Prop)
      (Q : A -> Prop) (l : list A) :
  (forall st a, I st -> Q a -> stage1_holds I (body st a)) ->
  Forall Q l -> forall st, I st -> stage1_holds I (for_each body l st).
Proof.
  intros Hbody Hl. induction Hl as [|a l Ha _ IH]; intros st HI; [exact HI|].
  cbn [for_each]. specialize (Hbody st a HI Ha).
  destruct (body st a) as [st'|e st']; cbn [bind]; [apply IH, Hbody | exact Hbody].
Qed.

(** The scan of the pages keeps [I] when every line satisfies [Q], the
    body keeps [I] on such lines and [I] does not depend on the
    underlines. *)
Lemma stage1_scan_pages_inv wts (I : State -> Prop) (Q : Line -> Prop) :
  (forall uls page_num st line,
      I st -> Q line -> stage1_holds I (scan_line wts uls page_num st line)) ->
  (forall st uls,
      I st -> I (mkState (section st) (current_mondai st) (current_question_data st)
                   (questions st) uls)) ->
  forall doc, Forall Q (doc_lines doc) ->
  forall page_num st, I st -> stage1_holds I (scan_pages wts page_num doc st).
Proof.
  intros Hstep Hstable doc. induction doc as [|page doc IH]; intros HQ page_num st HI.
  - exact HI.
  - unfold doc_lines in HQ. cbn [map concat] in HQ.
    apply Forall_app in HQ as [Hpage Hrest]. cbn [scan_pages].
    match goal with
    | |- stage1_holds I (bind ?r _) => assert (Hr : stage1_holds I r)
    end.
    { apply (stage1_for_each_holds _ I (fun block => Forall Q (block_lines block))).
      - intros st0 block HI0 HQb. destruct block as [lines|]; [|exact HI0].
        cbn [scan_block]. eapply stage1_for_each_holds; [|exact HQb|exact HI0].
        intros st1 line. apply Hstep.
      - apply Forall_concat_inv in Hpage. rewrite List.Forall_map in Hpage. exact Hpage.
      - apply Hstable, HI. }
    match goal with
    | |- stage1_holds I (bind ?r _) => destruct r as [st'|e st']
    end; cbn [bind]; [apply IH; [exact Hrest | exact Hr] | exact Hr].
Qed.

Lemma stage1_extract_inv wts doc (I : State -> Prop) (Q : Line -> Prop) (P : Question -> Prop) :
  (forall uls page_num st line,
      I st -> Q line -> stage1_holds I (scan_line wts uls page_num st line)) ->
  (forall st uls,
      I st -> I (mkState (section st) (current_mondai st) (current_question_data st)
                   (questions st) uls)) ->
  (forall st uls, I st -> Forall P (questions (flush uls st))) ->
  Forall Q (doc_lines doc) ->
  I (mkState Csv.vocab 0 None [] None) ->
  Forall P (extract_grammar_vocab_questions doc wts).
Proof.
  intros Hstep Hstable Hend HQ H0.
  assert (Hq : forall st, I st -> Forall P (questions st)).
  { intros st HI. specialize (Hend _ [] HI). unfold flush in Hend.
    cbn [questions] in Hend. apply Forall_app in Hend as [Hend _]. exact Hend. }
  unfold extract_grammar_vocab_questions, scan_document.
  pose proof (stage1_scan_pages_inv wts I Q Hstep Hstable doc HQ 0%Z _ H0) as HI.
  destruct (scan_pages wts 0 doc _) as [st|e st]; cbn [bind stage1_holds] in *.
  - destruct (underlines st) as [uls|]; [apply Hend, HI | apply Hq, HI].
  - apply Hq, HI.
Qed.

Lemma Forall_True {A} (l : list A) : Forall (fun _ => True) l.
Proof. apply List.Forall_forall. intros; exact I. Qed.

(** X16. Every record of stage 1 in the two-stage script has the type
    Grammar/Reading or Fill-in-the-Blank, whatever the mondai it stands
    under, a number that is a string of one or more decimal digits, an
    empty dialogue and empty choices. *)
Theorem stage1_record_shape (doc : list Page) (wts : list pystr) (q : Question) :
  In q (Stage1.extract_grammar_vocab_questions doc wts) ->
  (type q = u "Grammar/Reading" \/ type q = u "Fill-in-the-Blank")
  /\ digit_string (number q)
  /\ dialogue q = [] /\ choices q = [].
Proof.
  intros Hin.
  set (D := fun d : Grammar.QData =>
              (Grammar.q_type d = u "Grammar/Reading"
               \/ Grammar.q_type d = u "Fill-in-the-Blank")
              /\ digit_string (Grammar.q_number d)).
  set (P := fun q : Question =>
              (type q = u "Grammar/Reading" \/ type q = u "Fill-in-the-Blank")
              /\ digit_string (number q) /\ dialogue q = [] /\ choices q = []).
  set (I := fun st : State =>
              Forall P (questions st)
              /\ forall d, current_question_data st = Some d -> D d).
  assert (Hflush : forall st uls, I st -> Forall P (questions (flush uls st))).
  { intros st uls [Hq Hd]. unfold flush. cbn [questions].
    apply Forall_app. split; [exact Hq|].
    destruct (current_question_data st) as [d|]; [|constructor].
    destruct (Hd d eq_refl) as [Ht Hn]. cbn [Grammar.process_and_save_question].
    destruct (scan_lines uls (Grammar.q_spans d) [] []).
    constructor; [|constructor].
    split; [exact Ht | split; [exact Hn | split; reflexivity]]. }
  assert (Hflush' : forall st uls, I st -> I (flush uls st)).
  { intros st uls HI. split; [apply Hflush, HI | discriminate]. }
  assert (Hall : Forall P (Stage1.extract_grammar_vocab_questions doc wts));
    [|rewrite List.Forall_forall in Hall; apply (Hall q Hin)].
  apply (stage1_extract_inv wts doc I (fun _ => True) P).
  - intros uls page_num st line HI _. unfold scan_line.
    destruct (any_in wts _); [exact HI|].
    destruct (contains (u "もじ・ごい") _).
    { destruct (Hflush' st uls HI) as [Hq _]. split; [exact Hq | discriminate]. }
    destruct (contains (u "ぶんぽう・どっかい") _); [exact HI|].
    destruct (re_match mondai_re _).
    { destruct (py_int _); [|exact HI].
      destruct (Hflush' st uls HI) as [Hq _]. split; [exact Hq | discriminate]. }
    destruct ((current_mondai st =? 0)%Z || _); [exact HI|].
    destruct (re_match new_question_re _) as [r|] eqn:Er.
    + destruct (Hflush' st uls HI) as [Hq _]. split; [exact Hq|].
      cbn [current_question_data]. intros d Hd. injection Hd as <-. split.
      * cbn [Grammar.q_type flush section]. destruct (section st); [right | left]; reflexivity.
      * cbn [Grammar.q_number]. unfold re_match, new_question_re in Er.
        change (m (Open :: Plus is_digit :: Close :: [Lit 46])
                  (strip (joined_text line)) 0 [] = Some r) in Er.
        eapply first_group_class; [exact Er | reflexivity].
    + destruct (current_question_data st) as [d|] eqn:Ed; [|exact HI].
      destruct HI as [Hq Hd]. split; [exact Hq|].
      cbn [current_question_data]. intros d' Hd'. injection Hd' as <-.
      exact (Hd d Ed).
  - intros st uls HI. exact HI.
  - exact Hflush.
  - apply Forall_True.
  - split; [constructor | discriminate].
Qed.

Lemma stage1_record_shape_witness :
  digit_string (u "7").
Proof.
  apply (stage1_record_shape
           (one_block [plain_line "問題4"; plain_line "7.くるま=じどうしゃ"]) []
           (mkQuestion (u "Fill-in-the-Blank") (u "7") [] (u "くるま=じどうしゃ") [] [] 1)).
  left. vm_compute. reflexivity.
Defined.

Lemma stage1_scan_line_skipped wts uls page_num st line :
  line_skipped wts line = true -> scan_line wts uls page_num st line = Next st.
Proof.
  unfold line_skipped, stripped_text. intros H. unfold scan_line. rewrite H. reflexivity.
Qed.

Lemma stage1_for_each_drop_skipped wts uls page_num lines : forall st,
  for_each (scan_line wts uls page_num)
    (List.filter (fun line => negb (line_skipped wts line)) lines) st
  = for_each (scan_line wts uls page_num) lines st.
Proof.
  induction lines as [|line lines IH]; intros st; [reflexivity|].
  cbn [List.filter for_each]. destruct (line_skipped wts line) eqn:E; cbn [negb].
  - rewrite (stage1_scan_line_skipped _ _ _ _ _ E). cbn [bind]. apply IH.
  - cbn [for_each]. destruct (scan_line wts uls page_num st line); cbn [bind];
      [apply IH | reflexivity].
Qed.

Lemma stage1_for_each_map_ext {A B} (body : State -> A -> result)
      (body' : State -> B -> result) (f : B -> A) (l : list B) :
  (forall st b, body st (f b) = body' st b) ->
  forall st, for_each body (map f l) st = for_each body' l st.
Proof.
  intros H. induction l as [|b l IH]; intros st; [reflexivity|].
  cbn [map for_each]. rewrite H. destruct (body' st b); cbn [bind]; [apply IH | reflexivity].
Qed.

Lemma stage1_scan_block_drop_skipped wts uls page_num st block :
  scan_block wts uls page_num st (drop_skipped_block wts block)
  = scan_block wts uls page_num st block.
Proof. destruct block; simpl; [apply stage1_for_each_drop_skipped | reflexivity]. Qed.

Lemma stage1_scan_pages_drop_skipped wts doc : forall page_num st,
  scan_pages wts page_num (drop_skipped wts doc) st = scan_pages wts page_num doc st.
Proof.
  induction doc as [|page doc IH]; intros page_num st; [reflexivity|].
  cbn [drop_skipped map scan_pages drawings blocks].
  rewrite (stage1_for_each_map_ext _ _ _ _
             (fun st b => stage1_scan_block_drop_skipped wts _ page_num st b)).
  destruct (for_each _ (blocks page) _); cbn [bind]; [apply IH | reflexivity].
Qed.

Lemma stage1_nothing_extract doc wts :
  stage1_holds (fun st => questions st = [] /\ current_question_data st = None)
    (scan_pages wts 0 doc (mkState Csv.vocab 0 None [] None)) ->
  Stage1.extract_grammar_vocab_questions doc wts = [].
Proof.
  intros H. unfold extract_grammar_vocab_questions, scan_document.
  destruct (scan_pages wts 0 doc _) as [st|e st]; cbn [bind stage1_holds] in *;
    destruct H as [Hq Hd]; [|exact Hq].
  destruct (underlines st); [|exact Hq].
  unfold flush. cbn [questions]. rewrite Hq, Hd. reflexivity.
Qed.

(** X17. Stage 1 of the two-stage script is as quiet as the one-stage
    scan: a document without a mondai header gives no record; the records
    of a document are those of the document without its watermarked lines;
    and with an empty string in the watermark list no record is
    extracted. *)
Theorem stage1_quiet_lines :
  (forall doc wts,
      Forall no_header (doc_lines doc) ->
      Stage1.extract_grammar_vocab_questions doc wts = [])
  /\ (forall doc wts,
         Stage1.extract_grammar_vocab_questions (drop_skipped wts doc) wts
         = Stage1.extract_grammar_vocab_questions doc wts)
  /\ (forall doc wts,
         In [] wts -> Stage1.extract_grammar_vocab_questions doc wts = []).
Proof.
  split; [|split].
  - intros doc wts H. apply stage1_nothing_extract.
    pose proof (stage1_scan_pages_inv wts
             (fun st => current_mondai st = 0%Z
                        /\ questions st = [] /\ current_question_data st = None)
             no_header) as Hinv.
    match goal with
    | |- stage1_holds _ ?r =>
        assert (Hr : stage1_holds
                       (fun st => current_mondai st = 0%Z
                                  /\ questions st = [] /\ current_question_data st = None) r)
    end.
    { apply Hinv; [| |exact H|repeat split].
      - intros uls page_num st line (Hm & Hq & Hd) Hno.
        unfold no_header, stripped_text in Hno. unfold scan_line. rewrite Hno.
        destruct (any_in wts _); [repeat split; assumption|].
        destruct (contains (u "もじ・ごい") _).
        { unfold flush. cbn [stage1_holds current_mondai questions current_question_data].
          rewrite Hq, Hd. repeat split; assumption. }
        destruct (contains (u "ぶんぽう・どっかい") _).
        { cbn [stage1_holds current_mondai questions current_question_data].
          repeat split; assumption. }
        rewrite Hm. cbn [Z.eqb orb]. repeat split; assumption.
      - intros st uls HI. exact HI. }
    destruct (scan_pages wts 0 doc _); destruct Hr as (_ & Hq & Hd); split; assumption.
  - intros doc wts. unfold extract_grammar_vocab_questions, scan_document.
    rewrite stage1_scan_pages_drop_skipped. reflexivity.
  - intros doc wts Hw. apply stage1_nothing_extract.
    apply (stage1_scan_pages_inv wts
             (fun st => questions st = [] /\ current_question_data st = None)
             (fun _ => True)); [| |apply Forall_True|split; reflexivity].
    + intros uls page_num st line HI _.
      rewrite stage1_scan_line_skipped; [exact HI|].
      apply any_in_empty_watermark, Hw.
    + intros st uls HI. exact HI.
Qed.

Lemma stage1_quiet_lines_witness :
  Stage1.extract_grammar_vocab_questions
    (one_block [plain_line "ぶんぽう・どっかい"; plain_line "1.これは ほん です"]) []
  = [].
Proof.
  apply (proj1 stage1_quiet_lines).
  repeat (constructor; [vm_compute; reflexivity|]). constructor.
Defined.

End Stage1Coverage.

(* ===================================================================== *)
(** ** Source pages *)
(* ===================================================================== *)

Section PageCoverage.

Lemma sorted_snoc (l : list Z) (x : Z) :
  StronglySorted Z.le l -> Forall (fun y => (y <= x)%Z) l ->
  StronglySorted Z.le (l ++ [x]).
Proof.
  induction 1 as [|a l Hs IH Ha]; intros Hx; cbn [app].
  - constructor; constructor.
  - inversion Hx as [|? ? Hax Hlx]; subst. constructor; [apply IH, Hlx|].
    apply Forall_app. split; [exact Ha | constructor; [exact Hax | constructor]].
Qed.

Lemma page_inv_of_mono p p' open_page qs :
  (p <= p')%Z -> page_inv_of p open_page qs -> page_inv_of p' open_page qs.
Proof.
  intros Hp [Hs Hb]. split; [exact Hs|]. destruct open_page as [x|].
  - destruct Hb as [Hx Hall]. split; [lia | exact Hall].
  - eapply Forall_impl; [exact Hb|]. intros y Hy. cbv beta in *. lia.
Qed.

(** Closing the open question, if any, emits a record of its page. *)
Lemma page_inv_of_close p open_page qs qs' :
  page_inv_of p open_page qs ->
  match open_page with
  | Some x => exists q, qs' = [q] /\ source_page q = x
  | None => qs' = []
  end ->
  page_inv_of p None (qs ++ qs').
Proof.
  intros [Hs Hb] Hq. destruct open_page as [x|].
  - destruct Hq as (q & -> & Hq). destruct Hb as [Hx Hall].
    unfold page_inv_of, pages_of. rewrite map_app. cbn [map]. rewrite Hq. split.
    + apply sorted_snoc; [exact Hs|].
      eapply Forall_impl; [exact Hall|]. intros y Hy. cbv beta in *. lia.
    + apply Forall_app. split.
      * eapply Forall_impl; [exact Hall|]. intros y Hy. cbv beta in *. lia.
      * constructor; [lia | constructor].
  - subst qs'. rewrite app_nil_r. split; assumption.
Qed.

(** Emitting at most one record of the page being read, nothing open. *)
Lemma page_inv_of_emit p qs qs' :
  page_inv_of p None qs ->
  (1 <= p)%Z ->
  qs' = [] \/ (exists q, qs' = [q] /\ source_page q = p) ->
  page_inv_of p None (qs ++ qs').
Proof.
  intros [Hs Hb] Hp [->|(q & -> & Hq)].
  - rewrite app_nil_r. split; assumption.
  - unfold page_inv_of, pages_of. rewrite map_app. cbn [map]. rewrite Hq. split.
    + apply sorted_snoc; [exact Hs|].
      eapply Forall_impl; [exact Hb|]. intros y Hy. cbv beta in *. lia.
    + apply Forall_app. split; [exact Hb|]. constructor; [lia | constructor].
Qed.

(** Opening a question on the page being read, nothing open before. *)
Lemma page_inv_of_open p qs :
  page_inv_of p None qs -> (1 <= p)%Z -> page_inv_of p (Some p) qs.
Proof. intros [Hs Hb] Hp. split; [exact Hs|]. split; [lia | exact Hb]. Qed.

Lemma csv_close_record d uls :
  match option_map Csv.g_page d with
  | Some x => exists q, Csv.process_and_save_grammar_question d uls = [q]
                        /\ source_page q = x
  | None => Csv.process_and_save_grammar_question d uls = []
  end.
Proof.
  destruct d as [d|]; cbn [option_map]; [|reflexivity].
  cbn [Csv.process_and_save_grammar_question].
  destruct (scan_lines uls (Csv.g_spans d) [] []).
  eexists. split; reflexivity.
Qed.

Lemma csv_flush_pages p uls st sec mondai :
  page_inv p st ->
  page_inv p (Csv.mkState sec mondai None (Csv.questions (Csv.flush uls st))
                (Csv.underlines (Csv.flush uls st))).
Proof.
  intros [Hp _]. split; [|reflexivity].
  cbn [Csv.current_grammar_q_data option_map Csv.questions Csv.flush].
  eapply page_inv_of_close; [exact Hp | apply csv_close_record].
Qed.

Lemma csv_emit_pages p st qs :
  page_inv p st -> (1 <= p)%Z -> Csv.section st = Csv.vocab ->
  qs = [] \/ (exists q, qs = [q] /\ source_page q = p) ->
  page_inv p (Csv.emit st qs).
Proof.
  intros [Hp Hv] H1 Hsec Hqs. pose proof (Hv Hsec) as Hd.
  unfold page_inv, Csv.emit.
  cbn [Csv.current_grammar_q_data Csv.questions Csv.section].
  rewrite Hd in *. cbn [option_map] in *. split; [|reflexivity].
  apply page_inv_of_emit; assumption.
Qed.

Lemma csv_scan_line_pages wts uls page_num st line :
  (0 <= page_num)%Z -> page_inv (page_num + 1) st ->
  result_page_inv (page_num + 1) (Csv.scan_line wts uls page_num st line).
Proof.
  intros H0 Hinv. unfold Csv.scan_line.
  set (line_text := strip (joined_text line)).
  destruct (any_in wts line_text); [exact Hinv|].
  destruct (contains _ line_text); [apply csv_flush_pages, Hinv|].
  destruct (contains _ line_text).
  { destruct Hinv as [Hp Hv]. split; [exact Hp | discriminate]. }
  destruct (re_match mondai_re line_text) as [mm|].
  { destruct (py_int _); [apply csv_flush_pages, Hinv | exact Hinv]. }
  destruct ((Csv.current_mondai st =? 0)%Z || negb (truthy line_text)); [exact Hinv|].
  destruct (Csv.section st) eqn:Esec.
  - (* vocab *)
    destruct (_ && bool_decide (is_Some (re_match numbered_re line_text))).
    { apply csv_emit_pages; [exact Hinv | lia | exact Esec|].
      right. eexists. split; [reflexivity|].
      unfold Csv.fill_in_the_blank. destruct (scan_spans uls line [] []). reflexivity. }
    destruct (_ && contains [12300] line_text).
    { apply csv_emit_pages; [exact Hinv | lia | exact Esec|].
      unfold Csv.kanji_kana. destruct (re_search kanji_re line_text); [right | left; reflexivity].
      eexists. split; reflexivity. }
    destruct (_ && contains [61] line_text).
    { destruct (Csv.synonym page_num line_text) as [e|qs] eqn:Es; [exact Hinv|].
      apply csv_emit_pages; [exact Hinv | lia | exact Esec|].
      unfold Csv.synonym in Es. destruct (length _ =? 2)%nat.
      - destruct (nth_error _ 1); [|discriminate Es]. injection Es as <-.
        right. eexists. split; reflexivity.
      - injection Es as <-. left. reflexivity. }
    destruct (_ && contains [8658] line_text).
    { apply csv_emit_pages; [exact Hinv | lia | exact Esec|].
      unfold Csv.sentence_construction.
      destruct (length _ =? 2)%nat; [right | left; reflexivity].
      eexists. split; reflexivity. }
    exact Hinv.
  - (* grammar *)
    destruct (re_match new_question_re line_text) as [nq|].
    { destruct (csv_flush_pages _ uls st Csv.grammar 0 Hinv) as [Hp _].
      cbn [Csv.current_grammar_q_data option_map Csv.questions] in Hp.
      split; [|cbn [Csv.section Csv.flush]; rewrite Esec; discriminate].
      cbn [Csv.current_grammar_q_data option_map Csv.questions Csv.g_page].
      apply page_inv_of_open; [exact Hp | lia]. }
    destruct (Csv.current_grammar_q_data st) as [d|] eqn:Ed; [|exact Hinv].
    destruct Hinv as [Hp Hv]. rewrite Ed in Hp.
    split; [exact Hp | cbn [Csv.section]; discriminate].
Qed.

Lemma for_each_result {A} (I : Csv.State -> Prop) (body : Csv.State -> A -> Csv.result)
      (l : list A) :
  (forall st a, I st -> match body st a with
                        | Csv.Next st' => I st'
                        | Csv.Raised _ st' => I st'
                        end) ->
  forall st, I st -> match Csv.for_each body l st with
                     | Csv.Next st' => I st'
                     | Csv.Raised _ st' => I st'
                     end.
Proof.
  intros Hbody. induction l as [|a l IH]; intros st HI; [exact HI|].
  cbn [Csv.for_each]. specialize (Hbody st a HI).
  destruct (body st a) as [st'|e st']; cbn [Csv.bind]; [apply IH, Hbody | exact Hbody].
Qed.

Lemma page_inv_mono p p' st : (p <= p')%Z -> page_inv p st -> page_inv p' st.
Proof.
  intros Hp [H Hv]. split; [eapply page_inv_of_mono; eassumption | exact Hv].
Qed.

Lemma csv_scan_pages_pages wts doc : forall page_num st,
  (0 <= page_num)%Z -> page_inv page_num st ->
  result_page_inv (page_num + Z.of_nat (length doc)) (Csv.scan_pages wts page_num doc st).
Proof.
  induction doc as [|page doc IH]; intros page_num st H0 Hinv.
  - cbn [Csv.scan_pages length result_page_inv]. rewrite Z.add_0_r. exact Hinv.
  - cbn [Csv.scan_pages].
    match goal with
    | |- result_page_inv _ (Csv.bind ?r _) =>
        assert (Hr : result_page_inv (page_num + 1) r)
    end.
    { apply (for_each_result (page_inv (page_num + 1))).
      - intros st0 block HI. destruct block as [lines|]; [|exact HI].
        cbn [Csv.scan_block].
        apply (for_each_result (page_inv (page_num + 1))); [|exact HI].
        intros st1 line. apply csv_scan_line_pages, H0.
      - apply (page_inv_mono page_num); [lia|].
        destruct Hinv as [Hp Hv]. split; [exact Hp | exact Hv]. }
    match goal with
    | |- result_page_inv _ (Csv.bind ?r _) => destruct r as [st'|e st']
    end; cbn [Csv.bind].
    + replace (page_num + Z.of_nat (length (page :: doc)))%Z
        with (page_num + 1 + Z.of_nat (length doc))%Z by (cbn [length]; lia).
      apply IH; [lia | exact Hr].
    + cbn [result_page_inv] in *. apply (page_inv_mono (page_num + 1)); [|exact Hr].
      cbn [length]. lia.
Qed.

Lemma page_inv_of_records p open_page qs :
  page_inv_of p open_page qs ->
  Forall (fun q => (1 <= source_page q <= p)%Z) qs
  /\ StronglySorted Z.le (map source_page qs).
Proof.
  intros [Hs Hb]. split; [|exact Hs].
  assert (Hall : Forall (fun y => (1 <= y <= p)%Z) (pages_of qs)).
  { destruct open_page as [x|]; [|exact Hb]. destruct Hb as [Hx Hall].
    eapply Forall_impl; [exact Hall|]. intros y Hy. cbv beta in *. lia. }
  unfold pages_of in Hall. rewrite List.Forall_map in Hall. exact Hall.
Qed.

Lemma stage1_close_record d uls :
  match option_map Grammar.q_page d with
  | Some x => exists q, Grammar.process_and_save_question d uls = [q]
                        /\ source_page q = x
  | None => Grammar.process_and_save_question d uls = []
  end.
Proof.
  destruct d as [d|]; cbn [option_map]; [|reflexivity].
  cbn [Grammar.process_and_save_question].
  destruct (scan_lines uls (Grammar.q_spans d) [] []).
  eexists. split; reflexivity.
Qed.

Lemma stage1_flush_pages p uls st :
  stage1_page_inv p st ->
  page_inv_of p None (Stage1.questions (Stage1.flush uls st)).
Proof.
  intros Hp. cbn [Stage1.questions Stage1.flush].
  eapply page_inv_of_close; [exact Hp | apply stage1_close_record].
Qed.

Lemma stage1_scan_line_pages wts uls page_num st line :
  (0 <= page_num)%Z -> stage1_page_inv (page_num + 1) st ->
  stage1_holds (stage1_page_inv (page_num + 1)) (Stage1.scan_line wts uls page_num st line).
Proof.
  intros H0 Hinv. unfold Stage1.scan_line.
  set (line_text := strip (joined_text line)).
  destruct (any_in wts line_text); [exact Hinv|].
  destruct (contains _ line_text); [apply (stage1_flush_pages _ uls st Hinv)|].
  destruct (contains _ line_text); [exact Hinv|].
  destruct (re_match mondai_re line_text) as [mm|].
  { destruct (py_int _); [apply (stage1_flush_pages _ uls st Hinv) | exact Hinv]. }
  destruct ((Stage1.current_mondai st =? 0)%Z || negb (truthy line_text)); [exact Hinv|].
  destruct (re_match new_question_re line_text) as [nq|].
  - unfold stage1_holds, stage1_page_inv.
    cbn [Stage1.current_question_data option_map Stage1.questions Grammar.q_page].
    apply page_inv_of_open; [apply (stage1_flush_pages _ uls st Hinv) | lia].
  - unfold stage1_page_inv in *.
    destruct (Stage1.current_question_data st) as [d|] eqn:Ed;
      [exact Hinv | cbn [stage1_holds]; rewrite Ed; exact Hinv].
Qed.

Lemma stage1_scan_pages_pages wts doc : forall page_num st,
  (0 <= page_num)%Z -> stage1_page_inv page_num st ->
  stage1_holds (stage1_page_inv (page_num + Z.of_nat (length doc)))
    (Stage1.scan_pages wts page_num doc st).
Proof.
  induction doc as [|page doc IH]; intros page_num st H0 Hinv.
  - cbn [Stage1.scan_pages length stage1_holds]. rewrite Z.add_0_r. exact Hinv.
  - cbn [Stage1.scan_pages].
    match goal with
    | |- stage1_holds _ (Stage1.bind ?r _) =>
        assert (Hr : stage1_holds (stage1_page_inv (page_num + 1)) r)
    end.
    { apply (stage1_for_each_holds _ (stage1_page_inv (page_num + 1)) (fun _ => True)).
      - intros st0 block HI _. destruct block as [lines|]; [|exact HI].
        cbn [Stage1.scan_block].
        apply (stage1_for_each_holds _ (stage1_page_inv (page_num + 1)) (fun _ => True));
          [|apply Forall_True|exact HI].
        intros st1 line HI1 _. apply stage1_scan_line_pages; assumption.
      - apply Forall_True.
      - apply (page_inv_of_mono page_num); [lia | exact Hinv]. }
    match goal with
    | |- stage1_holds _ (Stage1.bind ?r _) => destruct r as [st'|e st']
    end; cbn [Stage1.bind].
    + replace (page_num + Z.of_nat (length (page :: doc)))%Z
        with (page_num + 1 + Z.of_nat (length doc))%Z by (cbn [length]; lia).
      apply IH; [lia | exact Hr].
    + cbn [stage1_holds] in *. apply (page_inv_of_mono (page_num + 1)); [|exact Hr].
      cbn [length]. lia.
Qed.

(** X18. The source pages of the grammar / vocabulary records.  Every
    record of the one-stage extraction, and every record of stage 1, has a
    source page from 1 to the number of pages of the document, and the
    records come in page order: the source page never decreases along the
    list.  This holds of the records returned after an exception too. *)
Theorem records_in_page_order (doc : list Page) (wts : list pystr) :
  (Forall (fun q => (1 <= source_page q <= Z.of_nat (length doc))%Z)
     (Csv.extract_grammar_vocab_questions doc wts)
   /\ StronglySorted Z.le (map source_page (Csv.extract_grammar_vocab_questions doc wts)))
  /\ (Forall (fun q => (1 <= source_page q <= Z.of_nat (length doc))%Z)
        (Stage1.extract_grammar_vocab_questions doc wts)
      /\ StronglySorted Z.le
           (map source_page (Stage1.extract_grammar_vocab_questions doc wts))).
Proof.
  split.
  - assert (H : result_page_inv (Z.of_nat (length doc)) (Csv.scan_document doc wts)).
    { unfold Csv.scan_document.
      pose proof (csv_scan_pages_pages wts doc 0 (Csv.mkState Csv.vocab 0 None [] None))
        as Hr.
      rewrite Z.add_0_l in Hr.
      assert (H0 : page_inv 0 (Csv.mkState Csv.vocab 0 None [] None)).
      { split; [|reflexivity]. split; constructor. }
      specialize (Hr (Z.le_refl 0) H0).
      destruct (Csv.scan_pages wts 0 doc _) as [st|e st]; cbn [Csv.bind]; [|exact Hr].
      cbn [result_page_inv] in Hr.
      destruct (Csv.underlines st) as [uls|]; [|exact Hr].
      cbn [result_page_inv].
      pose proof (csv_flush_pages _ uls st (Csv.section st) (Csv.current_mondai st) Hr)
        as Hf.
      exact Hf. }
    unfold Csv.extract_grammar_vocab_questions.
    destruct (Csv.scan_document doc wts) as [st|e st]; destruct H as [H _];
      eapply page_inv_of_records; exact H.
  - assert (H : stage1_holds (stage1_page_inv (Z.of_nat (length doc)))
                 (Stage1.scan_pages wts 0 doc (Stage1.mkState Csv.vocab 0 None [] None))).
    { rewrite <- (Z.add_0_l (Z.of_nat (length doc))).
      apply stage1_scan_pages_pages; [lia|]. split; constructor. }
    unfold Stage1.extract_grammar_vocab_questions, Stage1.scan_document.
    destruct (Stage1.scan_pages wts 0 doc _) as [st|e st];
      cbn [Stage1.bind stage1_holds] in *.
    + destruct (Stage1.underlines st) as [uls|].
      * eapply page_inv_of_records, stage1_flush_pages, H.
      * eapply page_inv_of_records. exact H.
    + eapply page_inv_of_records. exact H.
Qed.

Lemma csv_scan_pages_app wts doc1 : forall doc2 page_num st,
  Csv.scan_pages wts page_num (doc1 ++ doc2) st
  = Csv.bind (Csv.scan_pages wts page_num doc1 st)
      (Csv.scan_pages wts (page_num + Z.of_nat (length doc1)) doc2).
Proof.
  induction doc1 as [|page doc1 IH]; intros doc2 page_num st.
  - cbn [app Csv.scan_pages Csv.bind length]. rewrite Z.add_0_r. reflexivity.
  - cbn [app Csv.scan_pages].
    destruct (Csv.for_each _ (blocks page) _) as [st'|e st']; cbn [Csv.bind];
      [|reflexivity].
    rewrite IH. do 2 f_equal. cbn [length]. lia.
Qed.

Lemma csv_textless_blocks wts uls page_num bs : forall st,
  Forall (fun block => block_lines block = []) bs ->
  Csv.for_each (Csv.scan_block wts uls page_num) bs st = Csv.Next st.
Proof.
  induction bs as [|block bs IH]; intros st H; [reflexivity|].
  inversion H as [|? ? Hb Hbs]; subst. cbn [Csv.for_each].
  destruct block as [lines|]; cbn [block_lines] in Hb; subst;
    cbn [Csv.scan_block Csv.for_each Csv.bind]; apply IH, Hbs.
Qed.

(** X19. The question still open at the end of the document is closed with
    the underlines of the last page, whichever page its lines stand on: when
    a page without text lines follows the document, the records emitted
    before stay the same, and the last question is marked against the
    drawings of that page alone. *)
Theorem last_question_uses_last_page (doc : list Page) (wts : list pystr)
    (trailing_drawings : list Path) (trailing_blocks : list Block) (st : Csv.State) :
  Csv.scan_pages wts 0 doc (Csv.mkState Csv.vocab 0 None [] None) = Csv.Next st ->
  Forall (fun block => block_lines block = []) trailing_blocks ->
  Csv.extract_grammar_vocab_questions
    (doc ++ [mkPage trailing_drawings trailing_blocks]) wts
  = Csv.questions st
    ++ Csv.process_and_save_grammar_question (Csv.current_grammar_q_data st)
         (get_underlines trailing_drawings).
Proof.
  intros Hst Hbs. unfold Csv.extract_grammar_vocab_questions, Csv.scan_document.
  rewrite csv_scan_pages_app, Hst. cbn [Csv.bind Csv.scan_pages drawings blocks].
  rewrite csv_textless_blocks by exact Hbs. cbn [Csv.bind Csv.underlines].
  reflexivity.
Qed.

Lemma last_question_uses_last_page_witness :
  Csv.extract_grammar_vocab_questions
    ([mkPage []
        [TextBlock [plain_line "ぶんぽう・どっかい"; plain_line "問題1";
                    [mkSpan (u "1.これは ") (mkRect 0 0 20 10) 0;
                     mkSpan (u "ほん") (mkRect 20 0 30 10) 0;
                     mkSpan (u " です") (mkRect 30 0 50 10) 0]]]]
     ++ [mkPage [[ItemL (mkPoint 20 11) (mkPoint 30 11)]] [ImageBlock]]) []
  = [mkQuestion (u "Grammar/Reading") (u "1") [] (u "これは  (______)  です") []
       (u "ほん") 1].
Proof.
  etransitivity.
  - apply (last_question_uses_last_page _ _ _ _
             (Csv.mkState Csv.grammar 1
                (Some (Csv.mkGData (u "1")
                         [[mkSpan (u "1.これは ") (mkRect 0 0 20 10) 0;
                           mkSpan (u "ほん") (mkRect 20 0 30 10) 0;
                           mkSpan (u " です") (mkRect 30 0 50 10) 0]] 1))
                [] (Some []))).
    + vm_compute. reflexivity.
    + constructor; [reflexivity | constructor].
  - vm_compute. reflexivity.
Defined.

End PageCoverage.

(* ===================================================================== *)
(** ** JLPT-pdf-csv-llm.py: the fence and the watermark filter *)
(* ===================================================================== *)

Section LlmCoverage.

Import Llm.

Lemma m_lits_miss lits : forall pat s pos caps,
  startswith lits s = false -> m (map Lit lits ++ pat) s pos caps = None.
Proof.
  induction lits as [|a lits IH]; intros pat s pos caps H; [discriminate H|].
  cbn [map app]. destruct s as [|b s]; [reflexivity|]. cbn [startswith] in H.
  destruct (N.eqb_spec a b) as [<-|Hne].
  - rewrite m_lit_hit. apply IH. exact H.
  - apply m_lit_miss. intros x s' E. injection E as <- _. congruence.
Qed.

Lemma m_lits_hit lits : forall pat s pos caps,
  m (map Lit lits ++ pat) (lits ++ s) pos caps = m pat s (pos + length lits)%nat caps.
Proof.
  induction lits as [|a lits IH]; intros pat s pos caps; cbn [map app length].
  - rewrite Nat.add_0_r. reflexivity.
  - rewrite m_lit_hit, IH. f_equal. lia.
Qed.

Lemma startswith_app_other lits : forall s x rest,
  lits <> [] -> ~ In x lits -> startswith lits s = false ->
  startswith lits (s ++ x :: rest) = false.
Proof.
  induction lits as [|a lits IH]; intros s x rest Hne Hx H; [contradiction|].
  destruct s as [|b s]; cbn [app startswith] in *.
  - destruct (N.eqb_spec a x) as [->|_]; [|reflexivity].
    exfalso. apply Hx. left. reflexivity.
  - destruct (a =? b); [|reflexivity]. cbn [andb] in *.
    destruct lits as [|a' lits']; [cbn [startswith] in H; discriminate H|].
    apply IH; [discriminate | intros Hin; apply Hx; right; exact Hin | exact H].
Qed.

Lemma any_char_run (s : pystr) : Forall (fun c => any_char c = true) s.
Proof. apply List.Forall_forall. reflexivity. Qed.

Lemma no_fence_after (post : pystr) i :
  ~ In 96 post -> startswith [96; 96; 96] (skipn i (96 :: 96 :: post)) = false.
Proof.
  intros Hp.
  assert (Hx : forall j x r, skipn j post = x :: r -> (96 =? x) = false).
  { intros j x r E. destruct (N.eqb_spec 96 x) as [<-|_]; [|reflexivity].
    exfalso. apply Hp. eapply skipn_head_in, E. }
  destruct i as [|[|i]]; cbn [skipn].
  - cbn [startswith]. rewrite !N.eqb_refl. cbn [andb].
    destruct post as [|x r]; [reflexivity|]. rewrite (Hx 0%nat x r eq_refl). reflexivity.
  - cbn [startswith]. rewrite !N.eqb_refl. cbn [andb].
    destruct post as [|x r]; [reflexivity|]. rewrite (Hx 0%nat x r eq_refl). reflexivity.
  - destruct (skipn i post) as [|x r] eqn:E; [reflexivity|].
    cbn [startswith]. rewrite (Hx i x r E). reflexivity.
Qed.

(** The body group and the closing fence: the repetition goes to the end
    of the text and comes back to the last fence. *)
Lemma fence_star body post pos caps :
  ~ In 96 post ->
  star any_char (m [Close; Lit 96; Lit 96; Lit 96]) (body ++ 96 :: 96 :: 96 :: post)
    pos caps
  = Some (caps ++ [pos + length body]%nat, S (S (S (pos + length body)))).
Proof.
  intros Hp. apply (star_backtrack any_char _ _ pos caps (length body)).
  - apply run_length_ge, any_char_run.
  - rewrite skipn_length_app, m_close, !m_lit_hit. reflexivity.
  - intros j [Hj _]. rewrite m_close.
    change [Lit 96; Lit 96; Lit 96] with (map Lit [96; 96; 96] ++ []).
    apply m_lits_miss. rewrite skipn_past by exact Hj. apply no_fence_after, Hp.
Qed.

Lemma search_fence_hit_json subject s pos r :
  m fence_json_re s pos [] = Some r ->
  search_fence subject s pos = Some (group subject r 2).
Proof. intros H. destruct s; cbn [search_fence]; rewrite H; reflexivity. Qed.

Lemma search_fence_hit_plain subject s pos r :
  m fence_json_re s pos [] = None -> m fence_plain_re s pos [] = Some r ->
  search_fence subject s pos = Some (group subject r 1).
Proof. intros H1 H2. destruct s; cbn [search_fence]; rewrite H1, H2; reflexivity. Qed.

Lemma fence_json_miss s pos : startswith [96; 96; 96] s = false ->
  m fence_json_re s pos [] = None.
Proof.
  intros H. unfold fence_json_re.
  match goal with
  | |- m (Lit 96 :: Lit 96 :: Lit 96 :: ?pat) _ _ _ = _ =>
      change (m (map Lit [96; 96; 96] ++ pat) s pos [] = None)
  end.
  apply m_lits_miss, H.
Qed.

Lemma fence_plain_miss s pos : startswith [96; 96; 96] s = false ->
  m fence_plain_re s pos [] = None.
Proof.
  intros H. unfold fence_plain_re.
  match goal with
  | |- m (Lit 96 :: Lit 96 :: Lit 96 :: ?pat) _ _ _ = _ =>
      change (m (map Lit [96; 96; 96] ++ pat) s pos [] = None)
  end.
  apply m_lits_miss, H.
Qed.

Lemma search_fence_miss subject c s pos :
  c <> 96 -> search_fence subject (c :: s) pos = search_fence subject s (S pos).
Proof.
  intros Hc. cbn [search_fence].
  assert (H : startswith [96; 96; 96] (c :: s) = false).
  { cbn [startswith]. destruct (N.eqb_spec 96 c) as [E|_]; [congruence | reflexivity]. }
  rewrite (fence_json_miss _ _ H), (fence_plain_miss _ _ H). reflexivity.
Qed.

Lemma search_fence_skip subject pre : forall s pos,
  ~ In 96 pre ->
  search_fence subject (pre ++ s) pos = search_fence subject s (pos + length pre).
Proof.
  induction pre as [|c pre IH]; intros s pos H; cbn [app length].
  - rewrite Nat.add_0_r. reflexivity.
  - rewrite search_fence_miss by (intros ->; apply H; left; reflexivity).
    rewrite IH by (intros Hin; apply H; right; exact Hin). f_equal. lia.
Qed.

Lemma search_fence_none subject s : forall pos,
  contains [96; 96; 96] s = false -> search_fence subject s pos = None.
Proof.
  induction s as [|c s IH]; intros pos H; [reflexivity|].
  cbn [contains] in H. apply orb_false_elim in H as [H1 H2].
  cbn [search_fence]. rewrite (fence_json_miss _ _ H1), (fence_plain_miss _ _ H1).
  apply IH, H2.
Qed.

(** X20. A response without three backquotes in a row is only stripped. *)
Theorem clean_llm_response_no_fence (text : pystr) :
  contains (u "```") text = false -> clean_llm_response text = strip text.
Proof.
  intros H. unfold clean_llm_response.
  rewrite search_fence_none; [reflexivity | exact H].
Qed.

Lemma clean_llm_response_no_fence_witness :
  clean_llm_response (u "  [{`a`: 1}] ") = strip (u "  [{`a`: 1}] ").
Proof. apply clean_llm_response_no_fence. vm_compute. reflexivity. Defined.

Lemma fence_json_match body post pos :
  ~ In 96 post ->
  m fence_json_re ([96; 96; 96] ++ [106; 115; 111; 110] ++ body ++ [96; 96; 96] ++ post)
    pos []
  = Some ([pos + 3; pos + 3 + 4; pos + 3 + 4; pos + 3 + 4 + length body]%nat,
          S (S (S (pos + 3 + 4 + length body)))).
Proof.
  intros Hp. unfold fence_json_re.
  change (m (map Lit [96; 96; 96]
               ++ Open :: (map Lit [106; 115; 111; 110]
                             ++ Close :: Open :: Star any_char
                                  :: [Close; Lit 96; Lit 96; Lit 96]))
            ([96; 96; 96] ++ [106; 115; 111; 110] ++ body ++ [96; 96; 96] ++ post)
            pos []
          = Some ([pos + 3; pos + 3 + 4; pos + 3 + 4; pos + 3 + 4 + length body]%nat,
                  S (S (S (pos + 3 + 4 + length body))))).
  rewrite m_lits_hit, m_open, m_lits_hit, m_close, m_open, m_star.
  change ([96; 96; 96] ++ post) with (96 :: 96 :: 96 :: post).
  rewrite fence_star by exact Hp. reflexivity.
Qed.

Lemma fence_plain_match body post pos :
  ~ In 96 post ->
  m fence_plain_re ([96; 96; 96] ++ body ++ [96; 96; 96] ++ post) pos []
  = Some ([pos + 3; pos + 3 + length body]%nat, S (S (S (pos + 3 + length body)))).
Proof.
  intros Hp. unfold fence_plain_re.
  change (m (map Lit [96; 96; 96]
               ++ Open :: Star any_char :: [Close; Lit 96; Lit 96; Lit 96])
            ([96; 96; 96] ++ body ++ [96; 96; 96] ++ post) pos []
          = Some ([pos + 3; pos + 3 + length body]%nat,
                  S (S (S (pos + 3 + length body))))).
  rewrite m_lits_hit, m_open, m_star.
  change ([96; 96; 96] ++ post) with (96 :: 96 :: 96 :: post).
  rewrite fence_star by exact Hp. reflexivity.
Qed.

Lemma fence_json_other body post pos :
  startswith [106; 115; 111; 110] body = false ->
  m fence_json_re ([96; 96; 96] ++ body ++ [96; 96; 96] ++ post) pos [] = None.
Proof.
  intros H. unfold fence_json_re.
  change (m (map Lit [96; 96; 96]
               ++ Open :: (map Lit [106; 115; 111; 110]
                             ++ Close :: Open :: Star any_char
                                  :: [Close; Lit 96; Lit 96; Lit 96]))
            ([96; 96; 96] ++ body ++ [96; 96; 96] ++ post) pos [] = None).
  rewrite m_lits_hit, m_open. apply m_lits_miss.
  change ([96; 96; 96] ++ post) with (96 :: [96; 96] ++ post).
  apply startswith_app_other; [discriminate | | exact H].
  intros Hin. repeat (destruct Hin as [Hin|Hin]; [discriminate Hin|]). exact Hin.
Qed.

(** X21. A response with one fenced block.  When the text before the
    opening fence and the text after the closing fence hold no backquote,
    the result is the stripped text between the fences, without the word
    json when the block starts with it.  The block itself may hold
    backquotes: the closing fence is the last one. *)
Theorem clean_llm_response_fenced (pre mid post : pystr) :
  ~ In 96 pre -> ~ In 96 post ->
  clean_llm_response (pre ++ u "```" ++ mid ++ u "```" ++ post)
  = strip (if startswith (u "json") mid then skipn 4 mid else mid).
Proof.
  intros Hpre Hpost. unfold clean_llm_response.
  change (u "```") with [96; 96; 96]. change (u "json") with [106; 115; 111; 110].
  rewrite search_fence_skip by exact Hpre.
  destruct (startswith [106; 115; 111; 110] mid) eqn:Ej.
  - apply startswith_spec in Ej as (body & ->).
    rewrite <- (app_assoc [106; 115; 111; 110] body).
    rewrite (search_fence_hit_json _ _ _ _ (fence_json_match body post _ Hpost)).
    rewrite group_2. f_equal.
    rewrite (substring_eq _ (pre ++ [96; 96; 96] ++ [106; 115; 111; 110]) body
               ([96; 96; 96] ++ post)).
    + reflexivity.
    + rewrite <- !app_assoc. reflexivity.
    + rewrite !length_app. cbn [length]. lia.
    + rewrite !length_app. cbn [length]. lia.
  - rewrite (search_fence_hit_plain _ _ _ _ (fence_json_other mid post _ Ej)
               (fence_plain_match mid post _ Hpost)).
    rewrite group_1. f_equal.
    apply (substring_eq _ (pre ++ [96; 96; 96]) mid ([96; 96; 96] ++ post)).
    + rewrite <- !app_assoc. reflexivity.
    + rewrite !length_app. cbn [length]. lia.
    + rewrite !length_app. cbn [length]. lia.
Qed.

Lemma clean_llm_response_fenced_witness :
  clean_llm_response (u "Here: " ++ u "```" ++ u "json [1, `x`] " ++ u "```" ++ u " end")
  = strip (if startswith (u "json") (u "json [1, `x`] ")
           then skipn 4 (u "json [1, `x`] ") else u "json [1, `x`] ").
Proof.
  apply clean_llm_response_fenced; vm_compute;
    intros H; repeat (destruct H as [H|H]; [discriminate H|]); exact H.
Defined.

Lemma split_join sep (ls : list pystr) :
  ls <> [] -> Forall (fun p => ~ In sep p) ls -> split sep (join [sep] ls) = ls.
Proof.
  intros Hne H. induction H as [|p ls Hp Hls IH]; [contradiction|].
  destruct ls as [|q rest].
  - cbn [join]. apply split_no_sep, Hp.
  - rewrite join_cons by discriminate. cbn [app].
    rewrite split_app, (split_no_sep sep p Hp), IH by discriminate. reflexivity.
Qed.

Lemma filter_all {A} (f : A -> bool) (l : list A) :
  Forall (fun x => f x = true) l -> List.filter f l = l.
Proof.
  induction 1 as [|x l Hx _ IH]; [reflexivity|].
  cbn [List.filter]. rewrite Hx, IH. reflexivity.
Qed.

Lemma filter_kept {A} (f : A -> bool) (l : list A) :
  Forall (fun x => f x = true) (List.filter f l).
Proof.
  apply List.Forall_forall. intros x Hx. apply List.filter_In in Hx as [_ Hx]. exact Hx.
Qed.

(** X22. The watermark filter of the page text.  A text none of whose
    lines holds a watermark is left as it is; and filtering twice is
    filtering once: the lines that are kept are written back with the
    newlines between them, so that they are read again as the same lines. *)
Theorem cleaned_text_stable :
  (forall wts page_text,
      Forall (fun line => any_in wts line = false) (split NL page_text) ->
      cleaned_text wts page_text = page_text)
  /\ (forall wts page_text,
         cleaned_text wts (cleaned_text wts page_text) = cleaned_text wts page_text).
Proof.
  split.
  - intros wts t H. unfold cleaned_text. rewrite filter_all; [apply join_split|].
    eapply Forall_impl; [exact H|]. intros line Hl. cbv beta in *. rewrite Hl. reflexivity.
  - intros wts t.
    set (keep := fun line : pystr => negb (any_in wts line)).
    assert (Hc : cleaned_text wts t = join [NL] (List.filter keep (split NL t)))
      by reflexivity.
    rewrite Hc.
    assert (Hkept : Forall (fun p => ~ In NL p) (List.filter keep (split NL t))).
    { apply List.Forall_forall. intros line Hl.
      apply List.filter_In in Hl as [Hl _]. eapply split_parts_no_sep, Hl. }
    pose proof (filter_kept keep (split NL t)) as Hall.
    destruct (List.filter keep (split NL t)) as [|p ps].
    + unfold cleaned_text. cbn [join split List.filter].
      destruct (negb (any_in wts [])); reflexivity.
    + unfold cleaned_text. fold keep.
      rewrite split_join by (discriminate || exact Hkept).
      rewrite filter_all by exact Hall. reflexivity.
Qed.

Lemma cleaned_text_stable_witness :
  cleaned_text [u "Mogi"] (u "問題1" ++ [NL] ++ u "1.ほん") = u "問題1" ++ [NL] ++ u "1.ほん".
Proof.
  apply (proj1 cleaned_text_stable).
  vm_compute. repeat constructor.
Defined.

End LlmCoverage.
